(** * Modern Email client (src/main.py): a shallow embedding and its properties

    The development follows [src/main.py], method by method.  The program is a
    PyQt window object whose methods read and write a handful of attributes
    ([config], [current_setup], [attachments], the account selector, the
    message table), a configuration file, the system keyring, and two network
    services reached through [imaplib] and [smtplib].

    - [Py]: the Python built-ins the methods rely on (string methods, slices,
      indexing, [repr], [PurePosixPath.name]).
    - [Email]: the part of the [email] package the methods call on a message
      object ([get], [walk], [get_content_type], [get_filename], the MIME
      constructors), after the code of that package in CPython 3.11.
    - [Client]: the attributes of the window object, the outside world, and
      the methods [load_config], [save_config], [update_account_list],
      [quick_setup], [save_account], [compose_email], [add_attachment],
      [send_email], [refresh_emails] and [view_email], written in a
      state-and-exception monad; of [setup_ui] and [setup_menu], the
      attributes of [self] that they look up.
    - [Spec]: the notions the statements use, and the data of the examples.

    What is taken as given: the codecs, the parser and the date functions of
    the standard library ([Library]), what each [imaplib] or [smtplib] call
    answers ([Network]), and which attributes [QMainWindow] provides.
    The widgets are kept as the values they hold; the layout, the style
    sheet and the dialogs that collect the user's input are not modelled,
    nor are [create_desktop_entry], [show_about] and [main].

    Text: a Python [str] is a Rocq [string], one character per code point; the
    embedding covers the code points up to U+00FF, on which the character
    classes below are Python's.  A [bytes] value is a [string] as well, one
    character per byte. *)

From Stdlib Require Import ZArith String Ascii Sorted.
From stdpp Require Import gmap strings list pretty.

Local Set Warnings "-register-all".
Local Open Scope Z_scope.

(** ** Python built-ins *)
Module Py.

(** [str.isspace] on one character (code points 9-13, 28-32, 133, 160). *)
Definition isspace (c : ascii) : bool :=
  let n := nat_of_ascii c in
  ((9 <=? n) && (n <=? 13) || (28 <=? n) && (n <=? 32)
   || (n =? 133) || (n =? 160))%nat.

(** [bytes.isspace] on one byte: space, tab, newline, return, VT, FF. *)
Definition isspace_byte (c : ascii) : bool :=
  let n := nat_of_ascii c in
  ((9 <=? n) && (n <=? 13) || (n =? 32))%nat.

(** [str.lower] on one character: A-Z, and in Latin-1 the capitals
    U+00C0-U+00DE except the multiplication sign. *)
Definition lower_char (c : ascii) : ascii :=
  let n := nat_of_ascii c in
  if ((65 <=? n) && (n <=? 90) || (192 <=? n) && (n <=? 214)
      || (216 <=? n) && (n <=? 222))%nat
  then ascii_of_nat (n + 32) else c.

Fixpoint lower (s : string) : string :=
  match s with
  | EmptyString => EmptyString
  | String c s' => String (lower_char c) (lower s')
  end.

Fixpoint lstrip (s : string) : string :=
  match s with
  | EmptyString => EmptyString
  | String c s' => if isspace c then lstrip s' else s
  end.

Fixpoint rstrip (s : string) : string :=
  match s with
  | EmptyString => EmptyString
  | String c s' =>
      match rstrip s' with
      | EmptyString => if isspace c then EmptyString else String c EmptyString
      | r => String c r
      end
  end.

(** [s.strip()] *)
Definition strip (s : string) : string := rstrip (lstrip s).

(** [s[:n]] and [s[n:]] for [n >= 0]. *)
Fixpoint take (n : nat) (s : string) : string :=
  match n, s with
  | S k, String c s' => String c (take k s')
  | _, _ => EmptyString
  end.

Fixpoint drop (n : nat) (s : string) : string :=
  match n, s with
  | S k, String _ s' => drop k s'
  | _, _ => s
  end.

Definition len (s : string) : Z := Z.of_nat (String.length s).

(** [s.startswith(p)] *)
Fixpoint startswith (p s : string) : bool :=
  match p, s with
  | EmptyString, _ => true
  | String a p', String b s' => bool_decide (a = b) && startswith p' s'
  | String _ _, EmptyString => false
  end.

(** [s.endswith(c)] for a one-character [c]. *)
Fixpoint endswith (c : ascii) (s : string) : bool :=
  match s with
  | EmptyString => false
  | String a EmptyString => bool_decide (a = c)
  | String _ s' => endswith c s'
  end.

(** The position of the first [c] at or after [start], if any. *)
Fixpoint index_from (c : ascii) (start : nat) (s : string) : option nat :=
  match s with
  | EmptyString => None
  | String a s' =>
      match start with
      | O => if bool_decide (a = c) then Some O
             else S <$> index_from c O s'
      | S k => S <$> index_from c k s'
      end
  end.

(** [s.find(c, start)] for a one-character [c] and [start >= 0]: the index,
    or [-1]. *)
Definition find (c : ascii) (s : string) (start : Z) : Z :=
  match index_from c (Z.to_nat start) s with
  | Some i => Z.of_nat i
  | None => -1
  end.

(** [c in s] for a one-character [c]. *)
Definition has_char (c : ascii) (s : string) : bool :=
  bool_decide (is_Some (index_from c O s)).

(** [s.count(sub)] for a non-empty [sub]: occurrences from left to right that
    do not overlap.  [skip] is the number of characters still covered by the
    occurrence counted last. *)
Fixpoint count_skip (sub s : string) (skip : nat) : nat :=
  match s with
  | EmptyString => O
  | String _ s' =>
      match skip with
      | S k => count_skip sub s' k
      | O => if startswith sub s
             then S (count_skip sub s' (String.length sub - 1))
             else count_skip sub s' O
      end
  end.

Definition count (sub s : string) : Z := Z.of_nat (count_skip sub s O).

(** [s.replace(old, new)] for a non-empty [old]. *)
Fixpoint replace_skip (old new s : string) (skip : nat) : string :=
  match s with
  | EmptyString => EmptyString
  | String c s' =>
      match skip with
      | S k => replace_skip old new s' k
      | O => if startswith old s
             then new +:+ replace_skip old new s' (String.length old - 1)
             else String c (replace_skip old new s' O)
      end
  end.

Definition replace (old new s : string) : string := replace_skip old new s O.

(** [sub in s] *)
Fixpoint contains (sub s : string) : bool :=
  startswith sub s ||
  match s with
  | EmptyString => false
  | String _ s' => contains sub s'
  end.

(** [s.partition(c)]: the text before the first [c], whether [c] was found,
    and the text after it. *)
Definition partition (c : ascii) (s : string) : string * bool * string :=
  match index_from c O s with
  | Some i => (take i s, true, drop (S i) s)
  | None => (s, false, EmptyString)
  end.

(** [sep.join(l)] *)
Fixpoint join (sep : string) (l : list string) : string :=
  match l with
  | [] => EmptyString
  | [x] => x
  | x :: l' => x +:+ sep +:+ join sep l'
  end.

(** [b.split()] on bytes: the maximal runs of bytes that are not white space.
    [cur] is the run being read, [None] between runs. *)
Fixpoint split_ws (s : string) (cur : option string) : list string :=
  match s with
  | EmptyString => match cur with Some w => [w] | None => [] end
  | String c s' =>
      if isspace_byte c
      then match cur with
           | Some w => w :: split_ws s' None
           | None => split_ws s' None
           end
      else split_ws s' (Some (default EmptyString cur +:+ String c EmptyString))
  end.

Definition bytes_split (s : string) : list string := split_ws s None.

(** [s.split(c)] for a one-character separator. *)
Fixpoint split_on (c : ascii) (s : string) (cur : string) : list string :=
  match s with
  | EmptyString => [cur]
  | String a s' =>
      if bool_decide (a = c) then cur :: split_on c s' EmptyString
      else split_on c s' (cur +:+ String a EmptyString)
  end.

Definition split (c : ascii) (s : string) : list string :=
  split_on c s EmptyString.

(** [l[i:]] on a list, for any integer [i]: a negative [i] counts from the
    end, and the bounds are clipped. *)
Definition slice_from {A} (i : Z) (l : list A) : list A :=
  let n := Z.of_nat (length l) in
  let lo := if i <? 0 then Z.max 0 (n + i) else Z.min i n in
  list.drop (Z.to_nat lo) l.

(** [l[i]] on a list: [None] stands for [IndexError]. *)
Definition index {A} (l : list A) (i : Z) : option A :=
  let n := Z.of_nat (length l) in
  if (0 <=? i) && (i <? n) then l !! Z.to_nat i
  else if (- n <=? i) && (i <? 0) then l !! Z.to_nat (n + i)
  else None.

(** [all(ord(c) < 128 for c in s)]: whether [s.encode('us-ascii')] passes. *)
Fixpoint isascii (s : string) : bool :=
  match s with
  | EmptyString => true
  | String c s' => (nat_of_ascii c <? 128)%nat && isascii s'
  end.

(** [PurePosixPath(p).name]: the last component of [p] that is neither empty
    nor a single dot, or the empty string. *)
Definition path_name (p : string) : string :=
  default EmptyString
    (last (filter (fun x => x <> EmptyString /\ x <> ".") (split "/" p))).

Definition hex_digit (n : nat) : ascii :=
  ascii_of_nat (if (n <? 10)%nat then 48 + n else 87 + n).

(** One character inside [repr(s)], [q] being the quote chosen. *)
Definition repr_char (q c : ascii) : string :=
  let n := nat_of_ascii c in
  if bool_decide (c = "092"%char) then String c (String c EmptyString)
  else if bool_decide (c = q) then String "092" (String c EmptyString)
  else if (n =? 9)%nat then "\t"
  else if (n =? 10)%nat then "\n"
  else if (n =? 13)%nat then "\r"
  else if ((n <? 32) || (127 <=? n) && (n <=? 160) || (n =? 173))%nat
  then String "092" (String "x" (String (hex_digit (n / 16))
                                   (String (hex_digit (n mod 16)) EmptyString)))
  else String c EmptyString.

Fixpoint repr_body (q : ascii) (s : string) : string :=
  match s with
  | EmptyString => EmptyString
  | String c s' => repr_char q c +:+ repr_body q s'
  end.

(** [repr(s)] of a [str]: double quotes when [s] has a single quote and no
    double quote, single quotes otherwise. *)
Definition repr (s : string) : string :=
  let q := if has_char "'" s && negb (has_char "034" s)
           then "034"%char else "'"%char in
  String q (repr_body q s +:+ String q EmptyString).

End Py.

(** ** Exceptions

    An exception is its class and the text [str(e)] gives.  Only the classes
    the modelled calls raise are listed. *)
Inductive ExcClass :=
  | KeyError | IndexError | TypeError | AttributeError | ValueError
  | UnicodeDecodeError | JSONDecodeError
  | OSError | FileNotFoundError | ConnectionError | TimeoutError
  | IMAP4Error
  | SMTPException | SMTPAuthenticationError | SMTPServerDisconnected
  | KeyringError.

Record Exception := mkExc { exc_class : ExcClass; exc_str : string }.

(** [isinstance(e, OSError)]: [smtplib.SMTPException] derives from
    [OSError], [imaplib.IMAP4.error] does not. *)
Definition is_OSError (e : Exception) : bool :=
  match exc_class e with
  | OSError | FileNotFoundError | ConnectionError | TimeoutError
  | SMTPException | SMTPAuthenticationError | SMTPServerDisconnected => true
  | _ => false
  end.

(** [isinstance(e, smtplib.SMTPServerDisconnected)] *)
Definition is_SMTPServerDisconnected (e : Exception) : bool :=
  match exc_class e with
  | SMTPServerDisconnected => true
  | _ => false
  end.

Inductive result (A : Type) :=
  | Ok (a : A)
  | Raise (e : Exception).
Arguments Ok {A} a.
Arguments Raise {A} e.

(** ** Message objects of the [email] package *)

(** A message object: its header list [_headers] in order, its
    [_default_type], and its [_payload], a string or a list of messages. *)
Inductive Message :=
  | Leaf (headers : list (string * string)) (default_type : string)
         (payload : string)
  | Multi (headers : list (string * string)) (default_type : string)
          (parts : list Message).

Definition headers_of (m : Message) : list (string * string) :=
  match m with Leaf hs _ _ => hs | Multi hs _ _ => hs end.

Definition default_type_of (m : Message) : string :=
  match m with Leaf _ d _ => d | Multi _ d _ => d end.

(** A parameter value as [get_param] returns it: a string, or the value of
    an RFC 2231 parameter, kept here as the string that
    [collapse_rfc2231_value(_unquotevalue(v))] makes of it. *)
Inductive ParamValue :=
  | PStr (v : string)
  | PExt (collapsed : string).

(** ** Data of the client *)

(** The connection settings of one account: the dict [current_setup]. *)
Record Settings := {
  smtp_server : string;
  smtp_port : Z;
  imap_server : string;
  imap_port : Z
}.

(** [config['accounts']]: a dict from address to settings, in insertion
    order. *)
Definition Accounts := list (string * Settings).

(** [self.config]: the JSON object of the settings file, read through its
    ['accounts'] member; [None] when the object has no such key. *)
Definition Config := option Accounts.

Record datetime := { dt_timestamp : Z; dt_utcoffset : option Z }.

(** The library functions that are taken as given: codecs, the parser, the
    date functions and the RFC 2231 decoder of the [email] package, and the
    [json] module. *)
Record Library := {
  (** [base64mime.body_decode], [quopri.decodestring], [_decode_uu]: the
      payload decoded by the (lower-cased) Content-Transfer-Encoding *)
  transfer_decode : string -> string -> string;
  (** [bytes.decode()] (UTF-8) *)
  bytes_decode : string -> result string;
  (** [str.encode('utf-8')] *)
  utf8_encode : string -> string;
  (** [Charset('utf-8').body_encode] *)
  body_encode : string -> string;
  (** [str(base64.encodebytes(b), 'ascii')] *)
  _bencode : string -> string;
  (** [email.message_from_bytes] *)
  message_from_bytes : string -> Message;
  (** [email.utils.parsedate_to_datetime], [email.utils.format_datetime] *)
  parsedate_to_datetime : option string -> result datetime;
  format_datetime : datetime -> string;
  (** what [decode_params] appends for the RFC 2231 parameters it has
      collected, given as (name, unquoted value) in header order *)
  rfc2231_params : list (string * string) -> list (string * string);
  (** [json.dumps(config, indent=2)] and [json.loads] *)
  json_dumps : Config -> string;
  json_loads : string -> result Config
}.

Module Email.
Import Py.

Definition dquote : ascii := "034"%char.
Definition backslash : ascii := "092"%char.
Definition semicolon : ascii := ";"%char.

(** [s] between double quotes. *)
Definition quoted (s : string) : string :=
  String dquote (s +:+ String dquote EmptyString).

(** [Message.get(name)]: the value of the first header whose name matches
    without regard to case. *)
Fixpoint get_header (name : string) (hs : list (string * string))
  : option string :=
  match hs with
  | [] => None
  | (k, v) :: hs' =>
      if bool_decide (lower k = name) then Some v else get_header name hs'
  end.

Definition get (name : string) (m : Message) : option string :=
  get_header (lower name) (headers_of m).

(** [msg[name] = val] and [add_header(name, val)] without parameters: the
    header is appended. *)
Definition setitem (name val : string) (m : Message) : Message :=
  match m with
  | Leaf hs d p => Leaf (hs ++ [(name, val)]) d p
  | Multi hs d ps => Multi (hs ++ [(name, val)]) d ps
  end.

Definition add_header := setitem.

Definition is_multipart (m : Message) : bool :=
  match m with Leaf _ _ _ => false | Multi _ _ _ => true end.

(** [Message.walk()]: the message, then its parts, depth first. *)
Fixpoint walk (m : Message) : list Message :=
  m :: match m with
       | Leaf _ _ _ => []
       | Multi _ _ ps => flat_map walk ps
       end.

(** [_splitparam(param)[0]] *)
Definition _splitparam (param : string) : string :=
  let '(a, _, _) := partition semicolon param in strip a.

Definition get_content_type (m : Message) : string :=
  match get "content-type" m with
  | None => default_type_of m
  | Some value =>
      let ctype := lower (_splitparam value) in
      if bool_decide (count "/" ctype = 1) then ctype else "text/plain"
  end.

Definition get_content_maintype (m : Message) : string :=
  hd EmptyString (split "/" (get_content_type m)).

(** [utils.unquote] *)
Definition unquote (s : string) : string :=
  if 1 <? len s then
    if startswith (String dquote EmptyString) s && endswith dquote s then
      replace (String backslash (String dquote EmptyString))
              (String dquote EmptyString)
              (replace (String backslash (String backslash EmptyString))
                       (String backslash EmptyString)
                       (take (String.length s - 2) (drop 1 s)))
    else if startswith "<" s && endswith ">" s then
      take (String.length s - 2) (drop 1 s)
    else s
  else s.

(** [utils.quote] *)
Definition quote (s : string) : string :=
  replace (String dquote EmptyString)
          (String backslash (String dquote EmptyString))
          (replace (String backslash EmptyString)
                   (String backslash (String backslash EmptyString)) s).

(** The inner loop of [_parseparam]: from a semicolon at [e], move to the
    next one while the quotes before [e] are unbalanced. *)
Fixpoint parseparam_end (fuel : nat) (s : string) (e : Z) : Z :=
  if (0 <? e)
     && Z.odd (count (String dquote EmptyString) (take (Z.to_nat e) s)
               - count (String backslash (String dquote EmptyString))
                       (take (Z.to_nat e) s))
  then match fuel with
       | O => e
       | S fuel' => parseparam_end fuel' s (find semicolon s (e + 1))
       end
  else e.

(** The outer loop of [_parseparam]; every turn removes the leading
    semicolon, so the length of [s] bounds the turns. *)
Fixpoint parseparam_loop (fuel : nat) (s : string) (plist : list string)
  : list string :=
  if startswith ";" s then
    match fuel with
    | O => plist
    | S fuel' =>
        let s := drop 1 s in
        let e := parseparam_end (String.length s) s (find semicolon s 0) in
        let e := Z.to_nat (if e <? 0 then len s else e) in
        let f := take e s in
        let f :=
          match index_from "=" O f with
          | Some i =>
              lower (strip (take i f)) +:+ "=" +:+ strip (drop (S i) f)
          | None => f
          end in
        parseparam_loop fuel' (drop e s) (plist ++ [strip f])
    end
  else plist.

Definition _parseparam (s : string) : list string :=
  parseparam_loop (S (String.length s)) (";" +:+ s) [].

(** [name, val = p.split('=', 1)] with both stripped, or the bare attribute
    with an empty value. *)
Definition split_param (p : string) : string * string :=
  match index_from "=" O p with
  | Some i => (strip (take i p), strip (drop (S i) p))
  | None => (strip p, EmptyString)
  end.

(** [\w] under [re.ASCII] on one character: a letter, a digit or [_]. *)
Definition is_word_char (c : ascii) : bool :=
  let n := nat_of_ascii c in
  ((48 <=? n) && (n <=? 57) || (65 <=? n) && (n <=? 90)
   || (97 <=? n) && (n <=? 122) || (n =? 95))%nat.

Definition is_digit (c : ascii) : bool :=
  let n := nat_of_ascii c in ((48 <=? n) && (n <=? 57))%nat.

Fixpoint all_chars (p : ascii -> bool) (s : string) : bool :=
  match s with
  | EmptyString => true
  | String c s' => p c && all_chars p s'
  end.

(** Whether [rfc2231_continuation] matches [name]: word characters, a star,
    and then nothing, or digits, or digits and a star.  (A name has been
    stripped, so no newline ends it.) *)
Definition rfc2231_continuation_match (name : string) : bool :=
  match partition "*" name with
  | (w, true, rest) =>
      negb (bool_decide (w = EmptyString)) && all_chars is_word_char w
      && (bool_decide (rest = EmptyString)
          || (let d := if endswith "*" rest
                       then take (String.length rest - 1) rest else rest in
              negb (bool_decide (d = EmptyString)) && all_chars is_digit d))
  | _ => false
  end.

Section WithLibrary.
Context (lib : Library).

(** [utils.decode_params]: the first parameter as it is, the plain ones
    unquoted and quoted again, and last the RFC 2231 ones if there are
    any. *)
Definition decode_params (params : list (string * string))
  : list (string * ParamValue) :=
  match params with
  | [] => []
  | (n0, v0) :: rest =>
      let rest := map (fun nv => (fst nv, unquote (snd nv))) rest in
      let plain :=
        filter (fun nv => rfc2231_continuation_match (fst nv) = false) rest in
      let ext :=
        filter (fun nv => rfc2231_continuation_match (fst nv) = true) rest in
      (n0, PStr v0)
      :: map (fun nv => (fst nv,
                         PStr (quoted (quote (snd nv)))))
             plain
      ++ match ext with
         | [] => []
         | _ => map (fun nv => (fst nv, PExt (snd nv)))
                    (rfc2231_params lib ext)
         end
  end.

Definition _get_params_preserve (header : string) (m : Message)
  : option (list (string * ParamValue)) :=
  match get header m with
  | None => None
  | Some value => Some (decode_params (map split_param (_parseparam value)))
  end.

Definition _unquotevalue (v : ParamValue) : ParamValue :=
  match v with
  | PStr s => PStr (unquote s)
  | PExt s => PExt s
  end.

Definition collapse_rfc2231_value (v : ParamValue) : string :=
  match v with
  | PStr s => unquote s
  | PExt s => s
  end.

Fixpoint find_param (param : string) (params : list (string * ParamValue))
  : option ParamValue :=
  match params with
  | [] => None
  | (k, v) :: params' =>
      if bool_decide (lower k = lower param) then Some (_unquotevalue v)
      else find_param param params'
  end.

(** [Message.get_param(param, missing, header)] *)
Definition get_param (param header : string) (m : Message)
  : option ParamValue :=
  match _get_params_preserve header m with
  | None => None
  | Some params => find_param param params
  end.

(** [Message.get_filename()]; [None] is Python's [None]. *)
Definition get_filename (m : Message) : option string :=
  let filename :=
    match get_param "filename" "content-disposition" m with
    | Some v => Some v
    | None => get_param "name" "content-type" m
    end in
  match filename with
  | None => None
  | Some v => Some (strip (collapse_rfc2231_value v))
  end.

(** [Message.get_payload(decode=True)]: [None] on a multipart. *)
Definition get_payload_decode (m : Message) : option string :=
  match m with
  | Multi _ _ _ => None
  | Leaf _ _ payload =>
      let cte :=
        lower (default EmptyString (get "content-transfer-encoding" m)) in
      if bool_decide (cte ∈ ["quoted-printable"; "base64"; "x-uuencode";
                             "uuencode"; "uue"; "x-uue"])
      then Some (transfer_decode lib cte payload)
      else Some payload
  end.

(** [MIMEMultipart()] *)
Definition MIMEMultipart : Message :=
  Multi [("Content-Type", "multipart/mixed"); ("MIME-Version", "1.0")]
        "text/plain" [].

(** [MIMEText(_text)]: us-ascii when the text encodes to it, else utf-8
    with a base64 body. *)
Definition MIMEText (_text : string) : Message :=
  if isascii _text then
    Leaf [("Content-Type",
           "text/plain; charset=" +:+ quoted "us-ascii");
          ("MIME-Version", "1.0");
          ("Content-Transfer-Encoding", "7bit")]
         "text/plain" _text
  else
    Leaf [("Content-Type",
           "text/plain; charset=" +:+ quoted "utf-8");
          ("MIME-Version", "1.0");
          ("Content-Transfer-Encoding", "base64")]
         "text/plain" (body_encode lib (utf8_encode lib _text)).

(** [MIMEBase(_maintype, _subtype)] *)
Definition MIMEBase (_maintype _subtype : string) : Message :=
  Leaf [("Content-Type", _maintype +:+ "/" +:+ _subtype);
        ("MIME-Version", "1.0")]
       "text/plain" EmptyString.

(** [Message.set_payload(payload)] *)
Definition set_payload (payload : string) (m : Message) : Message :=
  Leaf (headers_of m) (default_type_of m) payload.

(** [encoders.encode_base64(msg)] *)
Definition encode_base64 (m : Message) : result Message :=
  match get_payload_decode m with
  | None =>
      Raise (mkExc TypeError
               "expected bytes-like object, not NoneType")
  | Some orig =>
      Ok (setitem "Content-Transfer-Encoding" "base64"
            (set_payload (_bencode lib orig) m))
  end.

(** [Message.attach(payload)] *)
Definition attach (part m : Message) : result Message :=
  match m with
  | Multi hs d ps => Ok (Multi hs d (ps ++ [part]))
  | Leaf _ _ _ =>
      Raise (mkExc TypeError
        "Attach is not valid on a message with a non-multipart payload")
  end.

End WithLibrary.
End Email.

(** ** The client: state, outside world, methods *)
Module Client.
Import Py Email.

(** *** The two network services *)

(** One item of the data list an [imaplib] call returns: [None], a bytes
    line, or a pair of bytes (response line and literal). *)
Inductive ImapItem :=
  | ItemNone
  | ItemBytes (b : string)
  | ItemTuple (a b : string).

(** The [imaplib] calls of the client.  [ImapLogout] is the call made when
    the [with] block is left. *)
Inductive ImapCmd :=
  | ImapConnect (host : string) (port : Z)
  | ImapLogin (user : string) (password : option string)
  | ImapSelect (mailbox : string)
  | ImapSearch (criterion : string)
  | ImapFetch (num : string) (message_parts : string)
  | ImapLogout.

(** The [smtplib] calls of the client.  [SmtpQuit] is the call made when the
    [with] block is left. *)
Inductive SmtpCmd :=
  | SmtpConnect (host : string) (port : Z)
  | SmtpStarttls
  | SmtpLogin (user : string) (password : option string)
  | SmtpSendMessage (msg : Message)
  | SmtpQuit.

(** What a call gives, library and server together, after the calls made so
    far. *)
Record Network := {
  imap : list ImapCmd -> ImapCmd -> result (list ImapItem);
  smtp : list SmtpCmd -> SmtpCmd -> result unit
}.

(** *** The file system *)

Inductive FsOp :=
  | FsOpenW (path : string)
  | FsWrite (path data : string)
  | FsRename (src dst : string).

(** [open(path, 'w')] creates the file or empties it; a write appends to
    what the file holds; a rename moves the content in one step. *)
Definition fs_step (files : gmap string string) (op : FsOp)
  : gmap string string :=
  match op with
  | FsOpenW path => <[path := EmptyString]> files
  | FsWrite path data =>
      <[path := default EmptyString (files !! path) +:+ data]> files
  | FsRename src dst =>
      match files !! src with
      | Some c => <[dst := c]> (delete src files)
      | None => files
      end
  end.

Definition fs_run (ops : list FsOp) (files : gmap string string)
  : gmap string string :=
  foldl fs_step files ops.

(** [Path.write_text(data)]: the file is opened for writing, then written. *)
Definition write_text (path data : string) : list FsOp :=
  [FsOpenW path; FsWrite path data].

Definition CONFIG_FILE : string := "~/.config/modern-mail/config.json".

(** *** State *)

(** What the window has shown: message boxes, accepted dialogs, the viewer. *)
Inductive UiEvent :=
  | Information (title text : string)
  | Warning (title text : string)
  | Critical (title text : string)
  | Accepted (dialog : nat)
  | Viewer (labels : list string) (body : string) (attachments : option string).

(** The attributes of the window object that the methods use.
    [current_setup] is [None] while the attribute does not exist. *)
Record Self := {
  config : Config;
  current_setup : option Settings;
  selector_items : list string;
  selector_text : string;
  attachments : list string;
  email_table : list (list string);
  progress_visible : bool;
  shown : list UiEvent
}.

(** How the disk fails, when it does: no file can be opened, or a file
    opened for writing takes only the first [written] characters before the
    write, or the flush that closing does, raises. *)
Inductive DiskFault :=
  | OpenFails (e : Exception)
  | WriteFails (written : nat) (e : Exception).

Definition fault_exc (f : DiskFault) : Exception :=
  match f with OpenFails e => e | WriteFails _ e => e end.

(** The world outside: files, the keyring and whether its backend or the
    disk is failing, and the calls made to the two services. *)
Record World := {
  files : gmap string string;
  disk_fault : option DiskFault;
  vault : gmap (string * string) string;
  vault_fault : option Exception;
  imap_log : list ImapCmd;
  smtp_log : list SmtpCmd
}.

Record State := { self : Self; world : World }.

Definition with_config (c : Config) (s : Self) : Self :=
  {| config := c; current_setup := current_setup s;
     selector_items := selector_items s; selector_text := selector_text s;
     attachments := attachments s; email_table := email_table s;
     progress_visible := progress_visible s; shown := shown s |}.

Definition with_current_setup (cs : option Settings) (s : Self) : Self :=
  {| config := config s; current_setup := cs;
     selector_items := selector_items s; selector_text := selector_text s;
     attachments := attachments s; email_table := email_table s;
     progress_visible := progress_visible s; shown := shown s |}.

Definition with_selector (items : list string) (text : string) (s : Self)
  : Self :=
  {| config := config s; current_setup := current_setup s;
     selector_items := items; selector_text := text;
     attachments := attachments s; email_table := email_table s;
     progress_visible := progress_visible s; shown := shown s |}.

Definition with_attachments (l : list string) (s : Self) : Self :=
  {| config := config s; current_setup := current_setup s;
     selector_items := selector_items s; selector_text := selector_text s;
     attachments := l; email_table := email_table s;
     progress_visible := progress_visible s; shown := shown s |}.

Definition with_email_table (t : list (list string)) (s : Self) : Self :=
  {| config := config s; current_setup := current_setup s;
     selector_items := selector_items s; selector_text := selector_text s;
     attachments := attachments s; email_table := t;
     progress_visible := progress_visible s; shown := shown s |}.

Definition with_progress (b : bool) (s : Self) : Self :=
  {| config := config s; current_setup := current_setup s;
     selector_items := selector_items s; selector_text := selector_text s;
     attachments := attachments s; email_table := email_table s;
     progress_visible := b; shown := shown s |}.

Definition with_shown (l : list UiEvent) (s : Self) : Self :=
  {| config := config s; current_setup := current_setup s;
     selector_items := selector_items s; selector_text := selector_text s;
     attachments := attachments s; email_table := email_table s;
     progress_visible := progress_visible s; shown := l |}.

Definition with_files (f : gmap string string) (w : World) : World :=
  {| files := f; disk_fault := disk_fault w; vault := vault w;
     vault_fault := vault_fault w; imap_log := imap_log w;
     smtp_log := smtp_log w |}.

Definition with_vault (v : gmap (string * string) string) (w : World)
  : World :=
  {| files := files w; disk_fault := disk_fault w; vault := v;
     vault_fault := vault_fault w; imap_log := imap_log w;
     smtp_log := smtp_log w |}.

Definition with_imap_log (l : list ImapCmd) (w : World) : World :=
  {| files := files w; disk_fault := disk_fault w; vault := vault w;
     vault_fault := vault_fault w; imap_log := l; smtp_log := smtp_log w |}.

Definition with_smtp_log (l : list SmtpCmd) (w : World) : World :=
  {| files := files w; disk_fault := disk_fault w; vault := vault w;
     vault_fault := vault_fault w; imap_log := imap_log w; smtp_log := l |}.

(** *** The monad: state, and a value or a raised exception *)

Definition M (A : Type) : Type := State -> State * result A.

Definition ret {A} (a : A) : M A := fun st => (st, Ok a).

Definition raise {A} (e : Exception) : M A := fun st => (st, Raise e).

Definition bind {A B} (c : M A) (k : A -> M B) : M B :=
  fun st =>
    match c st with
    | (st', Ok a) => k a st'
    | (st', Raise e) => (st', Raise e)
    end.

Definition lift {A} (r : result A) : M A := fun st => (st, r).

Definition on_self (f : Self -> Self) : M unit :=
  fun st => ({| self := f (self st); world := world st |}, Ok tt).

Definition on_world (f : World -> World) : M unit :=
  fun st => ({| self := self st; world := f (world st) |}, Ok tt).

Definition get_self : M Self := fun st => (st, Ok (self st)).

Definition get_world : M World := fun st => (st, Ok (world st)).

(** [try: body except Exception as e: handler(e)] *)
Definition try_except {A} (body : M A) (handler : Exception -> M A) : M A :=
  fun st =>
    match body st with
    | (st', Ok a) => (st', Ok a)
    | (st', Raise e) => handler e st'
    end.

(** [try: body finally: final]; [final] does not raise here. *)
Definition try_finally {A} (body : M A) (final : M unit) : M A :=
  fun st =>
    match body st with
    | (st', r) => (fst (final st'), r)
    end.

Declare Scope py_scope.
Delimit Scope py_scope with py.
Notation "x <- c ;; k" := (bind c (fun x => k))
  (at level 20, c at level 99, k at level 200, only parsing) : py_scope.
Notation "c ;; k" := (bind c (fun _ => k))
  (at level 100, k at level 200, right associativity, only parsing)
  : py_scope.
Local Open Scope py_scope.

(** *** Dicts in insertion order *)

(** [d[k] = v]: the value of an existing key is replaced in place, a new key
    goes last. *)
Fixpoint dict_set {V} (k : string) (v : V) (d : list (string * V))
  : list (string * V) :=
  match d with
  | [] => [(k, v)]
  | (k', v') :: d' =>
      if bool_decide (k' = k) then (k, v) :: d'
      else (k', v') :: dict_set k v d'
  end.

Fixpoint dict_get {V} (k : string) (d : list (string * V)) : option V :=
  match d with
  | [] => None
  | (k', v') :: d' => if bool_decide (k' = k) then Some v' else dict_get k d'
  end.

Definition dict_keys {V} (d : list (string * V)) : list string := d.*1.

(** *** Summaries and their table rows *)

Definition icon_read : string := "📨".
Definition icon_unread : string := "📩".

(** One entry of [emails] in [refresh_emails]. *)
Record Summary := {
  id : string;
  status : string;
  date : string;
  from : option string;
  subject : string
}.

(** [str(x)] of a string or [None]. *)
Definition py_str (x : option string) : string := default "None" x.

(** [x or d] for a string or [None] [x]. *)
Definition py_or (x : option string) (d : string) : string :=
  match x with
  | Some (String c r) => String c r
  | _ => d
  end.

(** Whether [x] counts as true in a condition. *)
Definition truthy (x : option string) : bool :=
  match x with
  | Some (String _ _) => true
  | _ => false
  end.

(** The cells of one table row: [str(data[key])] for the four keys. *)
Definition row_cells (data : Summary) : list string :=
  [status data; date data; py_str (from data); subject data].

(** What [msg[0][1]] can be: bytes, or an [int] when [msg[0]] is bytes. *)
Inductive Indexed :=
  | IsBytes (b : string)
  | IsInt (n : nat).

Definition key_error {A} (k : string) : M A :=
  raise (mkExc KeyError (repr k)).

Section Methods.
Context (lib : Library) (net : Network).

(** *** Keyring, files, message boxes *)

Definition keyring_set_password (service username password : string)
  : M unit :=
  w <- get_world ;;
  match vault_fault w with
  | Some e => raise e
  | None =>
      on_world (with_vault (<[(service, username) := password]> (vault w)))
  end.

Definition keyring_get_password (service username : string)
  : M (option string) :=
  w <- get_world ;;
  match vault_fault w with
  | Some e => raise e
  | None => ret (vault w !! (service, username))
  end.

(** [path.write_text(data)]: [open(mode='w')], then [f.write(data)] and the
    close that leaves the [with] block.  When the open fails the file is as
    it was; when the write or the close fails the file has been emptied by
    the open and holds what reached it of [data]. *)
Definition path_write_text (path data : string) : M unit :=
  w <- get_world ;;
  match disk_fault w with
  | Some (OpenFails e) => raise e
  | Some (WriteFails written e) =>
      on_world
        (with_files
           (fs_run [FsOpenW path; FsWrite path (substring 0 written data)]
              (files w))) ;;
      raise e
  | None => on_world (with_files (fs_run (write_text path data) (files w)))
  end.

(** [path.read_text()], and [open(path, 'rb')] followed by [f.read()] *)
Definition read_file (path : string) : M string :=
  w <- get_world ;;
  match disk_fault w with
  | Some (OpenFails e) => raise e
  | _ =>
      match files w !! path with
      | Some data => ret data
      | None =>
          raise (mkExc FileNotFoundError
                   ("[Errno 2] No such file or directory: " +:+ repr path))
      end
  end.

Definition show (ev : UiEvent) : M unit :=
  on_self (fun s => with_shown (shown s ++ [ev]) s).

(** *** Configuration *)

Definition update_account_list : M unit :=
  s <- get_self ;;
  match config s with
  | Some ((k, v) :: accounts) =>
      on_self (with_selector (dict_keys ((k, v) :: accounts)) k)
  | _ => on_self (with_selector [] EmptyString)
  end.

Definition load_config : M unit :=
  on_self (with_config None) ;;
  w <- get_world ;;
  match files w !! CONFIG_FILE with
  | Some _ =>
      text <- read_file CONFIG_FILE ;;
      c <- lift (json_loads lib text) ;;
      on_self (with_config c) ;;
      update_account_list
  | None => ret tt
  end.

Definition save_config : M unit :=
  s <- get_self ;;
  path_write_text CONFIG_FILE (json_dumps lib (config s)) ;;
  update_account_list.

(** [self.config['accounts']] *)
Definition config_accounts : M Accounts :=
  s <- get_self ;;
  match config s with
  | Some accounts => ret accounts
  | None => key_error "accounts"
  end.

(** [self.config['accounts'][account]] *)
Definition config_account (account : string) : M Settings :=
  accounts <- config_accounts ;;
  match dict_get account accounts with
  | Some settings => ret settings
  | None => key_error account
  end.

(** *** The IMAP session *)

Definition imap_call (c : ImapCmd) : M (list ImapItem) :=
  fun st =>
    let w := world st in
    ({| self := self st; world := with_imap_log (imap_log w ++ [c]) w |},
     imap net (imap_log w) c).

(** [with imaplib.IMAP4_SSL(host, port) as imap: body].  Leaving the block
    logs out; an [OSError] of the logout is dropped. *)
Definition with_imap {A} (host : string) (port : Z) (body : M A) : M A :=
  imap_call (ImapConnect host port) ;;
  fun st =>
    match body st with
    | (st', r) =>
        match imap_call ImapLogout st' with
        | (st'', Raise e) =>
            if is_OSError e then (st'', r) else (st'', Raise e)
        | (st'', Ok _) => (st'', r)
        end
    end.

(** [data[0]] on the list an [imaplib] call returned *)
Definition getitem0 (data : list ImapItem) : M ImapItem :=
  match data with
  | item :: _ => ret item
  | [] => raise (mkExc IndexError "list index out of range")
  end.

(** [item[1]] *)
Definition getitem1 (item : ImapItem) : M Indexed :=
  match item with
  | ItemTuple _ b => ret (IsBytes b)
  | ItemBytes (String _ (String c _)) => ret (IsInt (nat_of_ascii c))
  | ItemBytes _ => raise (mkExc IndexError "index out of range")
  | ItemNone =>
      raise (mkExc TypeError "'NoneType' object is not subscriptable")
  end.

(** [email.message_from_bytes(x)] *)
Definition parse_message (x : Indexed) : M Message :=
  match x with
  | IsBytes b => ret (message_from_bytes lib b)
  | IsInt _ =>
      raise (mkExc AttributeError "'int' object has no attribute 'decode'")
  end.

(** [item.decode()] *)
Definition item_decode (item : ImapItem) : M string :=
  match item with
  | ItemBytes b => lift (bytes_decode lib b)
  | ItemTuple _ _ =>
      raise (mkExc AttributeError "'tuple' object has no attribute 'decode'")
  | ItemNone =>
      raise (mkExc AttributeError
               "'NoneType' object has no attribute 'decode'")
  end.

(** [item.split()] *)
Definition item_split (item : ImapItem) : M (list string) :=
  match item with
  | ItemBytes b => ret (bytes_split b)
  | ItemTuple _ _ =>
      raise (mkExc AttributeError "'tuple' object has no attribute 'split'")
  | ItemNone =>
      raise (mkExc AttributeError
               "'NoneType' object has no attribute 'split'")
  end.

(** *** refresh_emails *)

(** The body of the [for num in ...] loop: one entry of [emails]. *)
Definition fetch_summary (num : string) : M Summary :=
  msg <- imap_call (ImapFetch num "(RFC822)") ;;
  msg0 <- getitem0 msg ;;
  raw <- getitem1 msg0 ;;
  email_msg <- parse_message raw ;;
  flags <- imap_call (ImapFetch num "(FLAGS)") ;;
  flags0 <- getitem0 flags ;;
  text <- item_decode flags0 ;;
  let is_read := contains "\Seen" text in
  dt <- lift (parsedate_to_datetime lib (get "date" email_msg)) ;;
  ret {| id := num;
         status := if is_read then icon_read else icon_unread;
         date := format_datetime lib dt;
         from := get "from" email_msg;
         subject := py_or (get "subject" email_msg) "(No Subject)" |}.

(** The loop itself: [emails.append(...)] for each [num]. *)
Fixpoint fetch_loop (nums : list string) (emails : list Summary)
  : M (list Summary) :=
  match nums with
  | [] => ret emails
  | num :: nums' =>
      data <- fetch_summary num ;;
      fetch_loop nums' (emails ++ [data])
  end.

(** The body of the [with] block of [refresh_emails]. *)
Definition refresh_session (account : string) (password : option string)
  : M unit :=
  imap_call (ImapLogin account password) ;;
  imap_call (ImapSelect "INBOX") ;;
  messages <- imap_call (ImapSearch "ALL") ;;
  messages0 <- getitem0 messages ;;
  nums <- item_split messages0 ;;
  emails <- fetch_loop (slice_from (-20) nums) [] ;;
  on_self (with_email_table (row_cells <$> reverse emails)).

(** The [try] block of [refresh_emails]. *)
Definition refresh_try (account : string) : M unit :=
  settings <- config_account account ;;
  password <- keyring_get_password "modern-mail" account ;;
  on_self (with_progress true) ;;
  with_imap (imap_server settings) (imap_port settings)
    (refresh_session account password).

Definition refresh_emails : M unit :=
  s <- get_self ;;
  let account := selector_text s in
  if bool_decide (account = EmptyString) then ret tt
  else
    try_finally
      (try_except (refresh_try account)
         (fun e =>
            show (Warning "Error"
                    ("Failed to fetch emails: " +:+ exc_str e))))
      (on_self (with_progress false)).

(** *** Adding an account *)

(** [quick_setup(email_field, smtp_server, smtp_port, imap_server,
    imap_port)]; the text field is not used. *)
Definition quick_setup (smtp_server : string) (smtp_port : Z)
    (imap_server : string) (imap_port : Z) : M unit :=
  s <- get_self ;;
  (match config s with
   | None => on_self (with_config (Some []))
   | Some _ => ret tt
   end) ;;
  on_self (with_current_setup
             (Some {| smtp_server := smtp_server; smtp_port := smtp_port;
                      imap_server := imap_server;
                      imap_port := imap_port |})).

Definition save_account (dialog : nat) (email password : string) : M unit :=
  s <- get_self ;;
  match current_setup s with
  | Some setup =>
      accounts <- config_accounts ;;
      on_self (with_config (Some (dict_set email setup accounts))) ;;
      keyring_set_password "modern-mail" email password ;;
      save_config ;;
      show (Accepted dialog) ;;
      refresh_emails
  | None => ret tt
  end.

(** *** send_email *)

(** [compose_email] starts a message with no attachment; its dialog hands
    the texts typed in to [send_email]. *)
Definition compose_email : M unit := on_self (with_attachments []).

(** [add_attachment(parent)], [files] being what the file dialog returned. *)
Definition add_attachment (files : list string) : M unit :=
  on_self (fun s => with_attachments (attachments s ++ files) s) ;;
  s <- get_self ;;
  match attachments s with
  | [] => ret tt
  | _ =>
      show (Information "Attachments"
              ("Added " +:+ pretty (length files) +:+ " attachment(s)"))
  end.

(** The [for file_path in self.attachments] loop. *)
Fixpoint attach_files (paths : list string) (msg : Message) : M Message :=
  match paths with
  | [] => ret msg
  | file_path :: paths' =>
      data <- read_file file_path ;;
      let part := MIMEBase "application" "octet-stream" in
      let part := set_payload data part in
      part <- lift (encode_base64 lib part) ;;
      let part :=
        add_header "Content-Disposition"
          ("attachment; filename=" +:+
           quoted (path_name file_path))
          part in
      msg <- lift (attach part msg) ;;
      attach_files paths' msg
  end.

(** The message [send_email] builds before it opens the SMTP session. *)
Definition build (account to subject body : string) (paths : list string)
  : M Message :=
  let msg := MIMEMultipart in
  let msg := setitem "From" account msg in
  let msg := setitem "To" to msg in
  let msg := setitem "Subject" subject msg in
  msg <- lift (attach (MIMEText lib body) msg) ;;
  attach_files paths msg.

Definition smtp_call (c : SmtpCmd) : M unit :=
  fun st =>
    let w := world st in
    ({| self := self st; world := with_smtp_log (smtp_log w ++ [c]) w |},
     smtp net (smtp_log w) c).

(** [with smtplib.SMTP(host, port) as server: body].  Leaving the block
    sends QUIT: [SMTP.__exit__] passes over an [SMTPServerDisconnected] that
    QUIT raises and lets any other failure of it out, a reply other than
    221 among them. *)
Definition with_smtp {A} (host : string) (port : Z) (body : M A) : M A :=
  smtp_call (SmtpConnect host port) ;;
  fun st =>
    match body st with
    | (st', r) =>
        match smtp_call SmtpQuit st' with
        | (st'', Raise e) =>
            if is_SMTPServerDisconnected e then (st'', r)
            else (st'', Raise e)
        | (st'', Ok _) => (st'', r)
        end
    end.

Definition send_try (dialog : nat) (to subject body : string) : M unit :=
  s <- get_self ;;
  let account := selector_text s in
  settings <- config_account account ;;
  password <- keyring_get_password "modern-mail" account ;;
  msg <- build account to subject body (attachments s) ;;
  with_smtp (smtp_server settings) (smtp_port settings)
    (smtp_call SmtpStarttls ;;
     smtp_call (SmtpLogin account password) ;;
     smtp_call (SmtpSendMessage msg)) ;;
  show (Information "Success" "Email sent successfully!") ;;
  show (Accepted dialog).

Definition send_email (dialog : nat) (to subject body : string) : M unit :=
  try_except (send_try dialog to subject body)
    (fun e =>
       show (Critical "Error" ("Failed to send email: " +:+ exc_str e))).

(** *** view_email *)

(** [part.get_payload(decode=True).decode()] *)
Definition payload_text (part : Message) : result string :=
  match get_payload_decode lib part with
  | Some b => bytes_decode lib b
  | None =>
      Raise (mkExc AttributeError
               "'NoneType' object has no attribute 'decode'")
  end.

(** The first loop over [email_msg.walk()]: it stops at the first part of
    type text/plain; [body] stays empty when there is none. *)
Fixpoint body_loop (parts : list Message) : result string :=
  match parts with
  | [] => Ok EmptyString
  | part :: parts' =>
      if bool_decide (get_content_type part = "text/plain")
      then payload_text part
      else body_loop parts'
  end.

Definition extract_body (email_msg : Message) : result string :=
  if is_multipart email_msg then body_loop (walk email_msg)
  else payload_text email_msg.

(** The second loop over [email_msg.walk()]: [attachments.append(...)]. *)
Fixpoint attachments_loop (parts : list Message)
    (attachments : list (option string)) : list (option string) :=
  match parts with
  | [] => attachments
  | part :: parts' =>
      if negb (bool_decide (get_content_maintype part = "multipart"))
         && truthy (get "Content-Disposition" part)
      then attachments_loop parts' (attachments ++ [get_filename lib part])
      else attachments_loop parts' attachments
  end.

(** [", ".join(attachments)]: a [None] among the names is a [TypeError]. *)
Fixpoint join_names (i : nat) (l : list (option string))
  : result (list string) :=
  match l with
  | [] => Ok []
  | Some x :: l' =>
      match join_names (S i) l' with
      | Ok xs => Ok (x :: xs)
      | Raise e => Raise e
      end
  | None :: _ =>
      Raise (mkExc TypeError
               ("sequence item " +:+ pretty i
                +:+ ": expected str instance, NoneType found"))
  end.

(** The label under the body, if any. *)
Definition attach_label (email_msg : Message) : result (option string) :=
  if is_multipart email_msg then
    match attachments_loop (walk email_msg) [] with
    | [] => Ok None
    | attachments =>
        match join_names 0 attachments with
        | Ok names => Ok (Some ("📎 Attachments: " +:+ join ", " names))
        | Raise e => Raise e
        end
    end
  else Ok None.

(** The header labels: one for each of the four headers that is there and
    not empty. *)
Definition header_labels (email_msg : Message) : list string :=
  omap (fun kt : string * string =>
          let v := get (fst kt) email_msg in
          if truthy v
          then Some ("<b>" +:+ snd kt +:+ ":</b> " +:+ py_str v)
          else None)
       [("from", "From"); ("to", "To"); ("subject", "Subject");
        ("date", "Date")].

(** The body of the [with] block of [view_email]. *)
Definition view_session (account : string) (password : option string)
    (row : Z) : M unit :=
  imap_call (ImapLogin account password) ;;
  imap_call (ImapSelect "INBOX") ;;
  messages <- imap_call (ImapSearch "ALL") ;;
  messages0 <- getitem0 messages ;;
  nums <- item_split messages0 ;;
  email_id <-
    match index (slice_from (-20) nums) row with
    | Some n => ret n
    | None => raise (mkExc IndexError "list index out of range")
    end ;;
  msg <- imap_call (ImapFetch email_id "(RFC822)") ;;
  msg0 <- getitem0 msg ;;
  raw <- getitem1 msg0 ;;
  email_msg <- parse_message raw ;;
  body <- lift (extract_body email_msg) ;;
  label <- lift (attach_label email_msg) ;;
  show (Viewer (header_labels email_msg) body label).

(** The [try] block of [view_email]. *)
Definition view_try (account : string) (row : Z) : M unit :=
  settings <- config_account account ;;
  password <- keyring_get_password "modern-mail" account ;;
  with_imap (imap_server settings) (imap_port settings)
    (view_session account password row).

(** [view_email(index)], [row] being [index.row()]. *)
Definition view_email (row : Z) : M unit :=
  s <- get_self ;;
  let account := selector_text s in
  if bool_decide (account = EmptyString) then ret tt
  else
    try_except (view_try account row)
      (fun e =>
         show (Warning "Error" ("Failed to open email: " +:+ exc_str e))).

End Methods.

(** *** Building the window *)

(** The names that [class ModernEmailClient] defines. *)
Definition class_names : list string :=
  ["__init__"; "setup_styles"; "setup_ui"; "setup_menu"; "load_config";
   "save_config"; "update_account_list"; "add_account"; "quick_setup";
   "save_account"; "compose_email"; "add_attachment"; "send_email";
   "refresh_emails"; "view_email"; "create_desktop_entry"; "show_about"].

(** [self.name] for a name that was not set on the object: it is found in
    the class or, as [inherited] tells, in [QMainWindow]; else it is an
    [AttributeError]. *)
Definition getattr (inherited : string -> bool) (name : string) : M unit :=
  if bool_decide (name ∈ class_names) || inherited name then ret tt
  else raise (mkExc AttributeError
                ("'ModernEmailClient' object has no attribute "
                 +:+ repr name)).

(** [setup_menu], as the attributes of [self] it evaluates, in the order of
    the source: the bar, and the callback of each action.  (The calls on
    the menus themselves are Qt's and are not modelled.) *)
Definition setup_menu (inherited : string -> bool) : M unit :=
  getattr inherited "menuBar" ;;
  getattr inherited "compose_email" ;;
  getattr inherited "show_settings" ;;
  getattr inherited "close" ;;
  getattr inherited "add_account" ;;
  getattr inherited "remove_account" ;;
  getattr inherited "show_help" ;;
  getattr inherited "show_about".

(** [setup_ui], in the same way: the central widget, the menus, the
    callback of the selector, the five callbacks of the toolbar (the list
    is built before the loop runs), the callback of the table. *)
Definition setup_ui (inherited : string -> bool) : M unit :=
  getattr inherited "setCentralWidget" ;;
  getattr inherited "setup_menu" ;;
  setup_menu inherited ;;
  getattr inherited "switch_account" ;;
  getattr inherited "compose_email" ;;
  getattr inherited "refresh_emails" ;;
  getattr inherited "delete_email" ;;
  getattr inherited "show_settings" ;;
  getattr inherited "show_help" ;;
  getattr inherited "view_email".

End Client.

(** ** Notions used in the statements *)
Module Spec.
Import Email Client.

(** [sub] occurs in [s]. *)
Definition occurs (sub s : string) : Prop :=
  exists pre post, s = pre +:+ sub +:+ post.

(** A write that readers see as atomic: whenever the run of [ops] stops, the
    file at [path] holds what it held before or what it holds at the end. *)
Definition atomic_at (path : string) (ops : list FsOp)
    (fs : gmap string string) : Prop :=
  forall k : nat,
    fs_run (take k ops) fs !! path = fs !! path
    \/ fs_run (take k ops) fs !! path = fs_run ops fs !! path.

(** Write-to-temp-then-rename, in the words of the specification. *)
Definition write_temp_then_rename (tmp path data : string) : list FsOp :=
  [FsOpenW tmp; FsWrite tmp data; FsRename tmp path].

(** A part that counts as an attachment in [view_email]: its main type is
    not multipart, and it has a Content-Disposition header that is not
    empty. *)
Definition is_attachment (part : Message) : Prop :=
  get_content_maintype part <> "multipart"
  /\ exists v, get "Content-Disposition" part = Some v /\ v <> EmptyString.

(** A part that counts as an attachment in the words of the specification:
    its main type is not multipart, and it carries a Content-Disposition
    header. *)
Definition carries_disposition (part : Message) : Prop :=
  get_content_maintype part <> "multipart"
  /\ is_Some (get "Content-Disposition" part).

#[global] Instance is_attachment_dec part : Decision (is_attachment part).
Proof.
  unfold is_attachment.
  destruct (decide (get_content_maintype part = "multipart")) as [E | E].
  - right. intros [H _]. exact (H E).
  - destruct (get "Content-Disposition" part) as [[|c v]|].
    + right. intros (_ & v & Hv & Hne). injection Hv as <-. exact (Hne eq_refl).
    + left. split; [exact E |]. exists (String c v). split; [reflexivity |].
      discriminate.
    + right. intros (_ & v & Hv & _). discriminate.
Defined.

#[global] Instance carries_disposition_dec part
  : Decision (carries_disposition part).
Proof. unfold carries_disposition. apply _. Defined.


(** [c] does not occur in [s]. *)
Definition absent (c : ascii) (s : string) : Prop :=
  Py.index_from c 0 s = None.

(** The file names that survive [get_filename]: no double quote, no
    backslash, no white space at either end, not enclosed in angle
    brackets. *)
Definition safe_name (n : string) : bool :=
  negb (Py.has_char dquote n) && negb (Py.has_char backslash n)
  && bool_decide (Py.strip n = n)
  && negb (Py.startswith "<" n && Py.endswith ">" n).

(** The part [send_email] makes of one attached file. *)
Definition attachment_part (lib : Library) (file_path data : string)
  : Message :=
  Leaf [("Content-Type", "application/octet-stream");
        ("MIME-Version", "1.0");
        ("Content-Transfer-Encoding", "base64");
        ("Content-Disposition",
         "attachment; filename=" +:+
         quoted (Py.path_name file_path))]
       "text/plain" (_bencode lib data).

(** The names [view_email] collects from a message that was built. *)
Definition names_seen (lib : Library) (built : result Message)
  : option (list (option string)) :=
  match built with
  | Ok msg => Some (attachments_loop lib (walk msg) [])
  | Raise _ => None
  end.

(** The text codecs give back the body of [MIMEText(body)]. *)
Definition body_codec_ok (lib : Library) (body : string) : Prop :=
  if Py.isascii body then bytes_decode lib body = Ok body
  else bytes_decode lib
         (transfer_decode lib "base64"
            (body_encode lib (utf8_encode lib body))) = Ok body.

(** A session in which every call succeeds: SEARCH answers [line], every
    FETCH (RFC822) a literal whose Date can be read, every FETCH (FLAGS) a
    line that decodes. *)
Record answers (lib : Library) (net : Network) (line : string) : Prop := {
  answers_connect : forall h host port,
    exists d, imap net h (ImapConnect host port) = Ok d;
  answers_login : forall h user password,
    exists d, imap net h (ImapLogin user password) = Ok d;
  answers_select : forall h mailbox,
    exists d, imap net h (ImapSelect mailbox) = Ok d;
  answers_search : forall h,
    exists rest, imap net h (ImapSearch "ALL") = Ok (ItemBytes line :: rest);
  answers_rfc822 : forall h num,
    exists a b rest dt,
      imap net h (ImapFetch num "(RFC822)") = Ok (ItemTuple a b :: rest)
      /\ parsedate_to_datetime lib (get "date" (message_from_bytes lib b))
         = Ok dt;
  answers_flags : forall h num,
    exists fl rest text,
      imap net h (ImapFetch num "(FLAGS)") = Ok (ItemBytes fl :: rest)
      /\ bytes_decode lib fl = Ok text;
  answers_logout : forall h, exists d, imap net h ImapLogout = Ok d
}.

(** The number a message id spells in decimal. *)
Definition seqnum (num : string) : N :=
  fold_left (fun acc c => (10 * acc + (N_of_ascii c - 48))%N)
            (list_ascii_of_string num) 0%N.

(** What one turn of the loop of [refresh_emails] has to do with the
    server's answers: after the calls [h], the message and the flags that
    were fetched for [data]. *)
Definition fetched (lib : Library) (net : Network) (h : list ImapCmd)
    (data : Summary) (email_msg : Message) (flags : string) : Prop :=
  exists a b rest fl rest',
    imap net h (ImapFetch (id data) "(RFC822)") = Ok (ItemTuple a b :: rest)
    /\ email_msg = message_from_bytes lib b
    /\ imap net (h ++ [ImapFetch (id data) "(RFC822)"])
            (ImapFetch (id data) "(FLAGS)") = Ok (ItemBytes fl :: rest')
    /\ bytes_decode lib fl = Ok flags.

(** [data] is the entry the loop makes of what the server answered for its
    id: the status from the flags alone, the subject from the message. *)
Definition summarises (lib : Library) (net : Network) (data : Summary)
  : Prop :=
  exists h email_msg flags,
    fetched lib net h data email_msg flags
    /\ status data
       = (if Py.contains "\Seen" flags then icon_read else icon_unread)
    /\ subject data = py_or (get "subject" email_msg) "(No Subject)"
    /\ from data = get "from" email_msg.

(** The three methods whose body is one [try] block with an
    [except Exception] handler, and for each the box in which a failure of
    the block ends. *)
Inductive Guarded :=
  | GSend (dialog : nat) (to subject body : string)
  | GRefresh
  | GView (row : Z).

Definition guarded_try (lib : Library) (net : Network) (account : string)
    (g : Guarded) : M unit :=
  match g with
  | GSend dialog to subject body => send_try lib net dialog to subject body
  | GRefresh => refresh_try lib net account
  | GView row => view_try lib net account row
  end.

Definition guarded_method (lib : Library) (net : Network) (g : Guarded)
  : M unit :=
  match g with
  | GSend dialog to subject body => send_email lib net dialog to subject body
  | GRefresh => refresh_emails lib net
  | GView row => view_email lib net row
  end.

Definition failure_box (g : Guarded) (text : string) : UiEvent :=
  match g with
  | GSend _ _ _ _ => Critical "Error" ("Failed to send email: " +:+ text)
  | GRefresh => Warning "Error" ("Failed to fetch emails: " +:+ text)
  | GView _ => Warning "Error" ("Failed to open email: " +:+ text)
  end.

(** The state a guarded method ends in when its [try] block raised [e] in
    state [st]. *)
Definition after_failure (g : Guarded) (e : Exception) (st : State)
  : State :=
  let s := with_shown (shown (self st) ++ [failure_box g (exc_str e)])
                      (self st) in
  {| self := match g with GRefresh => with_progress false s | _ => s end;
     world := world st |}.

(** *** Instances for the examples *)

Definition demo_lib : Library := {|
  transfer_decode := fun _ s => s;
  bytes_decode := fun s => Ok s;
  utf8_encode := fun s => s;
  body_encode := fun s => s;
  _bencode := fun s => s;
  message_from_bytes := fun raw =>
    Leaf [("Date", "Mon, 1 Jan 2024 10:00:00 +0000"); ("Subject", raw)]
         "text/plain" raw;
  parsedate_to_datetime := fun d =>
    match d with
    | Some _ => Ok {| dt_timestamp := 1704103200; dt_utcoffset := Some 0 |}
    | None =>
        Raise (mkExc ValueError
                 ("Invalid date value or format " +:+ quoted "None"))
    end;
  format_datetime := fun _ => "Mon, 01 Jan 2024 10:00:00 +0000";
  rfc2231_params := fun _ => [];
  json_dumps := fun c => Py.join "," (dict_keys (default [] c));
  json_loads := fun _ => Ok None
|}.

(** A mailbox of three messages, the second one seen. *)
Definition demo_imap (h : list ImapCmd) (c : ImapCmd)
  : result (list ImapItem) :=
  match c with
  | ImapSearch _ => Ok [ItemBytes "1 2 3"]
  | ImapFetch num "(RFC822)" => Ok [ItemTuple "RFC822" ("message " +:+ num)]
  | ImapFetch num _ =>
      Ok [ItemBytes (if bool_decide (num = "2") then "2 (FLAGS (\Seen))"
                     else num +:+ " (FLAGS ())")]
  | _ => Ok []
  end.

Definition demo_net : Network :=
  {| imap := demo_imap; smtp := fun _ _ => Ok tt |}.

(** The same server with twenty-five messages. *)
Definition busy_net : Network :=
  {| imap := fun h c =>
       match c with
       | ImapSearch _ =>
           Ok [ItemBytes ("1 2 3 4 5 6 7 8 9 10 11 12 13 14 15 16 17 18 "
                          +:+ "19 20 21 22 23 24 25")]
       | _ => demo_imap h c
       end;
     smtp := fun _ _ => Ok tt |}.

(** A server that turns the password down, and a connection that drops at
    the same call, both with the same message text. *)
Definition refusing_net : Network :=
  {| imap := fun h c =>
       match c with
       | ImapLogin _ _ => Raise (mkExc IMAP4Error "LOGIN failed")
       | _ => Ok []
       end;
     smtp := fun _ _ => Ok tt |}.

Definition dropping_net : Network :=
  {| imap := fun h c =>
       match c with
       | ImapLogin _ _ => Raise (mkExc ConnectionError "LOGIN failed")
       | _ => Ok []
       end;
     smtp := fun _ _ => Ok tt |}.

(** The same library with a settings file that does not parse. *)
Definition no_json : Exception :=
  mkExc JSONDecodeError "Expecting value: line 1 column 1 (char 0)".

Definition strict_lib : Library := {|
  transfer_decode := transfer_decode demo_lib;
  bytes_decode := bytes_decode demo_lib;
  utf8_encode := utf8_encode demo_lib;
  body_encode := body_encode demo_lib;
  _bencode := _bencode demo_lib;
  message_from_bytes := message_from_bytes demo_lib;
  parsedate_to_datetime := parsedate_to_datetime demo_lib;
  format_datetime := format_datetime demo_lib;
  rfc2231_params := rfc2231_params demo_lib;
  json_dumps := json_dumps demo_lib;
  json_loads := fun _ => Raise no_json
|}.

Definition gmail : Settings :=
  {| smtp_server := "smtp.gmail.com"; smtp_port := 587;
     imap_server := "imap.gmail.com"; imap_port := 993 |}.

Definition demo_self : Self :=
  {| config := Some [("alice@example.com", gmail)];
     current_setup := None;
     selector_items := ["alice@example.com"];
     selector_text := "alice@example.com";
     attachments := [];
     email_table := [];
     progress_visible := false;
     shown := [] |}.

Definition demo_world : World :=
  {| files := {[ CONFIG_FILE := "alice@example.com" ]};
     disk_fault := None;
     vault := {[ ("modern-mail", "alice@example.com") := "hunter2" ]};
     vault_fault := None;
     imap_log := [];
     smtp_log := [] |}.

Definition demo_state : State := {| self := demo_self; world := demo_world |}.

(** The same client with two files at hand, one of them with a name that
    starts with a space. *)
Definition desk_state : State :=
  {| self := demo_self;
     world :=
       {| files := {[ "/home/alice/report.pdf" := "%PDF";
                      "/home/alice/ notes.txt" := "to do" ]};
          disk_fault := None;
          vault := vault demo_world; vault_fault := None;
          imap_log := []; smtp_log := [] |} |}.

(** The same client after a provider button was pressed, with a keyring
    whose backend fails. *)
Definition locked : Exception := mkExc KeyringError "keyring is locked".

Definition setup_state : State :=
  {| self := with_current_setup (Some gmail) demo_self;
     world :=
       {| files := files demo_world; disk_fault := None;
          vault := vault demo_world; vault_fault := Some locked;
          imap_log := []; smtp_log := [] |} |}.

(** The same client composing a message with two attachments, the second
    of which is not on the disk. *)
Definition lost_file_state : State :=
  {| self := with_attachments
               ["/home/alice/report.pdf"; "/home/alice/gone.txt"] demo_self;
     world := world desk_state |}.

(** The same client after a provider button was pressed, with a keyring
    and a disk that work. *)
Definition ready_state : State :=
  {| self := with_current_setup (Some gmail) demo_self;
     world := demo_world |}.

(** The same with a disk that is full: files open, and nothing of what is
    written reaches them. *)
Definition disk_full : Exception :=
  mkExc OSError "[Errno 28] No space left on device".

Definition full_disk_state : State :=
  {| self := self ready_state;
     world :=
       {| files := files demo_world;
          disk_fault := Some (WriteFails 0 disk_full);
          vault := vault demo_world; vault_fault := None;
          imap_log := []; smtp_log := [] |} |}.

(** A client with no configuration yet. *)
Definition fresh_state : State :=
  {| self := with_selector [] EmptyString (with_config None demo_self);
     world := demo_world |}.

(** A client whose selector shows an address that [config] does not
    have. *)
Definition stray_state : State :=
  {| self := with_selector ["carol@example.org"] "carol@example.org"
               demo_self;
     world := demo_world |}.


(** A message whose text part is marked inline and has no file name, and
    a library whose parser finds that message in every literal. *)
Definition inline_message : Message :=
  Multi [("Content-Type", "multipart/mixed; boundary=x");
         ("Subject", "Minutes")]
        "text/plain"
        [Leaf [("Content-Type", "text/plain");
               ("Content-Disposition", "inline")]
              "text/plain" "Hello"].

Definition inline_lib : Library := {|
  transfer_decode := transfer_decode demo_lib;
  bytes_decode := bytes_decode demo_lib;
  utf8_encode := utf8_encode demo_lib;
  body_encode := body_encode demo_lib;
  _bencode := _bencode demo_lib;
  message_from_bytes := fun _ => inline_message;
  parsedate_to_datetime := parsedate_to_datetime demo_lib;
  format_datetime := format_datetime demo_lib;
  rfc2231_params := rfc2231_params demo_lib;
  json_dumps := json_dumps demo_lib;
  json_loads := json_loads demo_lib
|}.

#[global] Instance ImapCmd_eq_dec : EqDecision ImapCmd.
Proof. solve_decision. Defined.

(** The demo mailbox on a server that marks what is read: the flags of a
    message have [\Seen] once its text was fetched. *)
Definition marking_net : Network :=
  {| imap := fun h c =>
       match c with
       | ImapFetch num "(RFC822)" => demo_imap h c
       | ImapFetch num _ =>
           Ok [ItemBytes
                 (if bool_decide (ImapFetch num "(RFC822)" ∈ h)
                  then "(FLAGS (\Seen))" else "(FLAGS ())")]
       | _ => demo_imap h c
       end;
     smtp := fun _ _ => Ok tt |}.

(** A server that accepts the message and then answers QUIT with an
    error. *)
Definition no_goodbye : Exception :=
  mkExc SMTPException "(421, b'Service not available')".

Definition hasty_net : Network :=
  {| imap := demo_imap;
     smtp := fun _ c =>
       match c with
       | SmtpQuit => Raise no_goodbye
       | _ => Ok tt
       end |}.

(** A server that accepts the message and has closed the connection when
    QUIT arrives. *)
Definition line_dropped : Exception :=
  mkExc SMTPServerDisconnected "Connection unexpectedly closed".

Definition vanishing_net : Network :=
  {| imap := demo_imap;
     smtp := fun _ c =>
       match c with
       | SmtpQuit => Raise line_dropped
       | _ => Ok tt
       end |}.

(** What the examples take [QMainWindow] to provide: the methods of Qt
    that the source calls on [self]. *)
Definition qt_names (name : string) : bool :=
  bool_decide (name ∈ ["setWindowTitle"; "setMinimumSize"; "setStyleSheet";
                       "setCentralWidget"; "menuBar"; "close"; "show"]).

(** The callbacks that [setup_ui] and [setup_menu] name and the class does
    not define. *)
Definition undefined_callbacks : list string :=
  ["show_settings"; "remove_account"; "show_help"; "switch_account";
   "delete_email"].

(** *** Notions for the properties of the methods taken together *)

(** [c] leaves [view] of the state as it found it, whatever it returns. *)
Definition keeps {A V} (view : State -> V) (c : M A) : Prop :=
  forall st, view (fst (c st)) = view st.

(** When the run raised, [view] of the state is what it was [before]. *)
Definition kept_if_raised {A V} (view : State -> V) (before : V)
    (out : State * result A) : Prop :=
  match out with
  | (st, Raise _) => view st = before
  | (_, Ok _) => True
  end.

(** [c] adds at most [n] calls to the IMAP log, each of them in [P]. *)
Definition imap_within {A} (P : ImapCmd -> Prop) (n : nat) (c : M A)
  : Prop :=
  forall st, exists cmds,
    imap_log (world (fst (c st))) = imap_log (world st) ++ cmds
    /\ (length cmds <= n)%nat /\ Forall P cmds.

(** The calls made inside a session: all but connecting and logging out. *)
Definition in_session (c : ImapCmd) : Prop :=
  match c with
  | ImapConnect _ _ | ImapLogout => False
  | _ => True
  end.

(** The calls of one run against the server of [settings], made after the
    calls [h]: a connection that failed, or one session of at most [n]
    calls, logged out of at its end. *)
Definition one_session (net : Network) (h : list ImapCmd) (n : nat)
    (settings : Settings) (cmds : list ImapCmd) : Prop :=
  let connect := ImapConnect (imap_server settings) (imap_port settings) in
  (cmds = [connect] /\ exists e, imap net h connect = Raise e)
  \/ (exists d inner,
        imap net h connect = Ok d
        /\ cmds = connect :: inner ++ [ImapLogout]
        /\ (length inner <= n)%nat /\ Forall in_session inner).

(** The attributes that hold the accounts and the message being composed. *)
Definition profile (s : Self)
  : Config * option Settings * list string * string * list string :=
  (config s, current_setup s, selector_items s, selector_text s,
   attachments s).

(** The files and the keyring, with their faults. *)
Definition storage (w : World)
  : gmap string string * option DiskFault
    * gmap (string * string) string * option Exception :=
  (files w, disk_fault w, vault w, vault_fault w).

(** The boxes shown so far. *)
Definition screen (st : State) : list UiEvent := shown (self st).

(** The viewer, whatever it holds. *)
Definition is_viewer (ev : UiEvent) : Prop :=
  exists labels body label, ev = Viewer labels body label.

(** The warning of [view_email], and the one of [refresh_emails]. *)
Definition open_failed (ev : UiEvent) : Prop :=
  exists e, ev = Warning "Error" ("Failed to open email: " +:+ exc_str e).

Definition fetch_failed (ev : UiEvent) : Prop :=
  exists e, ev = Warning "Error" ("Failed to fetch emails: " +:+ exc_str e).

(** What the session of [view_email] has shown when it is over: the viewer
    when it returns, nothing when it raises. *)
Definition viewer_shown (before : list UiEvent) (out : State * result unit)
  : Prop :=
  match out with
  | (st, Ok _) =>
      exists labels body label,
        shown (self st) = before ++ [Viewer labels body label]
  | (st, Raise _) => shown (self st) = before
  end.

(** What the [try] block of [send_email] has shown when it is over: the
    success box and the accepted dialog when it returns, nothing when it
    raises. *)
Definition sent_shown (dialog : nat) (before : list UiEvent)
    (out : State * result unit) : Prop :=
  match out with
  | (st, Ok _) =>
      shown (self st)
      = before ++ [Information "Success" "Email sent successfully!";
                   Accepted dialog]
  | (st, Raise _) => shown (self st) = before
  end.

(** The table [refresh_emails] fills: at most twenty rows of four cells. *)
Definition table_filled (table : list (list string)) : Prop :=
  (length table <= 20)%nat /\ Forall (fun row => length row = 4%nat) table.

(** The two calls [refresh_emails] makes for one id. *)
Definition fetches (num : string) : list ImapCmd :=
  [ImapFetch num "(RFC822)"; ImapFetch num "(FLAGS)"].

(** A server on which reading a message marks it: once FETCH (RFC822) was
    sent for an id, the flags answered for that id have [\Seen].  (RFC 3501
    has it so for a mailbox selected for writing, as [imap.select("INBOX")]
    selects it.) *)
Definition marks_seen (lib : Library) (net : Network) : Prop :=
  forall h num fl rest text,
    ImapFetch num "(RFC822)" ∈ h ->
    imap net h (ImapFetch num "(FLAGS)") = Ok (ItemBytes fl :: rest) ->
    bytes_decode lib fl = Ok text ->
    occurs "\Seen" text.

(** *** What the table has to do with the server's answers *)

(** What the server holds for an id when it is asked after the calls [h]:
    the message that FETCH (RFC822) answers, parsed, and the text of the
    line that FETCH (FLAGS), sent next, answers. *)
Definition message_at (lib : Library) (net : Network) (h : list ImapCmd)
    (num : string) : option Message :=
  match imap net h (ImapFetch num "(RFC822)") with
  | Ok (ItemTuple _ b :: _) => Some (message_from_bytes lib b)
  | _ => None
  end.

Definition flags_at (lib : Library) (net : Network) (h : list ImapCmd)
    (num : string) : option string :=
  match imap net (h ++ [ImapFetch num "(RFC822)"])
          (ImapFetch num "(FLAGS)") with
  | Ok (ItemBytes fl :: _) =>
      match bytes_decode lib fl with
      | Ok text => Some text
      | Raise _ => None
      end
  | _ => None
  end.

(** The calls with which a session opens, SEARCH being the last of them. *)
Definition session_opening (settings : Settings) (account : string)
    (password : option string) : list ImapCmd :=
  [ImapConnect (imap_server settings) (imap_port settings);
   ImapLogin account password; ImapSelect "INBOX"; ImapSearch "ALL"].

(** The ids that SEARCH lists in a session opened after the calls [h]. *)
Definition listed (net : Network) (h : list ImapCmd) (settings : Settings)
    (account : string) (password : option string) : option (list string) :=
  match imap net
          (h ++ [ImapConnect (imap_server settings) (imap_port settings);
                 ImapLogin account password; ImapSelect "INBOX"])
          (ImapSearch "ALL") with
  | Ok (ItemBytes line :: _) => Some (Py.bytes_split line)
  | _ => None
  end.

(** The calls made when the loop of [refresh_emails] comes to the [k]-th of
    [ids], [h0] being the calls up to SEARCH. *)
Definition before_turn (h0 : list ImapCmd) (ids : list string) (k : nat)
  : list ImapCmd :=
  h0 ++ concat (fetches <$> take k ids).

(** [row] is the table row of a message [m] fetched with the flags
    [flags]. *)
Definition row_for (lib : Library) (m : Message) (flags : string)
    (row : list string) : Prop :=
  exists dt,
    parsedate_to_datetime lib (get "date" m) = Ok dt
    /\ row = [if Py.contains "\Seen" flags then icon_read else icon_unread;
              format_datetime lib dt;
              py_str (get "from" m);
              py_or (get "subject" m) "(No Subject)"].

(** [table] shows the messages of [ids] as the server gave them in the
    session whose calls up to SEARCH are [h0]: one row for each id, the row
    of the last id first. *)
Definition rows_of (lib : Library) (net : Network) (h0 : list ImapCmd)
    (ids : list string) (table : list (list string)) : Prop :=
  length table = length ids
  /\ forall k num,
       ids !! k = Some num ->
       exists m flags row,
         message_at lib net (before_turn h0 ids k) num = Some m
         /\ flags_at lib net (before_turn h0 ids k) num = Some flags
         /\ table !! (length ids - 1 - k)%nat = Some row
         /\ row_for lib m flags row.

(** A server that answers every call of a session, SEARCH with [line]:
    what [answers] asks for, except that the Date of a message fetched need
    not be one that can be read. *)
Record serves (lib : Library) (net : Network) (line : string) : Prop := {
  serves_connect : forall h host port,
    exists d, imap net h (ImapConnect host port) = Ok d;
  serves_login : forall h user password,
    exists d, imap net h (ImapLogin user password) = Ok d;
  serves_select : forall h mailbox,
    exists d, imap net h (ImapSelect mailbox) = Ok d;
  serves_search : forall h,
    exists rest, imap net h (ImapSearch "ALL") = Ok (ItemBytes line :: rest);
  serves_rfc822 : forall h num,
    exists a b rest,
      imap net h (ImapFetch num "(RFC822)") = Ok (ItemTuple a b :: rest);
  serves_flags : forall h num,
    exists fl rest text,
      imap net h (ImapFetch num "(FLAGS)") = Ok (ItemBytes fl :: rest)
      /\ bytes_decode lib fl = Ok text;
  serves_logout : forall h, exists d, imap net h ImapLogout = Ok d
}.

(** The Date of the message fetched in turn [k] can be read. *)
Definition dated (lib : Library) (net : Network) (h0 : list ImapCmd)
    (ids : list string) (k : nat) : Prop :=
  exists num m dt,
    ids !! k = Some num
    /\ message_at lib net (before_turn h0 ids k) num = Some m
    /\ parsedate_to_datetime lib (get "date" m) = Ok dt.

(** It cannot, and reading it raises [e]. *)
Definition undated (lib : Library) (net : Network) (h0 : list ImapCmd)
    (ids : list string) (k : nat) (e : Exception) : Prop :=
  exists num m,
    ids !! k = Some num
    /\ message_at lib net (before_turn h0 ids k) num = Some m
    /\ parsedate_to_datetime lib (get "date" m) = Raise e.

(** A mailbox whose only message has a Subject and no Date: the bytes of
    the message, what the parser makes of them, and the server that holds
    it. *)
Definition crlf : string := String "013" (String "010" EmptyString).

Definition dateless_raw : string :=
  "Subject: hi" +:+ crlf +:+ crlf +:+ "Hello".

Definition dateless_lib : Library := {|
  transfer_decode := transfer_decode demo_lib;
  bytes_decode := bytes_decode demo_lib;
  utf8_encode := utf8_encode demo_lib;
  body_encode := body_encode demo_lib;
  _bencode := _bencode demo_lib;
  message_from_bytes := fun raw =>
    if bool_decide (raw = dateless_raw)
    then Leaf [("Subject", "hi")] "text/plain" "Hello"
    else message_from_bytes demo_lib raw;
  parsedate_to_datetime := parsedate_to_datetime demo_lib;
  format_datetime := format_datetime demo_lib;
  rfc2231_params := rfc2231_params demo_lib;
  json_dumps := json_dumps demo_lib;
  json_loads := json_loads demo_lib
|}.

Definition dateless_net : Network :=
  {| imap := fun _ c =>
       match c with
       | ImapSearch _ => Ok [ItemBytes "1"]
       | ImapFetch num "(RFC822)" =>
           Ok [ItemTuple (num +:+ " (RFC822 {20}") dateless_raw;
               ItemBytes ")"]
       | ImapFetch num _ => Ok [ItemBytes (num +:+ " (FLAGS (\Seen))")]
       | _ => Ok []
       end;
     smtp := fun _ _ => Ok tt |}.

(** The key that [self.config['accounts'][account]] does not find, if any,
    [account] being the text of the selector. *)
Definition missing_key (st : State) : option string :=
  match config (self st) with
  | None => Some "accounts"
  | Some accounts =>
      match dict_get (selector_text (self st)) accounts with
      | None => Some (selector_text (self st))
      | Some _ => None
      end
  end.

(** The first key of a dict: the account the selector shows once
    [update_account_list] has filled it. *)
Definition first_key {V} (d : list (string * V)) : string :=
  match d with
  | (k, _) :: _ => k
  | [] => EmptyString
  end.

(** The state in which [save_account] calls [refresh_emails], its last
    step, when the keyring and the disk work: the entry made, the password
    stored, the settings written, the selector filled again, the dialog
    closed. *)
Definition saved (lib : Library) (dialog : nat) (email password : string)
    (setup : Settings) (accounts : Accounts) (st : State) : State :=
  let accounts' := dict_set email setup accounts in
  {| self :=
       with_shown (shown (self st) ++ [Accepted dialog])
         (with_selector (dict_keys accounts') (first_key accounts')
            (with_config (Some accounts') (self st)));
     world :=
       with_files
         (<[CONFIG_FILE := json_dumps lib (Some accounts')]>
            (files (world st)))
         (with_vault (<[("modern-mail", email) := password]>
                        (vault (world st)))
            (world st)) |}.

(** The message [send_email] hands to the server: the three headers after
    those of [MIMEMultipart], the text part, and one part for each attached
    file in order, [fs] being the files on the disk. *)
Definition outgoing (lib : Library) (fs : gmap string string)
    (account to subject body : string) (paths : list string) : Message :=
  Multi [("Content-Type", "multipart/mixed"); ("MIME-Version", "1.0");
         ("From", account); ("To", to); ("Subject", subject)]
        "text/plain"
        (MIMEText lib body
         :: ((fun p => attachment_part lib p (default EmptyString (fs !! p)))
             <$> paths)).

(** The [TypeError] of [", ".join(names)] when the name at position [i] is
    [None]. *)
Definition join_error (i : nat) : Exception :=
  mkExc TypeError
    ("sequence item " +:+ pretty i
     +:+ ": expected str instance, NoneType found").

(** The box of [add_attachment] for the files of one pick. *)
Definition added_box (files : list string) : UiEvent :=
  Information "Attachments"
    ("Added " +:+ pretty (length files) +:+ " attachment(s)").

(** The attachment button used once for each element of [picks], the files
    chosen each time: none when the file dialog was cancelled. *)
Fixpoint add_attachments (picks : list (list string)) : M unit :=
  match picks with
  | [] => ret tt
  | files :: picks' =>
      bind (add_attachment files) (fun _ => add_attachments picks')
  end.

(** The picks from the first one that is not empty on. *)
Fixpoint from_first_files (picks : list (list string))
  : list (list string) :=
  match picks with
  | [] :: picks' => from_first_files picks'
  | _ => picks
  end.

End Spec.

(** ** Properties *)

Import Email Client Spec.
Local Open Scope py_scope.

(** *** Stepping through the monad *)

Lemma bind_Ok {A B} (c : M A) (k : A -> M B) st st' b :
  bind c k st = (st', Ok b) ->
  exists st1 a, c st = (st1, Ok a) /\ k a st1 = (st', Ok b).
Proof.
  unfold bind. destruct (c st) as [st1 [a|e]] eqn:E; intros H.
  - eauto.
  - discriminate.
Qed.

Lemma bind_step {A B} (c : M A) (k : A -> M B) st st1 a :
  c st = (st1, Ok a) -> bind c k st = k a st1.
Proof. unfold bind. intros ->. reflexivity. Qed.

(** *** The built-ins on examples *)

Example bytes_split_examples :
  Py.bytes_split "1 2  3 " = ["1"; "2"; "3"]
  /\ Py.bytes_split EmptyString = []
  /\ Py.slice_from (-20) ["1"; "2"; "3"] = ["1"; "2"; "3"]
  /\ Py.slice_from (-2) ["1"; "2"; "3"] = ["2"; "3"]
  /\ Py.index ["1"; "2"; "3"] (-1) = Some "3"
  /\ Py.index ["1"; "2"; "3"] 3 = None.
Proof. repeat split; reflexivity. Qed.

Example path_name_examples :
  Py.path_name "/home/alice/report.pdf" = "report.pdf"
  /\ Py.path_name "/home/alice/" = "alice"
  /\ Py.path_name "/" = EmptyString
  /\ Py.repr "alice@example.com" = "'alice@example.com'".
Proof. repeat split; vm_compute; reflexivity. Qed.

Example get_filename_examples :
  let part v := Leaf [("Content-Disposition", v)] "text/plain" EmptyString in
  get_filename demo_lib (part ("attachment; filename=" +:+ quoted "a.pdf"))
  = Some "a.pdf"
  /\ get_filename demo_lib (part "attachment; filename=a.pdf") = Some "a.pdf"
  /\ get_filename demo_lib (part "inline") = None
  /\ get_filename demo_lib (part ("attachment; filename=" +:+ quoted " a.pdf"))
     = Some "a.pdf"
  /\ get_filename demo_lib
       (part ("attachment; filename=" +:+
              quoted ("a" +:+ String dquote ";b")))
     = Some "a"
  /\ get_filename demo_lib
       (Leaf [("Content-Type", "image/png; name=" +:+ quoted "x.png")]
             "text/plain" EmptyString)
     = Some "x.png".
Proof. repeat split; vm_compute; reflexivity. Qed.

(** *** C10: saving without pending settings *)

(** C10.  When [save_account] runs while the attribute [current_setup] does
    not exist (no provider button was pressed), it does nothing: the state
    of the window, the settings file and the keyring are what they were,
    and no exception is raised. *)
Theorem save_account_without_setup lib net dialog email password st :
  current_setup (self st) = None ->
  save_account lib net dialog email password st = (st, Ok tt).
Proof.
  intros H. unfold save_account, bind, get_self. rewrite H. reflexivity.
Qed.

Lemma save_account_without_setup_witness :
  current_setup (self demo_state) = None
  /\ save_account demo_lib demo_net 1 "bob@example.com" "secret" demo_state
     = (demo_state, Ok tt).
Proof.
  split; [reflexivity |].
  apply (save_account_without_setup demo_lib demo_net 1
           "bob@example.com" "secret" demo_state).
  reflexivity.
Defined.

(** *** C1: a failing keyring while an account is added *)

(** C1, as amended.  When the keyring fails in [save_account], its exception
    goes to the caller and nothing is undone: the settings file, the keyring
    and the account selector are as before, and [config['accounts']] keeps
    the entry made for the address. *)
Theorem save_account_vault_failure lib net dialog email password st
    setup accounts e :
  current_setup (self st) = Some setup ->
  config (self st) = Some accounts ->
  vault_fault (world st) = Some e ->
  save_account lib net dialog email password st
  = ({| self := with_config (Some (dict_set email setup accounts)) (self st);
        world := world st |}, Raise e).
Proof.
  intros Hs Hc Hv.
  unfold save_account, config_accounts, keyring_set_password.
  unfold bind, get_self, get_world, on_self, ret, raise. cbn.
  rewrite Hs, Hc. cbn. rewrite Hv. reflexivity.
Qed.

Lemma save_account_vault_failure_witness :
  save_account demo_lib demo_net 1 "bob@example.com" "secret" setup_state
  = ({| self := with_config
                  (Some (dict_set "bob@example.com" gmail
                           [("alice@example.com", gmail)]))
                  (self setup_state);
        world := world setup_state |}, Raise locked).
Proof.
  apply (save_account_vault_failure demo_lib demo_net 1 "bob@example.com"
           "secret" setup_state gmail [("alice@example.com", gmail)] locked);
    reflexivity.
Defined.

(** C1 fails as stated: after the keyring has failed, the entry is still in
    [config['accounts']], and the next [save_config] writes it to the file
    and lists it in the account selector. *)
Lemma save_account_no_rollback :
  let st := fst (save_account demo_lib demo_net 1 "bob@example.com" "secret"
                   setup_state) in
  let st' := fst (save_config demo_lib st) in
  config (self st) <> config (self setup_state)
  /\ "bob@example.com" ∈ dict_keys (default [] (config (self st)))
  /\ "bob@example.com" ∈ selector_items (self st')
  /\ files (world st') !! CONFIG_FILE
     = Some "alice@example.com,bob@example.com".
Proof.
  cbv zeta. split; [| split; [| split]].
  - vm_compute. discriminate.
  - vm_compute. apply list_elem_of_In. right. left. reflexivity.
  - vm_compute. apply list_elem_of_In. right. left. reflexivity.
  - vm_compute. reflexivity.
Qed.

(** *** C7: how the settings file is written *)

Lemma fs_run_take_all (ops : list FsOp) fs k :
  (length ops <= k)%nat -> fs_run (take k ops) fs = fs_run ops fs.
Proof. intros H. rewrite take_ge; [reflexivity | exact H]. Qed.

(** The discipline the specification names would be atomic in the sense of
    [atomic_at]. *)
Lemma write_temp_then_rename_atomic tmp path data fs :
  tmp <> path -> atomic_at path (write_temp_then_rename tmp path data) fs.
Proof.
  intros Hne k. unfold write_temp_then_rename.
  destruct k as [|[|[|k]]].
  - left. reflexivity.
  - left. cbn. rewrite lookup_insert_ne; [reflexivity | exact Hne].
  - left. cbn. rewrite !lookup_insert_ne; [reflexivity | exact Hne ..].
  - right. rewrite fs_run_take_all; [reflexivity | cbn; lia].
Qed.




(** *** C6: what becomes of a failure *)

(** C6, as amended.  A failure inside the [try] block of [send_email],
    [refresh_emails] or [view_email] is caught by the one
    [except Exception] handler: the method returns normally, and all that is
    left of the exception is a message box with a fixed prefix and
    [str(e)]; its class is not kept.  [load_config] and [save_account] have
    no handler: the exception of the failing call reaches the caller as it
    was raised. *)
Theorem failures_surface lib net st :
  (forall g st' e,
     match g with
     | GSend _ _ _ _ => True
     | _ => selector_text (self st) <> EmptyString
     end ->
     guarded_try lib net (selector_text (self st)) g st = (st', Raise e) ->
     guarded_method lib net g st = (after_failure g e st', Ok tt))
  /\ (forall text e,
        files (world st) !! CONFIG_FILE = Some text ->
        disk_fault (world st) = None ->
        json_loads lib text = Raise e ->
        snd (load_config lib st) = Raise e)
  /\ (forall dialog email password setup accounts e,
        current_setup (self st) = Some setup ->
        config (self st) = Some accounts ->
        vault_fault (world st) = Some e ->
        snd (save_account lib net dialog email password st) = Raise e).
Proof.
  split; [| split].
  - intros g st' e Hsel Htry.
    destruct g as [dialog to subj body | | row];
      unfold guarded_try in Htry; unfold guarded_method, after_failure.
    + unfold send_email, try_except. rewrite Htry. reflexivity.
    + unfold refresh_emails, bind, get_self.
      rewrite bool_decide_eq_false_2 by exact Hsel.
      unfold try_finally, try_except. rewrite Htry. reflexivity.
    + unfold view_email, bind, get_self.
      rewrite bool_decide_eq_false_2 by exact Hsel.
      unfold try_except. rewrite Htry. reflexivity.
  - intros text e Hf Hd Hj.
    unfold load_config, read_file.
    unfold bind, on_self, get_world, lift, ret. cbn.
    rewrite Hf. cbn. rewrite Hd, Hf. cbn. rewrite Hj. reflexivity.
  - intros dialog email password setup accounts e Hs Hc Hv.
    unfold save_account, config_accounts, keyring_set_password.
    unfold bind, get_self, get_world, on_self, ret, raise. cbn.
    rewrite Hs, Hc. cbn. rewrite Hv. reflexivity.
Qed.

Lemma failures_surface_witness :
  refresh_emails demo_lib refusing_net demo_state
  = (after_failure GRefresh (mkExc IMAP4Error "LOGIN failed")
       (fst (refresh_try demo_lib refusing_net "alice@example.com"
               demo_state)), Ok tt)
  /\ snd (load_config strict_lib demo_state) = Raise no_json
  /\ snd (save_account demo_lib demo_net 1 "bob@example.com" "secret"
            setup_state) = Raise locked.
Proof.
  split; [| split].
  - apply (proj1 (failures_surface demo_lib refusing_net demo_state) GRefresh).
    + vm_compute. discriminate.
    + vm_compute. reflexivity.
  - apply (proj1 (proj2 (failures_surface strict_lib demo_net demo_state))
             "alice@example.com"); reflexivity.
  - apply (proj2 (proj2 (failures_surface demo_lib demo_net setup_state))
             1%nat "bob@example.com" "secret" gmail
             [("alice@example.com", gmail)]); reflexivity.
Defined.

(** C6 fails as stated: a refused password and a dropped connection, two
    kinds of failure, leave [refresh_emails] in the same state with the same
    result, so the kind cannot be told afterwards. *)
Lemma refresh_forgets_the_kind :
  snd (refresh_try demo_lib refusing_net "alice@example.com" demo_state)
  = Raise (mkExc IMAP4Error "LOGIN failed")
  /\ snd (refresh_try demo_lib dropping_net "alice@example.com" demo_state)
     = Raise (mkExc ConnectionError "LOGIN failed")
  /\ refresh_emails demo_lib refusing_net demo_state
     = refresh_emails demo_lib dropping_net demo_state
  /\ snd (refresh_emails demo_lib refusing_net demo_state) = Ok tt
  /\ shown (self (fst (refresh_emails demo_lib refusing_net demo_state)))
     = [Warning "Error" "Failed to fetch emails: LOGIN failed"].
Proof. repeat split; vm_compute; reflexivity. Qed.

(** *** The calls of a refresh, one by one *)

Section Steps.
Context (lib : Library) (net : Network).

Lemma imap_call_Ok c st st1 data :
  imap_call net c st = (st1, Ok data) ->
  imap net (imap_log (world st)) c = Ok data
  /\ self st1 = self st
  /\ world st1 = with_imap_log (imap_log (world st) ++ [c]) (world st).
Proof.
  unfold imap_call. intros H. injection H as <- H. auto.
Qed.

Lemma getitem0_Ok data st st1 item :
  getitem0 data st = (st1, Ok item) ->
  st1 = st /\ exists rest, data = item :: rest.
Proof.
  destruct data as [|x rest]; cbn; intros H; [discriminate |].
  injection H as <- <-. eauto.
Qed.

Lemma getitem1_Ok item st st1 x :
  getitem1 item st = (st1, Ok x) ->
  st1 = st
  /\ match x with
     | IsBytes b => exists a, item = ItemTuple a b
     | IsInt _ => exists b, item = ItemBytes b
     end.
Proof.
  destruct item as [|b|a b]; cbn.
  - discriminate.
  - destruct b as [|c0 [|c1 b]]; cbn; try discriminate.
    intros H. injection H as <- <-. eauto.
  - intros H. injection H as <- <-. eauto.
Qed.

Lemma parse_message_Ok x st st1 email_msg :
  parse_message lib x st = (st1, Ok email_msg) ->
  st1 = st /\ exists b, x = IsBytes b /\ email_msg = message_from_bytes lib b.
Proof.
  destruct x as [b|n]; cbn; [| discriminate].
  intros H. injection H as <- <-. eauto.
Qed.

Lemma item_decode_Ok item st st1 text :
  item_decode lib item st = (st1, Ok text) ->
  st1 = st /\ exists b, item = ItemBytes b /\ bytes_decode lib b = Ok text.
Proof.
  destruct item as [|b|a b]; cbn; try discriminate.
  unfold lift. intros H. injection H as <- H. eauto.
Qed.

Lemma item_split_Ok item st st1 nums :
  item_split item st = (st1, Ok nums) ->
  st1 = st /\ exists b, item = ItemBytes b /\ nums = Py.bytes_split b.
Proof.
  destruct item as [|b|a b]; cbn; try discriminate.
  intros H. injection H as <- <-. eauto.
Qed.

Lemma lift_Ok {A} (r : result A) st st1 a :
  lift r st = (st1, Ok a) -> st1 = st /\ r = Ok a.
Proof. unfold lift. intros H. injection H as <- <-. auto. Qed.

(** One turn of the loop, when it does not raise. *)
Lemma fetch_summary_Ok num st st1 data :
  fetch_summary lib net num st = (st1, Ok data) ->
  id data = num /\ self st1 = self st /\ summarises lib net data.
Proof.
  unfold fetch_summary. intros H.
  apply bind_Ok in H as (s1 & msg & H1 & H).
  apply bind_Ok in H as (s2 & msg0 & H2 & H).
  apply bind_Ok in H as (s3 & raw & H3 & H).
  apply bind_Ok in H as (s4 & email_msg & H4 & H).
  apply bind_Ok in H as (s5 & flags & H5 & H).
  apply bind_Ok in H as (s6 & flags0 & H6 & H).
  apply bind_Ok in H as (s7 & text & H7 & H).
  apply bind_Ok in H as (s8 & dt & H8 & H).
  apply imap_call_Ok in H1 as (R1 & S1 & W1).
  apply getitem0_Ok in H2 as (-> & rest & ->).
  apply getitem1_Ok in H3 as (-> & H3).
  apply parse_message_Ok in H4 as (-> & b & -> & ->).
  destruct H3 as [a ->].
  apply imap_call_Ok in H5 as (R5 & S5 & W5).
  apply getitem0_Ok in H6 as (-> & rest' & ->).
  apply item_decode_Ok in H7 as (-> & fl & -> & Hfl).
  apply lift_Ok in H8 as (-> & Hdt).
  unfold ret in H. injection H as <- <-. cbn.
  split; [reflexivity |]. split; [congruence |].
  exists (imap_log (world st)), (message_from_bytes lib b), text.
  split; [| auto].
  exists a, b, rest, fl, rest'. cbn.
  split; [exact R1 |]. split; [reflexivity |].
  split; [| exact Hfl].
  rewrite W1 in R5. exact R5.
Qed.

(** The loop, when it does not raise: one entry for each id, in order. *)
Lemma fetch_loop_Ok nums emails0 st st1 emails :
  fetch_loop lib net nums emails0 st = (st1, Ok emails) ->
  self st1 = self st
  /\ exists new, emails = emails0 ++ new
     /\ id <$> new = nums
     /\ Forall (summarises lib net) new.
Proof.
  revert emails0 st. induction nums as [|num nums IH]; intros emails0 st H.
  - cbn in H. injection H as <- <-. split; [reflexivity |].
    exists []. rewrite app_nil_r. auto.
  - cbn in H. apply bind_Ok in H as (s1 & data & H1 & H).
    apply fetch_summary_Ok in H1 as (Hid & Hs & Hsum).
    apply IH in H as (Hs' & new & -> & Hids & Hall).
    split; [congruence |].
    exists (data :: new). rewrite <- app_assoc. cbn.
    split; [reflexivity |]. split; [congruence |].
    constructor; assumption.
Qed.

End Steps.

Section Refresh.
Context (lib : Library) (net : Network).

Lemma with_imap_Ok {A} host port (body : M A) st st1 a :
  with_imap net host port body st = (st1, Ok a) ->
  exists s1 s2, self s1 = self st /\ body s1 = (s2, Ok a)
                /\ self st1 = self s2.
Proof.
  unfold with_imap. intros H.
  apply bind_Ok in H as (s1 & d & H1 & H).
  apply imap_call_Ok in H1 as (_ & S1 & _).
  destruct (body s1) as [s2 r] eqn:Hb.
  exists s1, s2. split; [exact S1 |].
  unfold imap_call in H.
  destruct (imap net (imap_log (world s2)) ImapLogout) as [d'|e'].
  - injection H as <- ->. auto.
  - destruct (is_OSError e'); [| discriminate].
    injection H as <- ->. auto.
Qed.

(** A session that does not raise: the table is made of the entries for
    the last twenty ids of the SEARCH answer, newest first. *)
Lemma refresh_session_Ok account password st st1 :
  refresh_session lib net account password st = (st1, Ok tt) ->
  exists h line rest emails,
    imap net h (ImapSearch "ALL") = Ok (ItemBytes line :: rest)
    /\ self st1 = with_email_table (row_cells <$> reverse emails) (self st)
    /\ id <$> emails = Py.slice_from (-20) (Py.bytes_split line)
    /\ Forall (summarises lib net) emails.
Proof.
  unfold refresh_session. intros H.
  apply bind_Ok in H as (s1 & d1 & H1 & H).
  apply bind_Ok in H as (s2 & d2 & H2 & H).
  apply bind_Ok in H as (s3 & messages & H3 & H).
  apply bind_Ok in H as (s4 & messages0 & H4 & H).
  apply bind_Ok in H as (s5 & nums & H5 & H).
  apply bind_Ok in H as (s6 & emails & H6 & H).
  apply imap_call_Ok in H1 as (_ & S1 & _).
  apply imap_call_Ok in H2 as (_ & S2 & _).
  apply imap_call_Ok in H3 as (R3 & S3 & _).
  apply getitem0_Ok in H4 as (-> & rest & ->).
  apply item_split_Ok in H5 as (-> & line & -> & ->).
  apply fetch_loop_Ok in H6 as (S6 & new & -> & Hids & Hall).
  unfold on_self in H. injection H as <-. cbn.
  exists (imap_log (world s2)), line, rest, new.
  split; [exact R3 |]. split; [congruence |]. auto.
Qed.

Lemma refresh_try_Ok account st st1 :
  refresh_try lib net account st = (st1, Ok tt) ->
  exists h line rest emails,
    imap net h (ImapSearch "ALL") = Ok (ItemBytes line :: rest)
    /\ self st1 = with_email_table (row_cells <$> reverse emails)
                    (with_progress true (self st))
    /\ id <$> emails = Py.slice_from (-20) (Py.bytes_split line)
    /\ Forall (summarises lib net) emails.
Proof.
  unfold refresh_try. intros H.
  apply bind_Ok in H as (s1 & settings & H1 & H).
  apply bind_Ok in H as (s2 & password & H2 & H).
  apply bind_Ok in H as (s3 & [] & H3 & H).
  assert (self s1 = self st /\ self s2 = self s1) as [E1 E2].
  { unfold config_account, config_accounts, bind, get_self, key_error,
      raise, ret in H1.
    destruct (config (self st)) as [accounts|]; [| discriminate].
    destruct (dict_get account accounts); [| discriminate].
    injection H1 as <- _.
    unfold keyring_get_password, bind, get_world, raise, ret in H2.
    destruct (vault_fault (world st)); [discriminate |].
    injection H2 as <- _. auto. }
  unfold on_self in H3. injection H3 as <-.
  apply with_imap_Ok in H as (s4 & s5 & S4 & Hb & S5).
  apply refresh_session_Ok in Hb as (h & line & rest & emails & R & S & Hr).
  exists h, line, rest, emails. split; [exact R |]. split; [| exact Hr].
  rewrite S5, S, S4. cbn. rewrite E2, E1. reflexivity.
Qed.

(** A refresh whose [try] block does not raise ends with that block's
    table and nothing shown. *)
Lemma refresh_emails_Ok st st1 :
  selector_text (self st) <> EmptyString ->
  refresh_try lib net (selector_text (self st)) st = (st1, Ok tt) ->
  refresh_emails lib net st
  = ({| self := with_progress false (self st1); world := world st1 |}, Ok tt).
Proof.
  intros Hsel H. unfold refresh_emails, bind, get_self.
  rewrite bool_decide_eq_false_2 by exact Hsel.
  unfold try_finally, try_except. rewrite H. reflexivity.
Qed.

(** Against a server that answers every call, nothing raises. *)
Lemma imap_call_eq c st data :
  imap net (imap_log (world st)) c = Ok data ->
  imap_call net c st
  = ({| self := self st;
        world := with_imap_log (imap_log (world st) ++ [c]) (world st) |},
     Ok data).
Proof. unfold imap_call. intros ->. reflexivity. Qed.

Lemma lift_eq {A} (r : result A) (a : A) st :
  r = Ok a -> lift r st = (st, Ok a).
Proof. intros ->. reflexivity. Qed.

Lemma fetch_summary_total line num st :
  answers lib net line ->
  exists st1 data, fetch_summary lib net num st = (st1, Ok data).
Proof.
  intros Ha. unfold fetch_summary.
  destruct (answers_rfc822 _ _ _ Ha (imap_log (world st)) num)
    as (a & b & rest & dt & R1 & Hdt).
  destruct (answers_flags _ _ _ Ha
              (imap_log (world st) ++ [ImapFetch num "(RFC822)"]) num)
    as (fl & rest' & text & R2 & Hfl).
  erewrite bind_step by (apply imap_call_eq; exact R1).
  erewrite bind_step by reflexivity.
  erewrite bind_step by reflexivity.
  erewrite bind_step by reflexivity.
  erewrite bind_step by (apply imap_call_eq; exact R2).
  erewrite bind_step by reflexivity.
  erewrite bind_step by (apply lift_eq; exact Hfl).
  erewrite bind_step by (apply lift_eq; exact Hdt).
  unfold ret. eauto.
Qed.

Lemma fetch_loop_total line nums emails0 st :
  answers lib net line ->
  exists st1 emails, fetch_loop lib net nums emails0 st = (st1, Ok emails).
Proof.
  intros Ha. revert emails0 st.
  induction nums as [|num nums IH]; intros emails0 st.
  - cbn. unfold ret. eauto.
  - cbn. destruct (fetch_summary_total line num st Ha) as (s1 & data & H1).
    rewrite (bind_step _ _ _ _ _ H1). apply IH.
Qed.

Lemma config_account_eq account accounts settings st :
  config (self st) = Some accounts ->
  dict_get account accounts = Some settings ->
  config_account account st = (st, Ok settings).
Proof.
  intros Hc Hg. unfold config_account, config_accounts, bind, get_self.
  rewrite Hc. unfold ret. rewrite Hg. reflexivity.
Qed.

Lemma keyring_get_password_eq service username st :
  vault_fault (world st) = None ->
  keyring_get_password service username st
  = (st, Ok (vault (world st) !! (service, username))).
Proof.
  intros Hv. unfold keyring_get_password, bind, get_world.
  rewrite Hv. reflexivity.
Qed.

Lemma with_imap_eq {A} host port (body : M A) st s2 a d d' :
  imap net (imap_log (world st)) (ImapConnect host port) = Ok d ->
  body {| self := self st;
          world := with_imap_log
                     (imap_log (world st) ++ [ImapConnect host port])
                     (world st) |} = (s2, Ok a) ->
  imap net (imap_log (world s2)) ImapLogout = Ok d' ->
  with_imap net host port body st
  = ({| self := self s2;
        world := with_imap_log (imap_log (world s2) ++ [ImapLogout])
                               (world s2) |}, Ok a).
Proof.
  intros Hc Hb Hl. unfold with_imap.
  erewrite bind_step by (apply imap_call_eq; exact Hc).
  rewrite Hb. unfold imap_call. rewrite Hl. reflexivity.
Qed.

Lemma refresh_session_total line account password st :
  answers lib net line ->
  exists st1, refresh_session lib net account password st = (st1, Ok tt).
Proof.
  intros Ha. unfold refresh_session.
  destruct (answers_login _ _ _ Ha (imap_log (world st)) account password)
    as (d1 & R1).
  erewrite bind_step by (apply imap_call_eq; exact R1).
  match goal with |- context [bind _ _ ?s] => set (s1 := s) end.
  destruct (answers_select _ _ _ Ha (imap_log (world s1)) "INBOX")
    as (d2 & R2).
  erewrite bind_step by (apply imap_call_eq; exact R2).
  match goal with |- context [bind _ _ ?s] => set (s2 := s) end.
  destruct (answers_search _ _ _ Ha (imap_log (world s2))) as (rest & R3).
  erewrite bind_step by (apply imap_call_eq; exact R3).
  erewrite bind_step by reflexivity.
  erewrite bind_step by reflexivity.
  match goal with |- context [bind _ _ ?s] => set (s3 := s) end.
  destruct (fetch_loop_total line
              (Py.slice_from (-20) (Py.bytes_split line)) [] s3 Ha)
    as (s4 & emails & H4).
  erewrite bind_step by exact H4.
  unfold on_self. eauto.
Qed.

Lemma refresh_try_total line account accounts settings st :
  config (self st) = Some accounts ->
  dict_get account accounts = Some settings ->
  vault_fault (world st) = None ->
  answers lib net line ->
  exists st1, refresh_try lib net account st = (st1, Ok tt).
Proof.
  intros Hc Hg Hv Ha. unfold refresh_try.
  erewrite bind_step by (eapply config_account_eq; eassumption).
  erewrite bind_step by (apply keyring_get_password_eq; exact Hv).
  erewrite bind_step by reflexivity.
  match goal with |- context [with_imap _ _ _ _ ?s] => set (s1 := s) end.
  destruct (answers_connect _ _ _ Ha (imap_log (world s1))
              (imap_server settings) (imap_port settings)) as (d0 & R0).
  match type of R0 with
  | context [ImapConnect ?host ?port] =>
      destruct (refresh_session_total line account
                  (vault (world st) !! ("modern-mail", account))
                  {| self := self s1;
                     world := with_imap_log
                                (imap_log (world s1)
                                 ++ [ImapConnect host port])
                                (world s1) |} Ha) as (s2 & H2)
  end.
  destruct (answers_logout _ _ _ Ha (imap_log (world s2))) as (d3 & R4).
  erewrite with_imap_eq by eassumption. eauto.
Qed.

End Refresh.

(** *** Slices, substrings, sorted ids *)

Lemma slice_from_last {A} (l : list A) :
  Py.slice_from (-20) l = drop (length l - 20) l.
Proof.
  unfold Py.slice_from. cbn [Z.ltb Z.compare]. f_equal. lia.
Qed.

Lemma length_last_20 {A} (l : list A) :
  length (drop (length l - 20) l) = (length l `min` 20)%nat.
Proof. rewrite length_drop. lia. Qed.

Lemma startswith_occurs p s :
  Py.startswith p s = true <-> exists post, s = p +:+ post.
Proof.
  revert s. induction p as [|a p IH]; intros s; cbn.
  - split; eauto.
  - destruct s as [|b s].
    + split; [discriminate | intros [post H]; discriminate].
    + rewrite andb_true_iff, bool_decide_eq_true, IH. split.
      * intros [-> [post ->]]. eauto.
      * intros [post H]. injection H as -> ->. eauto.
Qed.

Lemma contains_occurs sub s :
  Py.contains sub s = true <-> occurs sub s.
Proof.
  unfold occurs. induction s as [|c s IH].
  - cbn. rewrite orb_false_r, startswith_occurs. split.
    + intros [post H]. exists EmptyString, post. exact H.
    + intros ([|c pre] & post & H); [eauto | discriminate].
  - cbn [Py.contains]. rewrite orb_true_iff, startswith_occurs, IH. split.
    + intros [[post H] | (pre & post & H)].
      * exists EmptyString, post. exact H.
      * exists (String c pre), post. cbn. rewrite H. reflexivity.
    + intros ([|c' pre] & post & H).
      * left. eauto.
      * right. injection H as -> H. eauto.
Qed.


Lemma sorted_last_is_greatest (l : list string) x :
  StronglySorted (fun a b => (seqnum a < seqnum b)%N) l ->
  head (reverse l) = Some x ->
  Forall (fun y => (seqnum y <= seqnum x)%N) l.
Proof.
  intros Hs. revert x. induction Hs as [|a l Hs IH Ha]; intros x Hx.
  - constructor.
  - rewrite reverse_cons in Hx. destruct (reverse l) as [|r rs] eqn:Hr.
    + cbn in Hx. injection Hx as <-.
      apply (f_equal reverse) in Hr. rewrite reverse_involutive in Hr.
      subst l. constructor; [lia | constructor].
    + cbn in Hx. injection Hx as ->.
      specialize (IH x eq_refl). constructor; [| exact IH].
      assert (x ∈ l) as Hin.
      { apply elem_of_reverse. rewrite Hr. left. }
      rewrite Forall_forall in Ha. specialize (Ha x Hin). lia.
Qed.

Lemma sorted_drop {A} (R : A -> A -> Prop) (l : list A) k :
  StronglySorted R l -> StronglySorted R (drop k l).
Proof.
  revert k. induction l as [|a l IH]; intros [|k] Hs; cbn; auto.
  inversion Hs; subst. auto.
Qed.

Lemma last_drop_lt {A} (l : list A) k :
  (k < length l)%nat -> last (drop k l) = last l.
Proof.
  intros Hk. rewrite <- (take_drop k l) at 2. rewrite last_app.
  destruct (last (drop k l)) eqn:E; [reflexivity |].
  apply last_None in E. apply (f_equal length) in E.
  rewrite length_drop in E. cbn in E. lia.
Qed.

(** *** The rows of the table and the answers of the server *)

Section Rows.
Context (lib : Library) (net : Network).

(** One turn of the loop, when it does not raise: the two calls it made,
    and the row of its entry from what they answered. *)
Lemma fetch_summary_row num st st1 data :
  fetch_summary lib net num st = (st1, Ok data) ->
  self st1 = self st
  /\ imap_log (world st1) = imap_log (world st) ++ fetches num
  /\ exists m flags,
       message_at lib net (imap_log (world st)) num = Some m
       /\ flags_at lib net (imap_log (world st)) num = Some flags
       /\ row_for lib m flags (row_cells data).
Proof.
  unfold fetch_summary. intros H.
  apply bind_Ok in H as (s1 & msg & H1 & H).
  apply bind_Ok in H as (s2 & msg0 & H2 & H).
  apply bind_Ok in H as (s3 & raw & H3 & H).
  apply bind_Ok in H as (s4 & email_msg & H4 & H).
  apply bind_Ok in H as (s5 & flags & H5 & H).
  apply bind_Ok in H as (s6 & flags0 & H6 & H).
  apply bind_Ok in H as (s7 & text & H7 & H).
  apply bind_Ok in H as (s8 & dt & H8 & H).
  apply imap_call_Ok in H1 as (R1 & S1 & W1).
  apply getitem0_Ok in H2 as (-> & rest & ->).
  apply getitem1_Ok in H3 as (-> & H3).
  apply parse_message_Ok in H4 as (-> & b & -> & ->).
  destruct H3 as [a ->].
  apply imap_call_Ok in H5 as (R5 & S5 & W5).
  apply getitem0_Ok in H6 as (-> & rest' & ->).
  apply item_decode_Ok in H7 as (-> & fl & -> & Hfl).
  apply lift_Ok in H8 as (-> & Hdt).
  unfold ret in H. injection H as <- <-.
  rewrite W1 in R5, W5. cbn in R5.
  split; [congruence |].
  split; [rewrite W5; cbn; rewrite <- app_assoc; reflexivity |].
  exists (message_from_bytes lib b), text.
  unfold message_at, flags_at. rewrite R1, R5, Hfl.
  split; [reflexivity |]. split; [reflexivity |].
  exists dt. split; [exact Hdt | reflexivity].
Qed.

Lemma before_turn_0 h0 ids : before_turn h0 ids 0 = h0.
Proof. unfold before_turn. cbn. apply app_nil_r. Qed.

Lemma before_turn_S h0 num ids k :
  before_turn h0 (num :: ids) (S k) = before_turn (h0 ++ fetches num) ids k.
Proof. unfold before_turn. cbn. rewrite <- !app_assoc. reflexivity. Qed.

(** The loop, when it does not raise: an entry for each id, made of what
    the server answered in the turn of that id. *)
Lemma fetch_loop_rows nums emails0 st st1 emails :
  fetch_loop lib net nums emails0 st = (st1, Ok emails) ->
  self st1 = self st
  /\ exists new,
       emails = emails0 ++ new
       /\ length new = length nums
       /\ forall k num,
            nums !! k = Some num ->
            exists data m flags,
              new !! k = Some data
              /\ message_at lib net
                   (before_turn (imap_log (world st)) nums k) num = Some m
              /\ flags_at lib net
                   (before_turn (imap_log (world st)) nums k) num
                 = Some flags
              /\ row_for lib m flags (row_cells data).
Proof.
  revert emails0 st. induction nums as [|num nums IH]; intros emails0 st H.
  - cbn in H. injection H as <- <-. split; [reflexivity |].
    exists []. rewrite app_nil_r. split; [reflexivity |].
    split; [reflexivity |]. intros k num Hk. discriminate.
  - cbn in H. apply bind_Ok in H as (s1 & data & H1 & H).
    apply fetch_summary_row in H1 as (Hs & Hlog & m & flags & Hm & Hf & Hr).
    apply IH in H as (Hs' & new & -> & Hlen & Hall).
    split; [congruence |].
    exists (data :: new). rewrite <- app_assoc.
    split; [reflexivity |]. split; [cbn; congruence |].
    intros [|k] num' Hk.
    + cbn in Hk. injection Hk as <-. rewrite before_turn_0.
      exists data, m, flags. auto.
    + cbn in Hk. rewrite before_turn_S, <- Hlog. apply Hall. exact Hk.
Qed.

End Rows.

Section Tables.
Context (lib : Library) (net : Network).

Lemma with_imap_inv {A} host port (body : M A) st st1 a :
  with_imap net host port body st = (st1, Ok a) ->
  exists s2,
    body {| self := self st;
            world := with_imap_log
                       (imap_log (world st) ++ [ImapConnect host port])
                       (world st) |} = (s2, Ok a)
    /\ self st1 = self s2.
Proof.
  unfold with_imap. intros H.
  apply bind_Ok in H as (s1 & d & H1 & H).
  unfold imap_call in H1. injection H1 as <- _.
  match type of H with
  | context [body ?s] => destruct (body s) as [s2 r] eqn:Hb
  end.
  exists s2. unfold imap_call in H.
  destruct (imap net (imap_log (world s2)) ImapLogout) as [d'|e'].
  - injection H as <- ->. auto.
  - destruct (is_OSError e'); [| discriminate].
    injection H as <- ->. auto.
Qed.

(** A session that does not raise: the table shows the last twenty of the
    ids that SEARCH answered, each as the server gave it in its turn, the
    last one first. *)
Lemma refresh_session_rows account password st st1 :
  refresh_session lib net account password st = (st1, Ok tt) ->
  let h := imap_log (world st)
           ++ [ImapLogin account password; ImapSelect "INBOX"] in
  exists line rest table,
    imap net h (ImapSearch "ALL") = Ok (ItemBytes line :: rest)
    /\ self st1 = with_email_table table (self st)
    /\ rows_of lib net (h ++ [ImapSearch "ALL"])
         (Py.slice_from (-20) (Py.bytes_split line)) table.
Proof.
  unfold refresh_session. intros H. cbv zeta.
  apply bind_Ok in H as (s1 & d1 & H1 & H).
  apply bind_Ok in H as (s2 & d2 & H2 & H).
  apply bind_Ok in H as (s3 & messages & H3 & H).
  apply bind_Ok in H as (s4 & messages0 & H4 & H).
  apply bind_Ok in H as (s5 & nums & H5 & H).
  apply bind_Ok in H as (s6 & emails & H6 & H).
  apply imap_call_Ok in H1 as (_ & S1 & W1).
  apply imap_call_Ok in H2 as (_ & S2 & W2).
  apply imap_call_Ok in H3 as (R3 & S3 & W3).
  apply getitem0_Ok in H4 as (-> & rest & ->).
  apply item_split_Ok in H5 as (-> & line & -> & ->).
  apply fetch_loop_rows in H6 as (S6 & new & -> & Hlen & Hall).
  unfold on_self in H. injection H as <-. cbn [app] in *.
  assert (imap_log (world s2)
          = imap_log (world st)
            ++ [ImapLogin account password; ImapSelect "INBOX"]) as L2.
  { rewrite W2, W1. cbn. rewrite <- app_assoc. reflexivity. }
  assert (imap_log (world s3)
          = (imap_log (world st)
             ++ [ImapLogin account password; ImapSelect "INBOX"])
            ++ [ImapSearch "ALL"]) as L3.
  { rewrite W3. cbn. rewrite L2. reflexivity. }
  rewrite L2 in R3. rewrite L3 in Hall.
  exists line, rest, (row_cells <$> reverse new).
  split; [exact R3 |].
  split; [cbn; congruence |].
  split; [rewrite length_fmap, length_reverse; exact Hlen |].
  intros k num Hk.
  destruct (Hall k num Hk) as (data & m & flags & Hd & Hm & Hf & Hr).
  exists m, flags, (row_cells data).
  split; [exact Hm |]. split; [exact Hf |]. split; [| exact Hr].
  apply lookup_lt_Some in Hk.
  rewrite list_lookup_fmap, reverse_lookup by lia.
  replace (length new - S (length (Py.slice_from (-20) (Py.bytes_split line))
                           - 1 - k))%nat with k by lia.
  rewrite Hd. reflexivity.
Qed.

(** The same for the [try] block, from the calls made before it. *)
Lemma refresh_try_rows account accounts settings st st1 :
  config (self st) = Some accounts ->
  dict_get account accounts = Some settings ->
  refresh_try lib net account st = (st1, Ok tt) ->
  let password := vault (world st) !! ("modern-mail", account) in
  exists all,
    listed net (imap_log (world st)) settings account password = Some all
    /\ rows_of lib net
         (imap_log (world st) ++ session_opening settings account password)
         (Py.slice_from (-20) all) (email_table (self st1)).
Proof.
  intros Hc Hg H. cbv zeta. unfold refresh_try in H.
  erewrite bind_step in H by (eapply config_account_eq; eassumption).
  destruct (vault_fault (world st)) as [e|] eqn:Hv.
  { unfold keyring_get_password, bind, get_world, raise in H.
    rewrite Hv in H. discriminate. }
  erewrite bind_step in H by (apply keyring_get_password_eq; exact Hv).
  erewrite bind_step in H by reflexivity.
  apply with_imap_inv in H as (s2 & Hb & Hs).
  apply refresh_session_rows in Hb as (line & rest & table & R & S & Hrows).
  cbn [world self imap_log with_imap_log] in R, S, Hrows.
  rewrite <- !app_assoc in R. rewrite <- !app_assoc in Hrows.
  cbn [app] in R, Hrows.
  exists (Py.bytes_split line).
  split; [unfold listed; rewrite R; reflexivity |].
  rewrite Hs, S. exact Hrows.
Qed.

End Tables.

(** *** A server that answers, and Dates that can or cannot be read *)

Lemma dated_S lib net h0 num ids k :
  dated lib net h0 (num :: ids) (S k)
  <-> dated lib net (h0 ++ fetches num) ids k.
Proof. unfold dated. rewrite before_turn_S. reflexivity. Qed.

Lemma undated_S lib net h0 num ids k e :
  undated lib net h0 (num :: ids) (S k) e
  <-> undated lib net (h0 ++ fetches num) ids k e.
Proof. unfold undated. rewrite before_turn_S. reflexivity. Qed.

Section Serving.
Context (lib : Library) (net : Network) (line : string).
Hypothesis Hs : serves lib net line.

(** One turn of the loop: it makes its two calls, and raises exactly when
    the Date cannot be read. *)
Lemma fetch_summary_served num st m :
  message_at lib net (imap_log (world st)) num = Some m ->
  exists flags,
    flags_at lib net (imap_log (world st)) num = Some flags
    /\ fetch_summary lib net num st
       = ({| self := self st;
             world := with_imap_log (imap_log (world st) ++ fetches num)
                        (world st) |},
          match parsedate_to_datetime lib (get "date" m) with
          | Ok dt =>
              Ok {| id := num;
                    status := if Py.contains "\Seen" flags
                              then icon_read else icon_unread;
                    date := format_datetime lib dt;
                    from := get "from" m;
                    subject := py_or (get "subject" m) "(No Subject)" |}
          | Raise e => Raise e
          end).
Proof.
  intros Hm.
  destruct (serves_rfc822 _ _ _ Hs (imap_log (world st)) num)
    as (a & b & rest & R1).
  destruct (serves_flags _ _ _ Hs
              (imap_log (world st) ++ [ImapFetch num "(RFC822)"]) num)
    as (fl & rest' & text & R2 & Hfl).
  unfold message_at in Hm. rewrite R1 in Hm. injection Hm as <-.
  exists text. unfold flags_at. rewrite R2, Hfl.
  split; [reflexivity |]. unfold fetch_summary.
  erewrite bind_step by (apply imap_call_eq; exact R1).
  erewrite bind_step by reflexivity.
  erewrite bind_step by reflexivity.
  erewrite bind_step by reflexivity.
  erewrite bind_step by (apply imap_call_eq; exact R2).
  erewrite bind_step by reflexivity.
  erewrite bind_step by (apply lift_eq; exact Hfl).
  unfold bind, lift, ret. cbn. rewrite <- app_assoc.
  destruct (parsedate_to_datetime lib _); reflexivity.
Qed.

Lemma fetch_loop_dated nums emails0 st :
  (forall k, (k < length nums)%nat ->
             dated lib net (imap_log (world st)) nums k) ->
  exists st1 emails, fetch_loop lib net nums emails0 st = (st1, Ok emails).
Proof.
  revert emails0 st. induction nums as [|num nums IH]; intros emails0 st Hd.
  - cbn. unfold ret. eauto.
  - destruct (Hd 0%nat ltac:(cbn; lia)) as (num' & m & dt & Hk & Hm & Hdt).
    cbn in Hk. injection Hk as <-. rewrite before_turn_0 in Hm.
    destruct (fetch_summary_served num st m Hm) as (flags & _ & H1).
    rewrite Hdt in H1. cbn [fetch_loop].
    rewrite (bind_step _ _ _ _ _ H1). apply IH.
    intros k Hk. cbn [world imap_log with_imap_log].
    apply dated_S, Hd. cbn. lia.
Qed.

Lemma fetch_loop_undated nums emails0 st k e :
  undated lib net (imap_log (world st)) nums k e ->
  (forall j, (j < k)%nat -> dated lib net (imap_log (world st)) nums j) ->
  exists st1,
    fetch_loop lib net nums emails0 st = (st1, Raise e)
    /\ self st1 = self st.
Proof.
  revert nums emails0 st. induction k as [|k IH]; intros nums emails0 st Hu Hd.
  - destruct Hu as (num & m & Hk & Hm & He).
    destruct nums as [|num' nums]; [discriminate |].
    cbn in Hk. injection Hk as ->. rewrite before_turn_0 in Hm.
    destruct (fetch_summary_served num st m Hm) as (flags & _ & H1).
    rewrite He in H1. cbn [fetch_loop]. unfold bind. rewrite H1. eauto.
  - destruct nums as [|num nums].
    { destruct Hu as (num & m & Hk & _). discriminate. }
    destruct (Hd 0%nat ltac:(lia)) as (num' & m & dt & Hk & Hm & Hdt).
    cbn in Hk. injection Hk as <-. rewrite before_turn_0 in Hm.
    destruct (fetch_summary_served num st m Hm) as (flags & _ & H1).
    rewrite Hdt in H1. cbn [fetch_loop].
    rewrite (bind_step _ _ _ _ _ H1).
    match goal with
    | |- context [fetch_loop _ _ _ ?l ?s] =>
        destruct (IH nums l s) as (st1 & H2 & S2)
    end.
    + apply undated_S. exact Hu.
    + intros j Hj. apply dated_S, Hd. lia.
    + exists st1. split; [exact H2 | exact S2].
Qed.

(** The [try] block against such a server comes to the loop, and ends as
    the loop does. *)
Lemma refresh_try_served account accounts settings st :
  config (self st) = Some accounts ->
  dict_get account accounts = Some settings ->
  vault_fault (world st) = None ->
  let password := vault (world st) !! ("modern-mail", account) in
  let ids := Py.slice_from (-20) (Py.bytes_split line) in
  let s3 :=
    {| self := with_progress true (self st);
       world := with_imap_log
                  (imap_log (world st)
                   ++ session_opening settings account password)
                  (world st) |} in
  exists st1,
    refresh_try lib net account st
    = (st1, match snd (fetch_loop lib net ids [] s3) with
            | Ok _ => Ok tt
            | Raise e => Raise e
            end)
    /\ self st1
       = match snd (fetch_loop lib net ids [] s3) with
         | Ok emails =>
             with_email_table (row_cells <$> reverse emails)
               (self (fst (fetch_loop lib net ids [] s3)))
         | Raise _ => self (fst (fetch_loop lib net ids [] s3))
         end.
Proof.
  intros Hc Hg Hv. cbv zeta. unfold refresh_try.
  erewrite bind_step by (eapply config_account_eq; eassumption).
  erewrite bind_step by (apply keyring_get_password_eq; exact Hv).
  erewrite bind_step by reflexivity.
  unfold with_imap.
  match goal with |- context [bind _ _ ?s] => set (s0 := s) end.
  destruct (serves_connect _ _ _ Hs (imap_log (world s0))
              (imap_server settings) (imap_port settings)) as (d0 & R0).
  erewrite bind_step by (apply imap_call_eq; exact R0).
  unfold refresh_session.
  match goal with |- context [bind _ _ ?s] => set (s1 := s) end.
  destruct (serves_login _ _ _ Hs (imap_log (world s1)) account
              (vault (world st) !! ("modern-mail", account))) as (d1 & R1).
  erewrite bind_step by (apply imap_call_eq; exact R1).
  match goal with |- context [bind _ _ ?s] => set (s2 := s) end.
  destruct (serves_select _ _ _ Hs (imap_log (world s2)) "INBOX")
    as (d2 & R2).
  erewrite bind_step by (apply imap_call_eq; exact R2).
  match goal with |- context [bind _ _ ?s] => set (s2' := s) end.
  destruct (serves_search _ _ _ Hs (imap_log (world s2'))) as (rest & R3).
  erewrite bind_step by (apply imap_call_eq; exact R3).
  erewrite bind_step by reflexivity.
  erewrite bind_step by reflexivity.
  match goal with |- context [bind _ _ ?s] => set (s3' := s) end.
  assert (s3' = {| self := with_progress true (self st);
                   world := with_imap_log
                              (imap_log (world st)
                               ++ session_opening settings account
                                    (vault (world st)
                                     !! ("modern-mail", account)))
                              (world st) |}) as ->.
  { subst s3' s2' s2 s1 s0. unfold session_opening. cbn.
    rewrite <- !app_assoc. reflexivity. }
  unfold bind, on_self.
  destruct (fetch_loop lib net _ [] _) as [s4 [emails|e]]; cbn [fst snd];
    unfold imap_call;
    match goal with
    | |- context [imap net ?h ImapLogout] =>
        destruct (serves_logout _ _ _ Hs h) as (d4 & ->)
    end; eexists; split; reflexivity.
Qed.

End Serving.

(** *** C2: how many summaries, and in which order *)

(** C2.  The selected account is configured, the keyring works and the
    server answers every call, SEARCH listing [N] ids.  When the Date of
    each of the last twenty messages can be read, one [refresh_emails]
    fills the table with exactly [min(N, 20)] rows and shows no error; the
    messages are fetched in the order SEARCH listed them, and each row is
    made of what the server answered in the turn of its id, the row of the
    last id first, which is the highest sequence number fetched when the
    ids come in ascending order.  When the Date of one of them cannot be
    read, a message without a Date header for one, no row is made at all:
    the table stays as it was and the warning shows the text of the first
    such error. *)
Theorem refresh_fetch_bound lib net st line accounts settings :
  selector_text (self st) <> EmptyString ->
  config (self st) = Some accounts ->
  dict_get (selector_text (self st)) accounts = Some settings ->
  vault_fault (world st) = None ->
  serves lib net line ->
  let account := selector_text (self st) in
  let password := vault (world st) !! ("modern-mail", account) in
  let h0 :=
    imap_log (world st) ++ session_opening settings account password in
  let all := Py.bytes_split line in
  let ids := drop (length all - 20) all in
  let st' := fst (refresh_emails lib net st) in
  ((forall k, (k < length ids)%nat -> dated lib net h0 ids k) ->
   length (email_table (self st')) = (length all `min` 20)%nat
   /\ rows_of lib net h0 ids (email_table (self st'))
   /\ shown (self st') = shown (self st)
   /\ (forall top,
         last all = Some top ->
         exists m flags row,
           message_at lib net (before_turn h0 ids (length ids - 1)) top
           = Some m
           /\ flags_at lib net (before_turn h0 ids (length ids - 1)) top
              = Some flags
           /\ email_table (self st') !! 0%nat = Some row
           /\ row_for lib m flags row)
   /\ (StronglySorted (fun a b => (seqnum a < seqnum b)%N) all ->
       forall num top,
         num ∈ ids -> last all = Some top ->
         (seqnum num <= seqnum top)%N))
  /\ (forall k e,
        undated lib net h0 ids k e ->
        (forall j, (j < k)%nat -> dated lib net h0 ids j) ->
        email_table (self st') = email_table (self st)
        /\ shown (self st')
           = shown (self st)
             ++ [Warning "Error"
                   ("Failed to fetch emails: " +:+ exc_str e)]).
Proof.
  intros Hsel Hc Hg Hv Hs. cbv zeta.
  destruct (refresh_try_served lib net line Hs _ _ _ st Hc Hg Hv)
    as (st1 & Htry & Hself).
  rewrite slice_from_last in Htry, Hself.
  set (all := Py.bytes_split line) in *.
  set (ids := drop (length all - 20) all) in *.
  assert (last ids = last all) as Hlast.
  { subst ids. destruct (decide (length all = 0%nat)) as [E | E].
    - rewrite E. reflexivity.
    - apply last_drop_lt. lia. }
  split.
  - intros Hd.
    match type of Htry with
    | context [fetch_loop _ _ _ _ ?s] =>
        destruct (fetch_loop_dated lib net line Hs ids [] s Hd)
          as (s4 & emails & Hloop)
    end.
    rewrite Hloop in Htry, Hself. cbn [fst snd] in Htry, Hself.
    apply fetch_loop_rows in Hloop as (S4 & _).
    rewrite (refresh_emails_Ok lib net st st1 Hsel Htry). cbn [fst self].
    destruct (refresh_try_rows lib net _ _ _ st st1 Hc Hg Htry)
      as (all' & Hl & Hrows).
    unfold listed in Hl.
    destruct (serves_search _ _ _ Hs
                (imap_log (world st)
                 ++ [ImapConnect (imap_server settings) (imap_port settings);
                     ImapLogin (selector_text (self st))
                       (vault (world st)
                        !! ("modern-mail", selector_text (self st)));
                     ImapSelect "INBOX"])) as (rest & R).
    rewrite R in Hl. injection Hl as <-.
    rewrite slice_from_last in Hrows. fold all ids in Hrows.
    change (email_table (with_progress false (self st1)))
      with (email_table (self st1)).
    change (shown (with_progress false (self st1)))
      with (shown (self st1)).
    split; [rewrite (proj1 Hrows); apply length_last_20 |].
    split; [exact Hrows |].
    split; [rewrite Hself, S4; reflexivity |].
    split.
    + intros top Htop. rewrite <- Hlast, last_lookup in Htop.
      replace (Init.Nat.pred (length ids)) with (length ids - 1)%nat
        in Htop by lia.
      destruct (proj2 Hrows _ _ Htop) as (m & flags & row & Hm & Hf & Hr & Hw).
      exists m, flags, row.
      replace (length ids - 1 - (length ids - 1))%nat with 0%nat in Hr
        by lia.
      auto.
    + intros Hsorted num top Hin Htop.
      apply (sorted_drop _ _ (length all - 20)) in Hsorted.
      fold ids in Hsorted. rewrite <- Hlast, <- head_reverse in Htop.
      pose proof (sorted_last_is_greatest _ _ Hsorted Htop) as Hall.
      rewrite Forall_forall in Hall. apply Hall, Hin.
  - intros k e Hu Hd.
    match type of Htry with
    | context [fetch_loop _ _ _ _ ?s] =>
        destruct (fetch_loop_undated lib net line Hs ids [] s k e Hu Hd)
          as (s4 & Hloop & S4)
    end.
    rewrite Hloop in Htry, Hself. cbn [fst snd] in Htry, Hself, S4.
    unfold refresh_emails, bind, get_self.
    rewrite bool_decide_eq_false_2 by exact Hsel.
    unfold try_finally, try_except. rewrite Htry.
    unfold show, on_self. cbn. rewrite Hself, S4. auto.
Qed.

Lemma demo_answers : answers demo_lib demo_net "1 2 3".
Proof.
  split; intros; cbn; eauto 10.
Qed.

Lemma demo_serves : serves demo_lib demo_net "1 2 3".
Proof.
  split; intros; cbn; eauto 10.
Qed.

Lemma dateless_serves : serves dateless_lib dateless_net "1".
Proof.
  split; intros; cbn; eauto 10.
Qed.

Lemma refresh_fetch_bound_witness :
  let st := demo_state in
  let h0 := session_opening gmail "alice@example.com" (Some "hunter2") in
  let all := Py.bytes_split "1 2 3" in
  let ids := ["1"; "2"; "3"] in
  let st' := fst (refresh_emails demo_lib demo_net st) in
  let st'' := fst (refresh_emails dateless_lib dateless_net st) in
  (length (email_table (self st')) = (length all `min` 20)%nat
   /\ rows_of demo_lib demo_net h0 ids (email_table (self st'))
   /\ shown (self st') = shown (self st)
   /\ (forall top,
         last all = Some top ->
         exists m flags row,
           message_at demo_lib demo_net (before_turn h0 ids (length ids - 1))
             top = Some m
           /\ flags_at demo_lib demo_net (before_turn h0 ids (length ids - 1))
                top = Some flags
           /\ email_table (self st') !! 0%nat = Some row
           /\ row_for demo_lib m flags row)
   /\ (StronglySorted (fun a b => (seqnum a < seqnum b)%N) all ->
       forall num top,
         num ∈ ids -> last all = Some top -> (seqnum num <= seqnum top)%N))
  /\ (email_table (self st'') = email_table (self st)
      /\ shown (self st'')
         = shown (self st)
           ++ [Warning "Error"
                 ("Failed to fetch emails: Invalid date value or format "
                  +:+ quoted "None")]).
Proof.
  split.
  - refine (proj1 (refresh_fetch_bound demo_lib demo_net demo_state "1 2 3"
                     [("alice@example.com", gmail)] gmail _ _ _ _ _) _).
    + discriminate.
    + reflexivity.
    + reflexivity.
    + reflexivity.
    + exact demo_serves.
    + change (forall k, (k < 3)%nat ->
                        dated demo_lib demo_net
                          (session_opening gmail "alice@example.com"
                             (Some "hunter2")) ["1"; "2"; "3"] k).
      intros [|[|[|k]]] Hk; [| | | lia];
        unfold dated; eexists _, _, _;
        (split; [reflexivity |]); (split; [vm_compute; reflexivity |]);
        reflexivity.
  - refine (proj2 (refresh_fetch_bound dateless_lib dateless_net demo_state
                     "1" [("alice@example.com", gmail)] gmail _ _ _ _ _)
              0%nat
              (mkExc ValueError
                 ("Invalid date value or format " +:+ quoted "None")) _ _).
    + discriminate.
    + reflexivity.
    + reflexivity.
    + reflexivity.
    + exact dateless_serves.
    + unfold undated. eexists _, _.
      split; [reflexivity |]. split; [vm_compute; reflexivity |].
      reflexivity.
    + intros j Hj. lia.
Defined.

(** C2, as the claim states it, fails for a mailbox of one message that has
    no Date header: the server answers every call, SEARCH lists the one id,
    the message is fetched and parsed, and the table gets no row, not one;
    the warning shows the error of [parsedate_to_datetime(None)]. *)
Lemma dateless_message_blocks_refresh :
  let st := demo_state in
  let h0 := session_opening gmail "alice@example.com" (Some "hunter2") in
  let st' := fst (refresh_emails dateless_lib dateless_net st) in
  listed dateless_net [] gmail "alice@example.com" (Some "hunter2")
  = Some ["1"]
  /\ message_at dateless_lib dateless_net h0 "1"
     = Some (Leaf [("Subject", "hi")] "text/plain" "Hello")
  /\ email_table (self st') = []
  /\ length (email_table (self st')) <> (length ["1"] `min` 20)%nat
  /\ shown (self st')
     = [Warning "Error"
          ("Failed to fetch emails: Invalid date value or format "
           +:+ quoted "None")].
Proof.
  cbv zeta. split; [vm_compute; reflexivity |].
  split; [vm_compute; reflexivity |].
  split; [vm_compute; reflexivity |].
  split; [vm_compute; discriminate |].
  vm_compute. reflexivity.
Qed.

(** The demo mailbox: three rows, the newest first, the second message
    marked as read. *)
Example refresh_demo_table :
  email_table (self (fst (refresh_emails demo_lib demo_net demo_state)))
  = [[icon_unread; "Mon, 01 Jan 2024 10:00:00 +0000"; "None"; "message 3"];
     [icon_read; "Mon, 01 Jan 2024 10:00:00 +0000"; "None"; "message 2"];
     [icon_unread; "Mon, 01 Jan 2024 10:00:00 +0000"; "None"; "message 1"]].
Proof. vm_compute. reflexivity. Qed.

(** With twenty-five messages the table has twenty rows, from the entry of
    id 25 down to the entry of id 6. *)
Example refresh_busy_table :
  let table :=
    email_table (self (fst (refresh_emails demo_lib busy_net demo_state))) in
  length table = 20%nat
  /\ (table !! 0%nat ≫= last) = Some "message 25"
  /\ (table !! 19%nat ≫= last) = Some "message 6".
Proof. repeat split; vm_compute; reflexivity. Qed.

(** *** C5: the read flag *)



(** In the demo mailbox only the second message is seen, and only the
    middle row is marked read. *)
Example read_flags_of_demo :
  let table :=
    email_table (self (fst (refresh_emails demo_lib demo_net demo_state))) in
  flags_at demo_lib demo_net
    (before_turn (session_opening gmail "alice@example.com" (Some "hunter2"))
       ["1"; "2"; "3"] 1) "2" = Some "2 (FLAGS (\Seen))"
  /\ (head <$> table) = [Some icon_unread; Some icon_read; Some icon_unread].
Proof. split; vm_compute; reflexivity. Qed.

(** *** C9: the subject of a summary *)



(** *** C4: what the viewer takes from a message *)

Section Viewer.
Context (lib : Library).


Lemma attachment_test part :
  negb (bool_decide (get_content_maintype part = "multipart"))
  && truthy (get "Content-Disposition" part) = true
  <-> is_attachment part.
Proof.
  unfold is_attachment.
  rewrite andb_true_iff, negb_true_iff, bool_decide_eq_false.
  apply and_iff_compat_l.
  destruct (get "Content-Disposition" part) as [[|c v]|]; cbn; split.
  - discriminate.
  - intros (v & Hv & Hne). injection Hv as <-. contradiction.
  - intros _. exists (String c v). split; [reflexivity | discriminate].
  - reflexivity.
  - discriminate.
  - intros (v & Hv & _). discriminate.
Qed.

Lemma attachments_loop_filter parts attachments :
  attachments_loop lib parts attachments
  = attachments ++ (get_filename lib <$> filter is_attachment parts).
Proof.
  revert attachments. induction parts as [|part parts IH]; intros attachments.
  - cbn. rewrite app_nil_r. reflexivity.
  - cbn [attachments_loop]. rewrite filter_cons.
    destruct (decide (is_attachment part)) as [E | E].
    + rewrite (proj2 (attachment_test part) E).
      rewrite IH, <- app_assoc. reflexivity.
    + destruct (negb _ && _) eqn:T.
      * exfalso. apply E, attachment_test, T.
      * apply IH.
Qed.

End Viewer.




(** *** Strings: characters that do not occur, quoted values *)

Section Strings.

Lemma has_char_false c s : Py.has_char c s = false <-> absent c s.
Proof.
  unfold Py.has_char, absent. rewrite bool_decide_eq_false.
  destruct (Py.index_from c 0 s); split; intros H.
  - exfalso. apply H. eauto.
  - discriminate.
  - reflexivity.
  - intros [x Hx]. discriminate.
Qed.

Lemma absent_cons c a s : absent c (String a s) <-> a <> c /\ absent c s.
Proof.
  unfold absent. cbn. destruct (decide (a = c)) as [E | E].
  - rewrite bool_decide_eq_true_2 by exact E. split.
    + discriminate.
    + intros [H _]. contradiction.
  - rewrite bool_decide_eq_false_2 by exact E.
    destruct (Py.index_from c 0 s); cbn; split.
    + discriminate.
    + intros [_ H]. discriminate.
    + auto.
    + reflexivity.
Qed.

Lemma absent_take c s k : absent c s -> absent c (Py.take k s).
Proof.
  revert k. induction s as [|a s IH]; intros [|k] H; try reflexivity.
  cbn. apply absent_cons in H as [Ha Hs]. apply absent_cons. auto.
Qed.

Lemma absent_startswith c p s :
  absent c s -> Py.startswith (String c p) s = false.
Proof.
  destruct s as [|a s]; [reflexivity |]. intros H.
  apply absent_cons in H as [Ha _]. cbn.
  rewrite bool_decide_eq_false_2; [reflexivity | congruence].
Qed.

(** A pattern whose first character does not occur is never counted and
    never replaced. *)
Lemma count_skip_absent c p s skip :
  absent c s -> Py.count_skip (String c p) s skip = 0%nat.
Proof.
  revert skip. induction s as [|a s IH]; intros skip H; [reflexivity |].
  pose proof (absent_startswith c p _ H) as Hsw.
  apply absent_cons in H as [Ha Hs].
  cbn [Py.count_skip]. destruct skip as [|k]; [| apply IH, Hs].
  rewrite Hsw. apply IH, Hs.
Qed.

Lemma replace_absent c p new s :
  absent c s -> Py.replace (String c p) new s = s.
Proof.
  unfold Py.replace. induction s as [|a s IH]; intros H; [reflexivity |].
  pose proof (absent_startswith c p _ H) as Hsw.
  apply absent_cons in H as [Ha Hs].
  cbn [Py.replace_skip]. rewrite Hsw. f_equal. apply IH, Hs.
Qed.

Lemma length_append s t :
  String.length (s +:+ t) = (String.length s + String.length t)%nat.
Proof.
  induction s as [|a s IH]; simpl; [reflexivity | f_equal; exact IH].
Qed.

Lemma take_append_length s t : Py.take (String.length s) (s +:+ t) = s.
Proof.
  induction s as [|a s IH]; simpl; [destruct t; reflexivity |].
  f_equal. exact IH.
Qed.

Lemma take_all s : Py.take (String.length s) s = s.
Proof.
  induction s as [|a s IH]; simpl; [reflexivity | f_equal; exact IH].
Qed.

Lemma drop_all s : Py.drop (String.length s) s = EmptyString.
Proof. induction s as [|a s IH]; simpl; [reflexivity | exact IH]. Qed.

Lemma take_append_le s t k :
  (k <= String.length s)%nat -> Py.take k (s +:+ t) = Py.take k s.
Proof.
  revert k. induction s as [|a s IH]; intros [|k] H; simpl in *;
    try reflexivity; try lia.
  f_equal. apply IH. lia.
Qed.

Lemma endswith_snoc c s : Py.endswith c (s +:+ String c EmptyString) = true.
Proof.
  induction s as [|a s IH]; simpl;
    [apply bool_decide_eq_true_2; reflexivity |].
  destruct (s +:+ String c EmptyString) eqn:E; [| exact IH].
  destruct s; discriminate.
Qed.

Lemma lstrip_nonspace a s :
  Py.isspace a = false -> Py.lstrip (String a s) = String a s.
Proof. intros H. cbn. rewrite H. reflexivity. Qed.

Lemma rstrip_snoc c s :
  Py.isspace c = false ->
  Py.rstrip (s +:+ String c EmptyString) = s +:+ String c EmptyString.
Proof.
  intros H. induction s as [|a s IH]; [simpl; rewrite H; reflexivity |].
  change (String a s +:+ String c EmptyString)
    with (String a (s +:+ String c EmptyString)).
  cbn [Py.rstrip]. rewrite IH.
  destruct (s +:+ String c EmptyString) eqn:E; [| reflexivity].
  destruct s; discriminate.
Qed.

(** A text that starts and ends with characters that are not white space is
    left alone by [strip]. *)
Lemma strip_enclosed a s c :
  Py.isspace a = false -> Py.isspace c = false ->
  Py.strip (String a (s +:+ String c EmptyString))
  = String a (s +:+ String c EmptyString).
Proof.
  intros Ha Hc. unfold Py.strip. rewrite lstrip_nonspace by exact Ha.
  change (String a (s +:+ String c EmptyString))
    with (String a s +:+ String c EmptyString).
  apply rstrip_snoc, Hc.
Qed.

(** [unquote] of a value in double quotes gives the value back when it has
    neither a double quote nor a backslash. *)
Lemma unquote_quoted n :
  absent dquote n -> absent backslash n ->
  unquote (quoted n) = n.
Proof.
  intros Hq Hb. unfold quoted. unfold unquote, Py.len.
  replace (1 <? _) with true.
  2:{ symmetry. apply Z.ltb_lt. cbn [String.length].
      rewrite length_append. cbn. lia. }
  change (String dquote (n +:+ String dquote EmptyString))
    with (String dquote n +:+ String dquote EmptyString) at 2.
  rewrite endswith_snoc.
  replace (Py.startswith _ _) with true
    by (cbn; rewrite bool_decide_eq_true_2; reflexivity).
  cbn [andb String.length Py.drop].
  replace (S (String.length (n +:+ String dquote EmptyString)) - 2)%nat
    with (String.length n) by (rewrite length_append; cbn; lia).
  rewrite take_append_length.
  rewrite (replace_absent backslash _ _ n Hb).
  apply replace_absent, Hb.
Qed.

Lemma unquote_plain n :
  absent dquote n ->
  Py.startswith "<" n && Py.endswith ">" n = false ->
  unquote n = n.
Proof.
  intros Hq Ha. unfold unquote.
  rewrite (absent_startswith dquote EmptyString n Hq), Ha. cbn.
  destruct (1 <? Py.len n); reflexivity.
Qed.

Lemma quote_plain n : absent dquote n -> absent backslash n -> quote n = n.
Proof.
  intros Hq Hb. unfold quote.
  rewrite (replace_absent backslash _ _ n Hb).
  apply replace_absent, Hq.
Qed.

End Strings.

(** *** The parameter list of a Content-Disposition made by [send_email] *)

Section Parameters.

Lemma index_from_Some c start s i :
  Py.index_from c start s = Some i ->
  (start <= i)%nat /\ String.get i s = Some c.
Proof.
  revert start i. induction s as [|a s IH]; intros start i H;
    [discriminate |].
  cbn [Py.index_from] in H. destruct start as [|k].
  - destruct (decide (a = c)) as [E | E].
    + rewrite bool_decide_eq_true_2 in H by exact E.
      injection H as <-. subst a. split; [lia | reflexivity].
    + rewrite bool_decide_eq_false_2 in H by exact E.
      destruct (Py.index_from c 0 s) as [j|] eqn:Hj; [| discriminate].
      injection H as <-. destruct (IH _ _ Hj) as [_ Hg].
      split; [lia | exact Hg].
  - destruct (Py.index_from c k s) as [j|] eqn:Hj; [| discriminate].
    injection H as <-. destruct (IH _ _ Hj) as [Hk Hg].
    split; [lia | exact Hg].
Qed.

Lemma find_spec c s start :
  0 <= start ->
  Py.find c s start = -1
  \/ exists i, Py.find c s start = Z.of_nat i
               /\ (Z.to_nat start <= i)%nat /\ String.get i s = Some c.
Proof.
  intros Hs. unfold Py.find.
  destruct (Py.index_from c (Z.to_nat start) s) as [i|] eqn:E; [| auto].
  right. exists i. apply index_from_Some in E. tauto.
Qed.

Lemma get_lt i s c : String.get i s = Some c -> (i < String.length s)%nat.
Proof.
  revert i. induction s as [|a s IH]; intros i H; [discriminate |].
  destruct i as [|i]; cbn in *; [lia |]. apply IH in H. lia.
Qed.

Lemma get_snoc i s c d :
  String.get i (s +:+ String c EmptyString) = Some d -> d <> c ->
  (i < String.length s)%nat.
Proof.
  revert i. induction s as [|a s IH]; intros i H Hd.
  - destruct i as [|i]; simpl in H; [congruence | discriminate].
  - destruct i as [|i]; simpl in *; [lia |]. apply IH in H; [lia | exact Hd].
Qed.

Lemma parseparam_end_eq fuel s e :
  parseparam_end fuel s e
  = if (0 <? e)
       && Z.odd (Py.count (String dquote EmptyString) (Py.take (Z.to_nat e) s)
                 - Py.count (String backslash (String dquote EmptyString))
                            (Py.take (Z.to_nat e) s))
    then match fuel with
         | O => e
         | S fuel' => parseparam_end fuel' s (Py.find semicolon s (e + 1))
         end
    else e.
Proof. destruct fuel; reflexivity. Qed.

(** When every semicolon of [s] stands inside quotes, the inner loop runs to
    the end of [s] and gives [-1]. *)
Lemma parseparam_end_quoted fuel s e :
  (forall i, String.get i s = Some semicolon ->
     (0 < i)%nat
     /\ Z.odd (Py.count (String dquote EmptyString) (Py.take i s)
               - Py.count (String backslash (String dquote EmptyString))
                          (Py.take i s)) = true) ->
  (e = -1
   \/ exists i, e = Z.of_nat i /\ String.get i s = Some semicolon
                /\ (String.length s <= fuel + i)%nat) ->
  parseparam_end fuel s e = -1.
Proof.
  intros Hq. revert e. induction fuel as [|fuel IH]; intros e He;
    rewrite parseparam_end_eq.
  - destruct He as [-> | (i & -> & Hg & Hl)]; [reflexivity |].
    apply get_lt in Hg. lia.
  - destruct He as [-> | (i & -> & Hg & Hl)]; [reflexivity |].
    destruct (Hq i Hg) as [Hpos Hodd].
    rewrite Nat2Z.id, Hodd.
    replace (0 <? Z.of_nat i) with true by (symmetry; apply Z.ltb_lt; lia).
    cbn [andb]. apply IH.
    destruct (find_spec semicolon s (Z.of_nat i + 1))
      as [-> | (j & -> & Hj & Hgj)]; [lia | auto |].
    right. exists j. split; [reflexivity |]. split; [exact Hgj | lia].
Qed.

Lemma parseparam_loop_eq fuel s plist :
  parseparam_loop (S fuel) s plist
  = if Py.startswith ";" s then
      let s := Py.drop 1 s in
      let e := parseparam_end (String.length s) s (Py.find semicolon s 0) in
      let e := Z.to_nat (if e <? 0 then Py.len s else e) in
      let f := Py.take e s in
      let f :=
        match Py.index_from "=" O f with
        | Some i =>
            Py.lower (Py.strip (Py.take i f)) +:+ "=" +:+
            Py.strip (Py.drop (S i) f)
        | None => f
        end in
      parseparam_loop fuel (Py.drop e s) (plist ++ [Py.strip f])
    else plist.
Proof. reflexivity. Qed.

Lemma parseparam_loop_done fuel plist :
  parseparam_loop fuel EmptyString plist = plist.
Proof. destruct fuel; reflexivity. Qed.

(** The fuel of the two loops is never used up: the inner loop stops on a
    position where its condition fails, and the outer loop gives the same
    list for any fuel above the length of its text. *)
Lemma parseparam_end_stops fuel s e :
  (e = -1 \/ (0 <= e < Py.len s /\ Py.len s <= Z.of_nat fuel + e)) ->
  let r := parseparam_end fuel s e in
  (0 <? r)
  && Z.odd (Py.count (String dquote EmptyString) (Py.take (Z.to_nat r) s)
            - Py.count (String backslash (String dquote EmptyString))
                       (Py.take (Z.to_nat r) s)) = false.
Proof.
  revert e. induction fuel as [|fuel IH]; intros e He; cbv zeta;
    rewrite parseparam_end_eq;
    destruct ((0 <? e) && Z.odd _) eqn:Hc; try exact Hc.
  - destruct He as [-> | He]; [discriminate Hc | lia].
  - apply andb_true_iff in Hc as [Hpos _]. apply Z.ltb_lt in Hpos.
    assert (0 <= e + 1) as Hstart by lia.
    destruct (find_spec semicolon s (e + 1) Hstart)
      as [Hm | (j & Hm & Hj & Hgj)]; rewrite Hm.
    + apply IH. auto.
    + apply get_lt in Hgj. apply IH. right. unfold Py.len in *. lia.
Qed.

Lemma parseparam_end_exit s :
  let r :=
    parseparam_end (String.length s) s (Py.find semicolon s 0) in
  (0 <? r)
  && Z.odd (Py.count (String dquote EmptyString) (Py.take (Z.to_nat r) s)
            - Py.count (String backslash (String dquote EmptyString))
                       (Py.take (Z.to_nat r) s)) = false.
Proof.
  apply parseparam_end_stops.
  destruct (find_spec semicolon s 0) as [-> | (j & -> & Hj & Hgj)];
    [lia | auto |].
  right. apply get_lt in Hgj. unfold Py.len. lia.
Qed.

Lemma length_drop_le k s :
  (String.length (Py.drop k s) <= String.length s)%nat.
Proof.
  revert k. induction s as [|a s IH]; intros [|k]; simpl; try lia.
  specialize (IH k). lia.
Qed.

Lemma parseparam_loop_fuel fuel1 fuel2 s plist :
  (String.length s < fuel1)%nat -> (String.length s < fuel2)%nat ->
  parseparam_loop fuel1 s plist = parseparam_loop fuel2 s plist.
Proof.
  revert fuel2 s plist. induction fuel1 as [|fuel1 IH];
    intros fuel2 s plist H1 H2; [lia |].
  destruct fuel2 as [|fuel2]; [lia |].
  rewrite !parseparam_loop_eq.
  destruct s as [|a s]; [reflexivity |].
  destruct (Py.startswith ";" (String a s)); [| reflexivity].
  cbv zeta. apply IH.
  - pose proof (length_drop_le
      (Z.to_nat
         (if parseparam_end (String.length (Py.drop 1 (String a s)))
               (Py.drop 1 (String a s))
               (Py.find semicolon (Py.drop 1 (String a s)) 0) <? 0
          then Py.len (Py.drop 1 (String a s))
          else parseparam_end (String.length (Py.drop 1 (String a s)))
                 (Py.drop 1 (String a s))
                 (Py.find semicolon (Py.drop 1 (String a s)) 0)))
      (Py.drop 1 (String a s))) as Hl.
    simpl in *. lia.
  - pose proof (length_drop_le
      (Z.to_nat
         (if parseparam_end (String.length (Py.drop 1 (String a s)))
               (Py.drop 1 (String a s))
               (Py.find semicolon (Py.drop 1 (String a s)) 0) <? 0
          then Py.len (Py.drop 1 (String a s))
          else parseparam_end (String.length (Py.drop 1 (String a s)))
                 (Py.drop 1 (String a s))
                 (Py.find semicolon (Py.drop 1 (String a s)) 0)))
      (Py.drop 1 (String a s))) as Hl.
    simpl in *. lia.
Qed.

(** The first turn: the bare word before the first semicolon. *)
Lemma parseparam_first fuel t plist :
  parseparam_loop (S fuel) (";attachment; filename=" +:+ t) plist
  = parseparam_loop fuel ("; filename=" +:+ t) (plist ++ ["attachment"]).
Proof. reflexivity. Qed.

(** The second turn: the quoted value, semicolons and all. *)
Lemma parseparam_second fuel n plist :
  absent dquote n -> absent backslash n ->
  parseparam_loop (S fuel)
    ("; filename=" +:+ quoted n) plist
  = plist ++ ["filename=" +:+ quoted n].
Proof.
  intros Hq Hb. unfold quoted. rewrite parseparam_loop_eq.
  change (Py.startswith ";" _) with true.
  cbv beta iota zeta.
  set (q := String dquote (n +:+ String dquote EmptyString)).
  change (Py.drop 1 ("; filename=" +:+ q)) with (" filename=" +:+ q).
  set (s := " filename=" +:+ q).
  rewrite (parseparam_end_quoted (String.length s) s).
  - change (-1 <? 0) with true. cbv iota.
    unfold Py.len. rewrite Nat2Z.id, take_all, drop_all.
    rewrite parseparam_loop_done.
    change (Py.index_from "=" 0 s) with (Some 9%nat). cbv iota.
    change (Py.take 9 s) with " filename".
    change (Py.drop 10 s) with q.
    change (Py.lower (Py.strip " filename")) with "filename".
    unfold q. rewrite (strip_enclosed dquote n dquote) by reflexivity.
    change ("filename" +:+ "=" +:+
            String dquote (n +:+ String dquote EmptyString))
      with (String "f" (("ilename=" +:+ String dquote n)
                        +:+ String dquote EmptyString)).
    rewrite (strip_enclosed "f" _ dquote) by reflexivity.
    reflexivity.
  - intros i Hi.
    do 11 (destruct i as [|i]; [discriminate Hi |]).
    change (String.get i (n +:+ String dquote EmptyString) = Some semicolon)
      in Hi.
    apply get_snoc in Hi; [| discriminate].
    split; [lia |].
    change (Py.take (S (S (S (S (S (S (S (S (S (S (S i))))))))))) s)
      with (" filename=" +:+ String dquote
              (Py.take i (n +:+ String dquote EmptyString))).
    rewrite take_append_le by lia.
    change (Py.count (String dquote EmptyString)
              (" filename=" +:+ String dquote (Py.take i n)))
      with (Z.of_nat (S (Py.count_skip (String dquote EmptyString)
                           (Py.take i n) 0))).
    change (Py.count (String backslash (String dquote EmptyString))
              (" filename=" +:+ String dquote (Py.take i n)))
      with (Z.of_nat (Py.count_skip
                        (String backslash (String dquote EmptyString))
                        (Py.take i n) 0)).
    rewrite !count_skip_absent by (apply absent_take; assumption).
    reflexivity.
  - destruct (find_spec semicolon s 0) as [-> | (j & -> & Hj & Hgj)];
      [lia | auto |].
    right. exists j. split; [reflexivity |]. split; [exact Hgj | lia].
Qed.

Lemma parseparam_attachment n :
  absent dquote n -> absent backslash n ->
  _parseparam ("attachment; filename=" +:+
               quoted n)
  = ["attachment"; "filename=" +:+ quoted n].
Proof.
  intros Hq Hb. unfold _parseparam.
  change (";" +:+ "attachment; filename=" +:+
          quoted n)
    with (";attachment; filename=" +:+
          quoted n).
  rewrite parseparam_first.
  change (String.length ("attachment; filename=" +:+
                         quoted n))
    with (S (String.length ("ttachment; filename=" +:+
                            quoted n))).
  rewrite parseparam_second by assumption. reflexivity.
Qed.

End Parameters.

(** *** C3: building a message and viewing it *)

Section RoundTrip.
Context (lib : Library).

Lemma safe_name_spec n :
  safe_name n = true ->
  absent dquote n /\ absent backslash n /\ Py.strip n = n
  /\ Py.startswith "<" n && Py.endswith ">" n = false.
Proof.
  unfold safe_name. rewrite !andb_true_iff, !negb_true_iff.
  rewrite !has_char_false, bool_decide_eq_true. tauto.
Qed.

Lemma split_param_filename n :
  split_param ("filename=" +:+ quoted n)
  = ("filename", quoted n).
Proof.
  unfold split_param, quoted.
  change (Py.index_from "=" 0 _) with (Some 8%nat). cbv iota.
  change (Py.take 8 _) with "filename".
  set (q := String dquote (n +:+ String dquote EmptyString)).
  change (Py.drop 9 ("filename=" +:+ q)) with q. unfold q.
  rewrite (strip_enclosed dquote n dquote) by reflexivity. reflexivity.
Qed.

(** [get_param] and [get_filename] on the part made of a file with a safe
    name. *)
Lemma get_param_filename file_path data :
  absent dquote (Py.path_name file_path) ->
  absent backslash (Py.path_name file_path) ->
  get_param lib "filename" "content-disposition"
    (attachment_part lib file_path data)
  = Some (PStr (Py.path_name file_path)).
Proof.
  intros Hq Hb. set (n := Py.path_name file_path) in *.
  unfold get_param, _get_params_preserve, attachment_part. fold n.
  change (get "content-disposition" (Leaf _ _ _))
    with (Some ("attachment; filename=" +:+
                quoted n)).
  cbv beta iota.
  rewrite parseparam_attachment by assumption.
  cbn [map]. rewrite split_param_filename.
  change (split_param "attachment") with ("attachment", EmptyString).
  unfold decode_params. cbn [map fst snd].
  rewrite unquote_quoted by assumption.
  rewrite filter_cons_True by reflexivity.
  rewrite (filter_cons_False (fun nv => rfc2231_continuation_match nv.1 = true))
    by discriminate.
  rewrite !filter_nil. cbn [map app fst snd].
  rewrite quote_plain by assumption.
  cbn [find_param].
  change (bool_decide (Py.lower "attachment" = Py.lower "filename"))
    with false.
  change (bool_decide (Py.lower "filename" = Py.lower "filename")) with true.
  cbv iota. cbn [_unquotevalue].
  rewrite unquote_quoted by assumption. reflexivity.
Qed.

Lemma get_filename_attachment file_path data :
  safe_name (Py.path_name file_path) = true ->
  get_filename lib (attachment_part lib file_path data)
  = Some (Py.path_name file_path).
Proof.
  intros Hsafe. apply safe_name_spec in Hsafe as (Hq & Hb & Hs & Ha).
  unfold get_filename. rewrite get_param_filename by assumption.
  cbn [collapse_rfc2231_value].
  rewrite unquote_plain by assumption.
  rewrite Hs. reflexivity.
Qed.

Lemma attachment_part_collected file_path data :
  safe_name (Py.path_name file_path) = true ->
  is_attachment (attachment_part lib file_path data).
Proof.
  intros _. split.
  - discriminate.
  - eexists. split; [reflexivity | discriminate].
Qed.

Lemma read_file_eq path data st :
  disk_fault (world st) = None ->
  files (world st) !! path = Some data ->
  read_file path st = (st, Ok data).
Proof.
  intros Hd Hf. unfold read_file, bind, get_world. rewrite Hd, Hf.
  reflexivity.
Qed.

(** The loop over the attached files, when every file can be read. *)
Lemma attach_files_eq paths hs d parts st :
  disk_fault (world st) = None ->
  Forall (fun p => is_Some (files (world st) !! p)) paths ->
  attach_files lib paths (Multi hs d parts) st
  = (st, Ok (Multi hs d
               (parts ++
                ((fun p => attachment_part lib p
                             (default EmptyString (files (world st) !! p)))
                 <$> paths)))).
Proof.
  intros Hd Hall. revert parts.
  induction Hall as [|p paths [data Hp] Hall IH]; intros parts.
  - cbn. rewrite app_nil_r. reflexivity.
  - cbn [attach_files].
    erewrite bind_step by (apply read_file_eq; eassumption).
    erewrite bind_step by reflexivity.
    erewrite bind_step by reflexivity.
    rewrite IH. cbn [fmap list_fmap]. rewrite Hp, <- app_assoc.
    reflexivity.
Qed.

Lemma build_eq account to subject body paths st :
  disk_fault (world st) = None ->
  Forall (fun p => is_Some (files (world st) !! p)) paths ->
  build lib account to subject body paths st
  = (st, Ok (Multi [("Content-Type", "multipart/mixed");
                    ("MIME-Version", "1.0"); ("From", account);
                    ("To", to); ("Subject", subject)]
               "text/plain"
               (MIMEText lib body
                :: ((fun p => attachment_part lib p
                                (default EmptyString (files (world st) !! p)))
                    <$> paths)))).
Proof.
  intros Hd Hall. unfold build.
  erewrite bind_step by reflexivity.
  apply attach_files_eq; assumption.
Qed.

Lemma walk_attachment_parts (f : string -> string) paths :
  flat_map walk ((fun p => attachment_part lib p (f p)) <$> paths)
  = (fun p => attachment_part lib p (f p)) <$> paths.
Proof.
  induction paths as [|p paths IH]; [reflexivity |].
  cbn. f_equal. exact IH.
Qed.

Lemma walk_MIMEText body : walk (MIMEText lib body) = [MIMEText lib body].
Proof. unfold MIMEText. destruct (Py.isascii body); reflexivity. Qed.

Lemma MIMEText_type body : get_content_type (MIMEText lib body) = "text/plain".
Proof. unfold MIMEText. destruct (Py.isascii body); reflexivity. Qed.

Lemma MIMEText_not_attachment body : ~ is_attachment (MIMEText lib body).
Proof.
  unfold MIMEText. intros (_ & v & Hv & _).
  destruct (Py.isascii body); discriminate.
Qed.

Lemma MIMEText_payload body :
  body_codec_ok lib body -> payload_text lib (MIMEText lib body) = Ok body.
Proof.
  unfold body_codec_ok, MIMEText, payload_text.
  destruct (Py.isascii body); intros H; exact H.
Qed.

Lemma filter_attachment_parts (f : string -> string) paths :
  Forall (fun p => safe_name (Py.path_name p) = true) paths ->
  get_filename lib <$>
    filter is_attachment ((fun p => attachment_part lib p (f p)) <$> paths)
  = Some <$> (Py.path_name <$> paths).
Proof.
  induction 1 as [|p paths Hp Hall IH]; [reflexivity |].
  cbn [fmap list_fmap].
  rewrite filter_cons_True by (apply attachment_part_collected, Hp).
  cbn [fmap list_fmap]. rewrite get_filename_attachment by exact Hp.
  f_equal. exact IH.
Qed.

End RoundTrip.

(** C3, as amended.  When the attached files can be read, their names have
    no double quote and no backslash, do not start or end with white space
    and are not enclosed in angle brackets, and the text codecs give the
    body back, the viewer applied to the message object [send_email] builds
    finds the subject, the body and the file names that were supplied, the
    names in their order.  (What the serialiser and the parser of the
    [email] package do to the message in between is not part of this
    statement.) *)
Theorem view_of_built lib account to subject body paths st :
  disk_fault (world st) = None ->
  Forall (fun p => is_Some (files (world st) !! p)) paths ->
  Forall (fun p => safe_name (Py.path_name p) = true) paths ->
  body_codec_ok lib body ->
  exists msg,
    build lib account to subject body paths st = (st, Ok msg)
    /\ get "subject" msg = Some subject
    /\ extract_body lib msg = Ok body
    /\ attachments_loop lib (walk msg) []
       = Some <$> (Py.path_name <$> paths).
Proof.
  intros Hd Hfiles Hsafe Hbody. eexists.
  split; [apply build_eq; assumption |].
  split; [reflexivity |].
  split.
  - unfold extract_body. cbn [is_multipart walk flat_map].
    cbn [body_loop].
    change (bool_decide (get_content_type (Multi _ _ _) = "text/plain"))
      with false. cbv iota.
    rewrite walk_MIMEText. cbn [app body_loop].
    rewrite bool_decide_eq_true_2 by apply MIMEText_type.
    apply MIMEText_payload, Hbody.
  - rewrite attachments_loop_filter. cbn [app walk flat_map].
    rewrite walk_MIMEText, walk_attachment_parts. cbn [app].
    rewrite filter_cons_False.
    2:{ intros [H _]. apply H. reflexivity. }
    rewrite filter_cons_False by apply MIMEText_not_attachment.
    apply filter_attachment_parts, Hsafe.
Qed.

Lemma view_of_built_witness :
  exists msg,
    build demo_lib "alice@example.com" "bob@example.com" "Hi" "Hello"
      ["/home/alice/report.pdf"] desk_state = (desk_state, Ok msg)
    /\ get "subject" msg = Some "Hi"
    /\ extract_body demo_lib msg = Ok "Hello"
    /\ attachments_loop demo_lib (walk msg) []
       = Some <$> (Py.path_name <$> ["/home/alice/report.pdf"]).
Proof.
  apply (view_of_built demo_lib "alice@example.com" "bob@example.com" "Hi"
           "Hello" ["/home/alice/report.pdf"] desk_state).
  - reflexivity.
  - repeat constructor. vm_compute. eauto.
  - repeat constructor.
  - reflexivity.
Defined.

(** C3 fails as stated: a file whose name starts with a space is attached
    under that name, and the viewer finds it under the name without the
    space. *)
Lemma padded_name_not_recovered :
  Py.path_name "/home/alice/ notes.txt" = " notes.txt"
  /\ names_seen demo_lib
       (snd (build demo_lib "alice@example.com" "bob@example.com" "Hi"
               "Hello" ["/home/alice/ notes.txt"] desk_state))
     = Some [Some "notes.txt"].
Proof. split; vm_compute; reflexivity. Qed.

(** ** The methods taken together *)

(** *** What a method leaves alone *)

Lemma bind_cases {A B} (c : M A) (k : A -> M B) st :
  (exists s1 a, c st = (s1, Ok a) /\ bind c k st = k a s1)
  \/ (exists s1 e, c st = (s1, Raise e) /\ bind c k st = (s1, Raise e)).
Proof. unfold bind. destruct (c st) as [s1 [a|e]]; eauto 6. Qed.

Section Frame.
Context (lib : Library) (net : Network) {V : Type} (view : State -> V).

Lemma keeps_ret {A} (a : A) : keeps view (ret a).
Proof. intros st. reflexivity. Qed.

Lemma keeps_raise {A} e : keeps view (@raise A e).
Proof. intros st. reflexivity. Qed.

Lemma keeps_lift {A} (r : result A) : keeps view (lift r).
Proof. intros st. reflexivity. Qed.

Lemma keeps_get_self : keeps view get_self.
Proof. intros st. reflexivity. Qed.

Lemma keeps_get_world : keeps view get_world.
Proof. intros st. reflexivity. Qed.

Lemma keeps_bind {A B} (c : M A) (k : A -> M B) :
  keeps view c -> (forall a, keeps view (k a)) -> keeps view (bind c k).
Proof.
  intros Hc Hk st. unfold bind. specialize (Hc st).
  destruct (c st) as [s1 [a|e]]; cbn in *.
  - rewrite Hk. exact Hc.
  - exact Hc.
Qed.

Lemma keeps_try_except {A} (body : M A) handler :
  keeps view body -> (forall e, keeps view (handler e)) ->
  keeps view (try_except body handler).
Proof.
  intros Hb Hh st. unfold try_except. specialize (Hb st).
  destruct (body st) as [s1 [a|e]]; cbn in *.
  - exact Hb.
  - rewrite Hh. exact Hb.
Qed.

Lemma keeps_try_finally {A} (body : M A) final :
  keeps view body -> keeps view final -> keeps view (try_finally body final).
Proof.
  intros Hb Hf st. unfold try_finally. specialize (Hb st).
  destruct (body st) as [s1 r]; cbn in *. rewrite Hf. exact Hb.
Qed.

Ltac keeps_go :=
  repeat first
    [ apply keeps_ret | apply keeps_raise | apply keeps_lift
    | apply keeps_get_self | apply keeps_get_world
    | apply keeps_bind; [| intros ?]
    | assumption
    | match goal with
      | |- keeps _ (match ?x with _ => _ end) => destruct x
      end ].

Lemma keeps_config_account account : keeps view (config_account account).
Proof. unfold config_account, config_accounts, key_error. keeps_go. Qed.

Lemma keeps_keyring_get_password service username :
  keeps view (keyring_get_password service username).
Proof. unfold keyring_get_password. keeps_go. Qed.

Lemma keeps_read_file path : keeps view (read_file path).
Proof. unfold read_file. keeps_go. Qed.

Lemma keeps_getitem0 data : keeps view (getitem0 data).
Proof. unfold getitem0. keeps_go. Qed.

Lemma keeps_getitem1 item : keeps view (getitem1 item).
Proof. unfold getitem1. keeps_go. Qed.

Lemma keeps_parse_message x : keeps view (parse_message lib x).
Proof. unfold parse_message. keeps_go. Qed.

Lemma keeps_item_decode item : keeps view (item_decode lib item).
Proof. unfold item_decode. keeps_go. Qed.

Lemma keeps_item_split item : keeps view (item_split item).
Proof. unfold item_split. keeps_go. Qed.

Lemma keeps_attach_files paths msg : keeps view (attach_files lib paths msg).
Proof.
  revert msg. induction paths as [|p paths IH]; intros msg; cbn.
  - apply keeps_ret.
  - apply keeps_bind; [apply keeps_read_file | intros data].
    apply keeps_bind; [apply keeps_lift | intros part].
    apply keeps_bind; [apply keeps_lift | intros msg']. apply IH.
Qed.

Lemma keeps_build account to subject body paths :
  keeps view (build lib account to subject body paths).
Proof.
  unfold build. apply keeps_bind; [apply keeps_lift | intros msg].
  apply keeps_attach_files.
Qed.

(** What [view] may leave out: the two logs, the boxes shown, the table,
    the progress bar. *)
Hypothesis view_imap : forall st l,
  view {| self := self st; world := with_imap_log l (world st) |} = view st.
Hypothesis view_smtp : forall st l,
  view {| self := self st; world := with_smtp_log l (world st) |} = view st.
Hypothesis view_shown : forall st l,
  view {| self := with_shown l (self st); world := world st |} = view st.
Hypothesis view_table : forall st t,
  view {| self := with_email_table t (self st); world := world st |}
  = view st.
Hypothesis view_progress : forall st b,
  view {| self := with_progress b (self st); world := world st |} = view st.

Lemma keeps_imap_call c : keeps view (imap_call net c).
Proof. intros st. unfold imap_call. cbn. apply view_imap. Qed.

Lemma keeps_with_imap {A} host port (body : M A) :
  keeps view body -> keeps view (with_imap net host port body).
Proof.
  intros Hb. unfold with_imap.
  apply keeps_bind; [apply keeps_imap_call |].
  intros _ st. specialize (Hb st). destruct (body st) as [s1 r].
  cbn in Hb. unfold imap_call. cbn.
  destruct (imap net _ ImapLogout) as [d|e]; [| destruct (is_OSError e)];
    cbn; rewrite view_imap; exact Hb.
Qed.

Lemma keeps_fetch_summary num : keeps view (fetch_summary lib net num).
Proof.
  unfold fetch_summary.
  repeat first
    [ apply keeps_imap_call | apply keeps_getitem0 | apply keeps_getitem1
    | apply keeps_parse_message | apply keeps_item_decode
    | apply keeps_lift | apply keeps_ret
    | apply keeps_bind; [| intros ?] ].
Qed.

Lemma keeps_fetch_loop nums emails :
  keeps view (fetch_loop lib net nums emails).
Proof.
  revert emails. induction nums as [|num nums IH]; intros emails; cbn.
  - apply keeps_ret.
  - apply keeps_bind; [apply keeps_fetch_summary | intros data]. apply IH.
Qed.

Lemma keeps_show ev : keeps view (show ev).
Proof. intros st. unfold show, on_self. cbn. apply view_shown. Qed.

Lemma keeps_refresh_session account password :
  keeps view (refresh_session lib net account password).
Proof.
  unfold refresh_session.
  repeat first
    [ apply keeps_imap_call | apply keeps_getitem0 | apply keeps_item_split
    | apply keeps_fetch_loop
    | apply keeps_bind; [| intros ?] ].
  intros st. unfold on_self. cbn. apply view_table.
Qed.

Lemma keeps_refresh_try account : keeps view (refresh_try lib net account).
Proof.
  unfold refresh_try.
  apply keeps_bind; [apply keeps_config_account | intros settings].
  apply keeps_bind; [apply keeps_keyring_get_password | intros password].
  apply keeps_bind; [intros st; apply view_progress | intros _].
  apply keeps_with_imap, keeps_refresh_session.
Qed.

Lemma keeps_refresh_emails : keeps view (refresh_emails lib net).
Proof.
  unfold refresh_emails.
  apply keeps_bind; [apply keeps_get_self | intros s].
  destruct (bool_decide _); [apply keeps_ret |].
  apply keeps_try_finally; [| intros st; apply view_progress].
  apply keeps_try_except; [apply keeps_refresh_try | intros e].
  apply keeps_show.
Qed.

Lemma keeps_view_session account password row :
  keeps view (view_session lib net account password row).
Proof.
  unfold view_session.
  repeat first
    [ apply keeps_imap_call | apply keeps_getitem0 | apply keeps_getitem1
    | apply keeps_item_split | apply keeps_parse_message
    | apply keeps_lift | apply keeps_show
    | apply keeps_bind; [| intros ?] ].
  destruct (Py.index _ row); [apply keeps_ret | apply keeps_raise].
Qed.

Lemma keeps_view_email row : keeps view (view_email lib net row).
Proof.
  unfold view_email.
  apply keeps_bind; [apply keeps_get_self | intros s].
  destruct (bool_decide _); [apply keeps_ret |].
  apply keeps_try_except; [| intros e; apply keeps_show].
  unfold view_try.
  apply keeps_bind; [apply keeps_config_account | intros settings].
  apply keeps_bind; [apply keeps_keyring_get_password | intros password].
  apply keeps_with_imap, keeps_view_session.
Qed.

Lemma keeps_smtp_call c : keeps view (smtp_call net c).
Proof. intros st. unfold smtp_call. cbn. apply view_smtp. Qed.

Lemma keeps_with_smtp {A} host port (body : M A) :
  keeps view body -> keeps view (with_smtp net host port body).
Proof.
  intros Hb. unfold with_smtp.
  apply keeps_bind; [apply keeps_smtp_call |].
  intros _ st. specialize (Hb st). destruct (body st) as [s1 r].
  cbn in Hb. unfold smtp_call. cbn.
  destruct (smtp net _ SmtpQuit) as [d|e];
    [| destruct (is_SMTPServerDisconnected e)];
    cbn; rewrite view_smtp; exact Hb.
Qed.

Lemma keeps_send_email dialog to subject body :
  keeps view (send_email lib net dialog to subject body).
Proof.
  unfold send_email.
  apply keeps_try_except; [| intros e; apply keeps_show].
  unfold send_try.
  apply keeps_bind; [apply keeps_get_self | intros s].
  apply keeps_bind; [apply keeps_config_account | intros settings].
  apply keeps_bind; [apply keeps_keyring_get_password | intros password].
  apply keeps_bind; [apply keeps_build | intros msg].
  apply keeps_bind; [| intros _].
  - apply keeps_with_smtp.
    repeat first [apply keeps_smtp_call | apply keeps_bind; [| intros ?]].
  - apply keeps_bind; [apply keeps_show | intros _]. apply keeps_show.
Qed.

End Frame.

(** The three methods with a handler return normally in every case. *)
Lemma refresh_emails_returns lib net st :
  snd (refresh_emails lib net st) = Ok tt.
Proof.
  unfold refresh_emails, bind, get_self.
  destruct (bool_decide _); [reflexivity |].
  unfold try_finally, try_except, show.
  destruct (refresh_try lib net _ st) as [s1 [[]|e]]; reflexivity.
Qed.

Lemma view_email_returns lib net row st :
  snd (view_email lib net row st) = Ok tt.
Proof.
  unfold view_email, bind, get_self.
  destruct (bool_decide _); [reflexivity |].
  unfold try_except, show.
  destruct (view_try lib net _ row st) as [s1 [[]|e]]; reflexivity.
Qed.

Lemma send_email_returns lib net dialog to subject body st :
  snd (send_email lib net dialog to subject body st) = Ok tt.
Proof.
  unfold send_email, try_except, show.
  destruct (send_try lib net dialog to subject body st) as [s1 [[]|e]];
    reflexivity.
Qed.

(** X1.  Whatever the servers and the library answer, [refresh_emails]
    returns normally, leaves the accounts, the pending settings, the account
    selector, the attachments, the files, the keyring and the SMTP log as
    they were, and, when an account is selected, ends with the progress bar
    hidden. *)
Theorem refresh_emails_frame lib net st :
  let st' := fst (refresh_emails lib net st) in
  snd (refresh_emails lib net st) = Ok tt
  /\ profile (self st') = profile (self st)
  /\ storage (world st') = storage (world st)
  /\ smtp_log (world st') = smtp_log (world st)
  /\ (selector_text (self st) <> EmptyString ->
      progress_visible (self st') = false).
Proof.
  cbv zeta. split; [apply refresh_emails_returns |].
  pose proof (keeps_refresh_emails lib net
                (fun st => (profile (self st), storage (world st),
                            smtp_log (world st)))) as H.
  specialize (H ltac:(intros [s w] l; reflexivity)
                ltac:(intros [s w] l; reflexivity)
                ltac:(intros [s w] l; reflexivity)
                ltac:(intros [s w] l; reflexivity) st).
  cbv beta in H.
  split; [exact (f_equal (fun x => fst (fst x)) H) |].
  split; [exact (f_equal (fun x => snd (fst x)) H) |].
  split; [exact (f_equal snd H) |].
  intros Hsel. unfold refresh_emails, bind, get_self.
  rewrite bool_decide_eq_false_2 by exact Hsel.
  unfold try_finally.
  destruct (try_except _ _ st) as [s1 r]. reflexivity.
Qed.

Lemma refresh_emails_frame_witness :
  let st' := fst (refresh_emails demo_lib refusing_net demo_state) in
  snd (refresh_emails demo_lib refusing_net demo_state) = Ok tt
  /\ profile (self st') = profile (self demo_state)
  /\ storage (world st') = storage (world demo_state)
  /\ smtp_log (world st') = smtp_log (world demo_state)
  /\ progress_visible (self st') = false.
Proof.
  destruct (refresh_emails_frame demo_lib refusing_net demo_state)
    as (R & P & S & L & B).
  split; [exact R |]. split; [exact P |]. split; [exact S |].
  split; [exact L | apply B; discriminate].
Defined.

(** *** The IMAP calls of one run *)

Section Traffic.
Context (lib : Library) (net : Network) (P : ImapCmd -> Prop).

Lemma within_keeps {A} n (c : M A) :
  keeps (fun st => imap_log (world st)) c -> imap_within P n c.
Proof.
  intros H st. exists []. rewrite app_nil_r.
  split; [apply H |]. split; [cbn; lia | constructor].
Qed.

Lemma within_bind {A B} n m p (c : M A) (k : A -> M B) :
  imap_within P n c -> (forall a, imap_within P m (k a)) ->
  (n + m <= p)%nat -> imap_within P p (bind c k).
Proof.
  intros Hc Hk Hp st. unfold bind.
  destruct (Hc st) as (l1 & E1 & L1 & F1).
  destruct (c st) as [s1 [a|e]]; cbn in E1.
  - destruct (Hk a s1) as (l2 & E2 & L2 & F2).
    exists (l1 ++ l2). rewrite E2, E1, app_assoc.
    split; [reflexivity |].
    split; [rewrite length_app; lia | apply Forall_app; auto].
  - exists l1. cbn. split; [exact E1 |]. split; [lia | exact F1].
Qed.

Lemma within_mono {A} n p (c : M A) :
  imap_within P n c -> (n <= p)%nat -> imap_within P p c.
Proof.
  intros Hc Hp st. destruct (Hc st) as (l & E & L & F).
  exists l. split; [exact E |]. split; [lia | exact F].
Qed.

Lemma within_imap_call c : P c -> imap_within P 1 (imap_call net c).
Proof.
  intros Hc st. exists [c]. unfold imap_call. cbn.
  split; [reflexivity |]. split; [lia | repeat constructor; exact Hc].
Qed.

Lemma within_fetch_summary num :
  (forall message_parts, P (ImapFetch num message_parts)) ->
  imap_within P 2 (fetch_summary lib net num).
Proof.
  intros HP. unfold fetch_summary.
  apply (within_bind 1 1 2); [apply within_imap_call, HP | intros msg | lia].
  apply (within_bind 0 1 1); [apply within_keeps, keeps_getitem0
                             | intros msg0 | lia].
  apply (within_bind 0 1 1); [apply within_keeps, keeps_getitem1
                             | intros raw | lia].
  apply (within_bind 0 1 1); [apply within_keeps, keeps_parse_message
                             | intros email_msg | lia].
  apply (within_bind 1 0 1); [apply within_imap_call, HP | intros flags
                             | lia].
  apply within_keeps.
  repeat first
    [ apply keeps_getitem0 | apply keeps_item_decode | apply keeps_lift
    | apply keeps_ret | apply keeps_bind; [| intros ?] ].
Qed.

Lemma within_fetch_loop nums emails :
  (forall num message_parts, P (ImapFetch num message_parts)) ->
  imap_within P (2 * length nums) (fetch_loop lib net nums emails).
Proof.
  intros HP. revert emails.
  induction nums as [|num nums IH]; intros emails; cbn [fetch_loop].
  - apply within_keeps, keeps_ret.
  - apply (within_bind 2 (2 * length nums) _);
      [apply within_fetch_summary, HP | intros data; apply IH |].
    cbn [length]. lia.
Qed.

End Traffic.

Section Sessions.
Context (lib : Library) (net : Network).

Lemma within_refresh_session account password :
  imap_within in_session 43 (refresh_session lib net account password).
Proof.
  unfold refresh_session.
  apply (within_bind _ 1 42 43); [apply within_imap_call; exact I
                                 | intros _ | lia].
  apply (within_bind _ 1 41 42); [apply within_imap_call; exact I
                                 | intros _ | lia].
  apply (within_bind _ 1 40 41); [apply within_imap_call; exact I
                                 | intros messages | lia].
  apply (within_bind _ 0 40 40); [apply within_keeps, keeps_getitem0
                                 | intros messages0 | lia].
  apply (within_bind _ 0 40 40); [apply within_keeps, keeps_item_split
                                 | intros nums | lia].
  apply (within_bind _ 40 0 40); [| intros emails | lia].
  - eapply within_mono; [apply within_fetch_loop; intros; exact I |].
    rewrite slice_from_last, length_last_20. lia.
  - apply within_keeps. intros st. reflexivity.
Qed.

Lemma within_view_session account password row :
  imap_within in_session 4 (view_session lib net account password row).
Proof.
  unfold view_session.
  apply (within_bind _ 1 3 4); [apply within_imap_call; exact I
                               | intros _ | lia].
  apply (within_bind _ 1 2 3); [apply within_imap_call; exact I
                               | intros _ | lia].
  apply (within_bind _ 1 1 2); [apply within_imap_call; exact I
                               | intros messages | lia].
  apply (within_bind _ 0 1 1); [apply within_keeps, keeps_getitem0
                               | intros messages0 | lia].
  apply (within_bind _ 0 1 1); [apply within_keeps, keeps_item_split
                               | intros nums | lia].
  apply (within_bind _ 0 1 1); [| intros email_id | lia].
  { apply within_keeps.
    destruct (Py.index _ row); [apply keeps_ret | apply keeps_raise]. }
  apply (within_bind _ 1 0 1); [apply within_imap_call; exact I
                               | intros msg | lia].
  apply within_keeps.
  repeat first
    [ apply keeps_getitem0 | apply keeps_getitem1 | apply keeps_parse_message
    | apply keeps_lift | apply keeps_bind; [| intros ?] ].
  intros st. reflexivity.
Qed.

(** A [with] block over a body of at most [n] calls is one session. *)
Lemma with_imap_session {A} n settings (body : M A) st :
  imap_within in_session n body ->
  exists cmds,
    imap_log (world (fst (with_imap net (imap_server settings)
                            (imap_port settings) body st)))
    = imap_log (world st) ++ cmds
    /\ one_session net (imap_log (world st)) n settings cmds.
Proof.
  intros Hb. unfold with_imap, bind, imap_call, one_session. cbv zeta.
  destruct (imap net (imap_log (world st)) (ImapConnect _ _)) as [d|e] eqn:Hc.
  - match goal with
    | |- context [body ?s] => destruct (Hb s) as (inner & E & L & F);
                               destruct (body s) as [s2 r]
    end.
    cbn in E. eexists. split; [| right; exists d, inner; eauto].
    cbn [fst].
    destruct (imap net (imap_log (world s2)) ImapLogout) as [d'|e'];
      [| destruct (is_OSError e')]; cbn; rewrite E, <- !app_assoc;
      reflexivity.
  - eexists. split; [reflexivity |]. left. eauto.
Qed.

End Sessions.

Lemma refresh_try_traffic lib net account st :
  exists cmds,
    imap_log (world (fst (refresh_try lib net account st)))
    = imap_log (world st) ++ cmds
    /\ (cmds = []
        \/ exists accounts settings,
             config (self st) = Some accounts
             /\ dict_get account accounts = Some settings
             /\ one_session net (imap_log (world st)) 43 settings cmds).
Proof.
  unfold refresh_try.
  destruct (bind_cases (config_account account)
              (fun settings =>
                 password <- keyring_get_password "modern-mail" account ;;
                 on_self (with_progress true) ;;
                 with_imap net (imap_server settings) (imap_port settings)
                   (refresh_session lib net account password)) st)
    as [(s1 & settings & H1 & ->) | (s1 & e & H1 & ->)].
  2:{ exists []. rewrite app_nil_r. split; [| auto].
      pose proof (keeps_config_account (fun st => imap_log (world st))
                    account st) as K.
      rewrite H1 in K. exact K. }
  unfold config_account, config_accounts, bind, get_self, key_error, raise,
    ret in H1.
  destruct (config (self st)) as [accounts|] eqn:Hc; [| discriminate].
  destruct (dict_get account accounts) as [settings'|] eqn:Hg;
    [| discriminate].
  injection H1 as <- <-.
  unfold keyring_get_password, bind, get_world, raise, ret, on_self.
  destruct (vault_fault (world st)).
  { exists []. rewrite app_nil_r. auto. }
  cbn [fst snd].
  match goal with
  | |- context [with_imap _ _ _ ?body ?s] =>
      destruct (with_imap_session net 43 settings' body s
                  (within_refresh_session lib net _ _)) as (cmds & E & S)
  end.
  exists cmds. split; [exact E |]. right. exists accounts, settings'. auto.
Qed.

(** X2.  One [refresh_emails] talks to the server of the selected account
    only, and in one session at most: either it makes no IMAP call, or the
    connection fails and nothing follows, or the connection is followed by
    at most 43 calls (LOGIN, SELECT, SEARCH and two FETCH for each of at
    most twenty ids) and then, whatever happened in between, by the
    logout. *)
Theorem refresh_imap_traffic lib net st :
  exists cmds,
    imap_log (world (fst (refresh_emails lib net st)))
    = imap_log (world st) ++ cmds
    /\ (cmds = []
        \/ exists accounts settings,
             config (self st) = Some accounts
             /\ dict_get (selector_text (self st)) accounts = Some settings
             /\ one_session net (imap_log (world st)) 43 settings cmds).
Proof.
  unfold refresh_emails, bind, get_self.
  destruct (bool_decide _).
  { exists []. rewrite app_nil_r. auto. }
  destruct (refresh_try_traffic lib net (selector_text (self st)) st)
    as (cmds & E & H).
  exists cmds. split; [| exact H].
  unfold try_finally, try_except, show, on_self.
  destruct (refresh_try lib net _ st) as [s1 [[]|e]]; exact E.
Qed.

(** *** What one run shows *)

(** A step that keeps [view], followed by steps that establish [Q] from
    what [view] was: the whole establishes [Q], provided a raise does. *)
Lemma bind_post {A B V} (view : State -> V)
    (Q : V -> State * result B -> Prop) (c : M A) (k : A -> M B) :
  keeps view c ->
  (forall st e, Q (view st) (st, Raise e)) ->
  (forall a st, Q (view st) (k a st)) ->
  forall st, Q (view st) (bind c k st).
Proof.
  intros Hc Hr Hk st. unfold bind. specialize (Hc st).
  destruct (c st) as [s1 [a|e]]; cbn in Hc; rewrite <- Hc.
  - apply Hk.
  - apply Hr.
Qed.

Section Shown.
Context (lib : Library) (net : Network).

Lemma screen_imap st l :
  screen {| self := self st; world := with_imap_log l (world st) |}
  = screen st.
Proof. reflexivity. Qed.

Lemma view_session_shown account password row st :
  viewer_shown (shown (self st))
    (view_session lib net account password row st).
Proof.
  change (shown (self st)) with (screen st). revert st.
  unfold view_session.
  repeat (apply bind_post;
          [ first [ apply keeps_imap_call, screen_imap | apply keeps_getitem0
                  | apply keeps_getitem1 | apply keeps_item_split
                  | apply keeps_parse_message | apply keeps_lift
                  | destruct (Py.index _ row);
                    [apply keeps_ret | apply keeps_raise] ]
          | intros st e; reflexivity
          | intros ? ]).
  intros st. unfold show, on_self. cbn. eauto.
Qed.

Lemma view_try_shown account row st :
  match view_try lib net account row st with
  | (st', Ok _) => exists v, is_viewer v /\ screen st' = screen st ++ [v]
  | (st', Raise _) =>
      screen st' = screen st
      \/ exists v, is_viewer v /\ screen st' = screen st ++ [v]
  end.
Proof.
  unfold view_try.
  destruct (bind_cases (config_account account)
              (fun settings =>
                 password <- keyring_get_password "modern-mail" account ;;
                 with_imap net (imap_server settings) (imap_port settings)
                   (view_session lib net account password row)) st)
    as [(s1 & settings & H1 & ->) | (s1 & e & H1 & ->)].
  2:{ left. pose proof (keeps_config_account screen account st) as K.
      rewrite H1 in K. exact K. }
  pose proof (keeps_config_account screen account st) as K1.
  rewrite H1 in K1. cbn [fst] in K1. rewrite <- K1. clear K1 H1 st.
  match goal with
  | |- context [bind ?c ?k s1] =>
      destruct (bind_cases c k s1)
        as [(s2 & password & H2 & ->) | (s2 & e & H2 & ->)];
      pose proof (keeps_keyring_get_password screen "modern-mail" account s1)
        as K2; rewrite H2 in K2; cbn [fst] in K2; rewrite <- K2
  end.
  2:{ left. reflexivity. }
  clear K2 H2 s1.
  unfold with_imap, bind, imap_call.
  destruct (imap net (imap_log (world s2)) (ImapConnect _ _)) as [d|e].
  2:{ left. reflexivity. }
  match goal with
  | |- context [view_session _ _ _ _ _ ?s] =>
      pose proof (view_session_shown account password row s) as V;
      destruct (view_session lib net account password row s) as [s3 r]
  end.
  change (screen {| self := self s2; world := _ |}) with (screen s2) in V.
  unfold viewer_shown in V.
  destruct (imap net (imap_log (world s3)) ImapLogout) as [d'|e'];
    [| destruct (is_OSError e')]; destruct r as [[]|e]; cbn;
    unfold is_viewer;
    first [ destruct V as (labels & body & label & V); eauto 8
          | left; exact V ].
Qed.

End Shown.

(** X3.  Whatever the server and the library answer, [view_email] returns
    normally and leaves the accounts, the pending settings, the selector,
    the attachments, the table, the progress bar, the files, the keyring
    and the SMTP log as they were.  With no account selected it shows
    nothing; otherwise it shows the viewer, or one warning, or the viewer
    and then one warning (the case of a session that cannot be left
    cleanly after the viewer was closed). *)
Theorem view_email_outcome lib net row st :
  let st' := fst (view_email lib net row st) in
  snd (view_email lib net row st) = Ok tt
  /\ profile (self st') = profile (self st)
  /\ email_table (self st') = email_table (self st)
  /\ progress_visible (self st') = progress_visible (self st)
  /\ storage (world st') = storage (world st)
  /\ smtp_log (world st') = smtp_log (world st)
  /\ exists evs,
       shown (self st') = shown (self st) ++ evs
       /\ (selector_text (self st) = EmptyString /\ evs = []
           \/ selector_text (self st) <> EmptyString
              /\ ((exists v, is_viewer v /\ evs = [v])
                  \/ (exists w, open_failed w /\ evs = [w])
                  \/ (exists v w,
                        is_viewer v /\ open_failed w /\ evs = [v; w]))).
Proof.
  cbv zeta. split; [apply view_email_returns |].
  pose proof (keeps_view_email lib net
                (fun st => (profile (self st), email_table (self st),
                            progress_visible (self st), storage (world st),
                            smtp_log (world st)))
                ltac:(intros [s w] l; reflexivity)
                ltac:(intros [s w] l; reflexivity) row st) as H.
  cbv beta in H.
  split; [exact (f_equal (fun x => fst (fst (fst (fst x)))) H) |].
  split; [exact (f_equal (fun x => snd (fst (fst (fst x)))) H) |].
  split; [exact (f_equal (fun x => snd (fst (fst x))) H) |].
  split; [exact (f_equal (fun x => snd (fst x)) H) |].
  split; [exact (f_equal snd H) |].
  clear H. unfold view_email, bind, get_self.
  destruct (decide (selector_text (self st) = EmptyString)) as [Hs | Hs].
  { rewrite bool_decide_eq_true_2 by exact Hs.
    exists []. rewrite app_nil_r. auto. }
  rewrite bool_decide_eq_false_2 by exact Hs.
  pose proof (view_try_shown lib net (selector_text (self st)) row st) as V.
  unfold try_except, show, on_self.
  destruct (view_try lib net _ row st) as [s1 [[]|e]]; unfold screen in V;
    cbn [fst self shown with_shown].
  - destruct V as (v & Hv & ->). exists [v]. eauto 8.
  - destruct V as [-> | (v & Hv & ->)].
    + eexists. split; [reflexivity |]. right. split; [exact Hs |].
      right. left. eexists. split; [exists e; reflexivity | reflexivity].
    + eexists. rewrite <- app_assoc. split; [reflexivity |].
      right. split; [exact Hs |]. right. right.
      eexists v, _. split; [exact Hv |].
      split; [exists e; reflexivity | reflexivity].
Qed.

(** X4.  One [view_email] talks to the server of the selected account
    only, and in one session at most: no IMAP call at all, or a connection
    that fails, or a connection followed by at most four calls (LOGIN,
    SELECT, SEARCH and one FETCH) and then by the logout. *)
Theorem view_imap_traffic lib net row st :
  exists cmds,
    imap_log (world (fst (view_email lib net row st)))
    = imap_log (world st) ++ cmds
    /\ (cmds = []
        \/ exists accounts settings,
             config (self st) = Some accounts
             /\ dict_get (selector_text (self st)) accounts = Some settings
             /\ one_session net (imap_log (world st)) 4 settings cmds).
Proof.
  unfold view_email, bind, get_self.
  destruct (bool_decide _).
  { exists []. rewrite app_nil_r. auto. }
  set (account := selector_text (self st)).
  assert (exists cmds,
            imap_log (world (fst (view_try lib net account row st)))
            = imap_log (world st) ++ cmds
            /\ (cmds = []
                \/ exists accounts settings,
                     config (self st) = Some accounts
                     /\ dict_get account accounts = Some settings
                     /\ one_session net (imap_log (world st)) 4 settings
                          cmds)) as (cmds & E & H).
  { unfold view_try, config_account, config_accounts, keyring_get_password,
      key_error, bind, get_self, get_world, raise, ret.
    destruct (config (self st)) as [accounts|] eqn:Hc.
    2:{ exists []. rewrite app_nil_r. auto. }
    destruct (dict_get account accounts) as [settings|] eqn:Hg.
    2:{ exists []. rewrite app_nil_r. auto. }
    destruct (vault_fault (world st)).
    { exists []. rewrite app_nil_r. auto. }
    match goal with
    | |- context [with_imap _ _ _ ?body ?s] =>
        destruct (with_imap_session net 4 settings body s
                    (within_view_session lib net _ _ _)) as (cmds & E & S)
    end.
    exists cmds. split; [exact E |]. right. exists accounts, settings.
    auto. }
  exists cmds. split; [| exact H].
  unfold try_except, show, on_self.
  destruct (view_try lib net account row st) as [s1 [[]|e]]; exact E.
Qed.

Section Table.
Context (lib : Library) (net : Network).

(** A session of [refresh_emails] that raises has not touched the window. *)
Lemma refresh_session_raised account password st :
  kept_if_raised self (self st)
    (refresh_session lib net account password st).
Proof.
  revert st. unfold refresh_session.
  repeat (apply bind_post;
          [ first [ apply keeps_imap_call; reflexivity | apply keeps_getitem0
                  | apply keeps_item_split
                  | apply keeps_fetch_loop; reflexivity ]
          | intros st e; reflexivity
          | intros ? ]).
  intros st. exact I.
Qed.

Lemma row_cells_filled emails :
  (length emails <= 20)%nat -> table_filled (row_cells <$> reverse emails).
Proof.
  intros H. split.
  - rewrite length_fmap, length_reverse. exact H.
  - apply Forall_fmap, Forall_forall. intros data _. reflexivity.
Qed.

Lemma refresh_session_table account password st :
  match refresh_session lib net account password st with
  | (s1, Ok _) =>
      exists table,
        table_filled table /\ self s1 = with_email_table table (self st)
  | (s1, Raise _) => self s1 = self st
  end.
Proof.
  pose proof (refresh_session_raised account password st) as R.
  destruct (refresh_session lib net account password st) as [s1 [[]|e]] eqn:H.
  - apply refresh_session_Ok in H as (h & line & rest & emails & _ & S & I & _).
    eexists. split; [| exact S].
    apply row_cells_filled. rewrite <- (length_fmap id), I.
    rewrite slice_from_last, length_last_20. lia.
  - exact R.
Qed.

(** The window after the [try] block of [refresh_emails]: as it was, or
    with the progress bar shown, or with the table filled as well; the
    last when the block returns. *)
Lemma refresh_try_self account st :
  let out := refresh_try lib net account st in
  let busy := with_progress true (self st) in
  (exists table,
     table_filled table /\ self (fst out) = with_email_table table busy)
  \/ (exists e, snd out = Raise e)
      /\ (self (fst out) = self st \/ self (fst out) = busy).
Proof.
  cbv zeta.
  unfold refresh_try, config_account, config_accounts, keyring_get_password,
    key_error, bind, get_self, get_world, raise, ret, on_self.
  destruct (config (self st)) as [accounts|]; [| right; eauto].
  destruct (dict_get account accounts) as [settings|]; [| right; eauto].
  destruct (vault_fault (world st)); [right; eauto |].
  unfold with_imap, bind, imap_call.
  destruct (imap net _ (ImapConnect _ _)) as [d|e]; [| right; eauto].
  match goal with
  | |- context [refresh_session _ _ _ _ ?s] =>
      pose proof (refresh_session_table account
                    (vault (world st) !! ("modern-mail", account)) s) as T;
      destruct (refresh_session lib net account
                  (vault (world st) !! ("modern-mail", account)) s)
        as [s2 r]
  end.
  cbn [self] in T.
  destruct (imap net (imap_log (world s2)) ImapLogout) as [d'|e'];
    [| destruct (is_OSError e')]; destruct r as [[]|e]; cbn;
    first [ left; exact T | right; eauto ].
Qed.

End Table.

(** X5.  What one [refresh_emails] leaves on the screen, whatever the
    server answers.  With no account selected, nothing changes.  Otherwise
    either no box is shown and the table has been filled again, with at
    most twenty rows of four cells, or exactly one warning is shown, and
    the table is as it was or has been filled in that way (the case of a
    session that cannot be left cleanly after the table was filled). *)
Theorem refresh_emails_outcome lib net st :
  let st' := fst (refresh_emails lib net st) in
  selector_text (self st) = EmptyString /\ st' = st
  \/ selector_text (self st) <> EmptyString
     /\ (shown (self st') = shown (self st)
         /\ table_filled (email_table (self st'))
         \/ exists w,
              fetch_failed w
              /\ shown (self st') = shown (self st) ++ [w]
              /\ (email_table (self st') = email_table (self st)
                  \/ table_filled (email_table (self st')))).
Proof.
  cbv zeta. unfold refresh_emails, bind, get_self.
  destruct (decide (selector_text (self st) = EmptyString)) as [Hs | Hs].
  { rewrite bool_decide_eq_true_2 by exact Hs. left. auto. }
  rewrite bool_decide_eq_false_2 by exact Hs. right. split; [exact Hs |].
  pose proof (refresh_try_self lib net (selector_text (self st)) st) as T.
  cbv zeta in T. unfold try_finally, try_except, show, on_self.
  destruct (refresh_try lib net _ st) as [s1 [[]|e]]; cbn [fst snd] in T |- *.
  - left. destruct T as [(table & F & ->) | ((e & He) & _)];
      [| discriminate].
    split; [reflexivity | exact F].
  - right. exists (Warning "Error" ("Failed to fetch emails: " +:+ exc_str e)).
    split; [exists e; reflexivity |].
    destruct T as [(table & F & ->) | (_ & [-> | ->])]; cbn; auto.
Qed.

(** *** Sending *)

(** Building the message reads files and changes nothing. *)
Lemma build_pure lib account to subject body paths st :
  fst (build lib account to subject body paths st) = st.
Proof. apply (keeps_build lib (fun st => st)). Qed.

Ltac found accounts settings msg :=
  right; exists accounts, settings, msg;
  repeat (split; [first [reflexivity | assumption] |]); cbv zeta.

(** X6.  The SMTP calls of one [send_email], decided by what the server
    answers.  Nothing is sent exactly when the account is not found, the
    keyring fails or the message cannot be built.  Otherwise the connection
    is tried, and that is all when it is refused; when it stands, STARTTLS
    follows; LOGIN follows when and only when STARTTLS was accepted, the
    message when and only when LOGIN was accepted; and a connection that
    stood is ended with QUIT in each of these cases. *)
Theorem send_email_protocol lib net dialog to subject body st :
  let account := selector_text (self st) in
  let h := smtp_log (world st) in
  exists cmds,
    smtp_log (world (fst (send_email lib net dialog to subject body st)))
    = h ++ cmds
    /\ (cmds = []
        /\ (config (self st) = None
            \/ (exists accounts,
                  config (self st) = Some accounts
                  /\ dict_get account accounts = None)
            \/ (exists e, vault_fault (world st) = Some e)
            \/ exists e,
                 snd (build lib account to subject body
                        (attachments (self st)) st) = Raise e)
        \/ exists accounts settings msg,
             config (self st) = Some accounts
             /\ dict_get account accounts = Some settings
             /\ vault_fault (world st) = None
             /\ snd (build lib account to subject body
                       (attachments (self st)) st) = Ok msg
             /\ let connect :=
                  SmtpConnect (smtp_server settings) (smtp_port settings) in
                let login :=
                  SmtpLogin account
                    (vault (world st) !! ("modern-mail", account)) in
                cmds = [connect]
                /\ (exists e, smtp net h connect = Raise e)
                \/ smtp net h connect = Ok tt
                   /\ (cmds = [connect; SmtpStarttls; SmtpQuit]
                       /\ (exists e,
                             smtp net (h ++ [connect]) SmtpStarttls = Raise e)
                       \/ smtp net (h ++ [connect]) SmtpStarttls = Ok tt
                          /\ (cmds = [connect; SmtpStarttls; login; SmtpQuit]
                              /\ (exists e,
                                    smtp net (h ++ [connect; SmtpStarttls])
                                      login = Raise e)
                              \/ smtp net (h ++ [connect; SmtpStarttls]) login
                                 = Ok tt
                                 /\ cmds = [connect; SmtpStarttls; login;
                                            SmtpSendMessage msg; SmtpQuit]))).
Proof.
  cbv zeta. unfold send_email, try_except, send_try.
  unfold config_account, config_accounts, keyring_get_password, key_error,
    bind, get_self, get_world, raise, ret.
  destruct (config (self st)) as [accounts|] eqn:Hc.
  2:{ exists []. rewrite app_nil_r. split; [reflexivity |]. left. auto. }
  destruct (dict_get (selector_text (self st)) accounts) as [settings|] eqn:Hg.
  2:{ exists []. rewrite app_nil_r. split; [reflexivity |]. left.
      split; [reflexivity |]. right. left. exists accounts. auto. }
  destruct (vault_fault (world st)) as [ev|] eqn:Hv.
  { exists []. rewrite app_nil_r. split; [reflexivity |]. left.
    split; [reflexivity |]. right. right. left. exists ev. reflexivity. }
  pose proof (build_pure lib (selector_text (self st)) to subject body
                (attachments (self st)) st) as Hp.
  destruct (build lib _ to subject body _ st) as [s1 [msg|e]] eqn:Hb;
    cbn [fst] in Hp; subst s1.
  2:{ exists []. rewrite app_nil_r. split; [reflexivity |]. left.
      split; [reflexivity |]. right. right. right. exists e. reflexivity. }
  unfold with_smtp, smtp_call, bind, show, on_self. cbn.
  destruct (smtp net (smtp_log (world st)) (SmtpConnect _ _)) as [[]|e1]
    eqn:H1; cbn.
  2:{ eexists. split; [reflexivity |]. found accounts settings msg.
      left. split; [reflexivity | exists e1; exact H1]. }
  destruct (smtp net (smtp_log (world st) ++ [_]) SmtpStarttls) as [[]|e2]
    eqn:H2; cbn.
  2:{ eexists. split.
      - destruct (smtp net _ SmtpQuit) as [[]|e];
          [| destruct (is_SMTPServerDisconnected e)]; cbn;
          rewrite <- !app_assoc; reflexivity.
      - found accounts settings msg.
        right. split; [exact H1 |]. left.
        split; [reflexivity | exists e2; exact H2]. }
  rewrite <- !app_assoc. cbn [app].
  destruct (smtp net (smtp_log (world st) ++ [_; _]) (SmtpLogin _ _))
    as [[]|e3] eqn:H3; cbn.
  2:{ eexists. split.
      - destruct (smtp net _ SmtpQuit) as [[]|e];
          [| destruct (is_SMTPServerDisconnected e)]; cbn;
          rewrite <- !app_assoc; reflexivity.
      - found accounts settings msg.
        right. split; [exact H1 |]. right. split; [exact H2 |].
        left. split; [reflexivity | exists e3; exact H3]. }
  eexists. split.
  - destruct (smtp net _ (SmtpSendMessage msg)) as [[]|e4]; cbn;
      (destruct (smtp net _ SmtpQuit) as [[]|e];
       [| destruct (is_SMTPServerDisconnected e)]); cbn;
      rewrite <- !app_assoc; reflexivity.
  - found accounts settings msg.
    right. split; [exact H1 |]. right. split; [exact H2 |].
    right. split; [exact H3 | reflexivity].
Qed.

Lemma send_try_shown lib net dialog to subject body st :
  sent_shown dialog (shown (self st))
    (send_try lib net dialog to subject body st).
Proof.
  change (shown (self st)) with (screen st). revert st. unfold send_try.
  apply bind_post; [apply keeps_get_self | reflexivity | intros s].
  apply bind_post; [apply keeps_config_account | reflexivity
                   | intros settings].
  apply bind_post; [apply keeps_keyring_get_password | reflexivity
                   | intros password].
  apply bind_post; [apply keeps_build | reflexivity | intros msg].
  apply bind_post; [| reflexivity | intros _].
  - apply keeps_with_smtp; [reflexivity |].
    repeat first [ apply keeps_smtp_call; reflexivity
                 | apply keeps_bind; [| intros ?] ].
  - intros st. unfold bind, show, on_self, screen. cbn.
    rewrite <- app_assoc. reflexivity.
Qed.

(** X7.  Whatever the server and the library answer, [send_email] returns
    normally and leaves the accounts, the pending settings, the selector,
    the attachments, the table, the progress bar, the files, the keyring
    and the IMAP log as they were; and it reports exactly one outcome:
    the success box followed by the closing of the dialog, or one error
    box, the dialog staying open. *)
Theorem send_email_outcome lib net dialog to subject body st :
  let st' := fst (send_email lib net dialog to subject body st) in
  snd (send_email lib net dialog to subject body st) = Ok tt
  /\ profile (self st') = profile (self st)
  /\ email_table (self st') = email_table (self st)
  /\ progress_visible (self st') = progress_visible (self st)
  /\ storage (world st') = storage (world st)
  /\ imap_log (world st') = imap_log (world st)
  /\ (shown (self st')
      = shown (self st) ++ [Information "Success" "Email sent successfully!";
                            Accepted dialog]
      \/ exists e,
           shown (self st')
           = shown (self st)
             ++ [Critical "Error" ("Failed to send email: " +:+ exc_str e)]).
Proof.
  cbv zeta. split; [apply send_email_returns |].
  pose proof (keeps_send_email lib net
                (fun st => (profile (self st), email_table (self st),
                            progress_visible (self st), storage (world st),
                            imap_log (world st)))
                ltac:(intros [s w] l; reflexivity)
                ltac:(intros [s w] l; reflexivity)
                dialog to subject body st) as H.
  cbv beta in H.
  split; [exact (f_equal (fun x => fst (fst (fst (fst x)))) H) |].
  split; [exact (f_equal (fun x => snd (fst (fst (fst x)))) H) |].
  split; [exact (f_equal (fun x => snd (fst (fst x))) H) |].
  split; [exact (f_equal (fun x => snd (fst x)) H) |].
  split; [exact (f_equal snd H) |].
  clear H. pose proof (send_try_shown lib net dialog to subject body st) as S.
  unfold send_email, try_except, show, on_self.
  destruct (send_try lib net dialog to subject body st) as [s1 [[]|e]];
    cbn in S |- *.
  - left. exact S.
  - right. exists e. rewrite S. reflexivity.
Qed.

Lemma bind_raise {A B} (c : M A) (k : A -> M B) st s1 e :
  c st = (s1, Raise e) -> bind c k st = (s1, Raise e).
Proof. unfold bind. intros ->. reflexivity. Qed.

(** The loop over the attached files stops at the first one that is not
    there. *)
Lemma attach_files_missing lib pre path rest hs d parts st :
  disk_fault (world st) = None ->
  Forall (fun p => is_Some (files (world st) !! p)) pre ->
  files (world st) !! path = None ->
  attach_files lib (pre ++ path :: rest) (Multi hs d parts) st
  = (st, Raise (mkExc FileNotFoundError
                  ("[Errno 2] No such file or directory: "
                   +:+ Py.repr path))).
Proof.
  intros Hd Hall Hf. revert parts.
  induction Hall as [|p pre [data Hp] Hall IH]; intros parts.
  - cbn [app attach_files]. apply bind_raise.
    unfold read_file, bind, get_world. rewrite Hd, Hf. reflexivity.
  - cbn [app attach_files].
    erewrite bind_step by (apply read_file_eq; eassumption).
    erewrite bind_step by reflexivity.
    erewrite bind_step by reflexivity.
    apply IH.
Qed.

(** X8.  When one of the attached files is not on the disk, [send_email]
    makes no SMTP call at all: it shows one error box that names the first
    such file, and nothing else changes. *)
Theorem send_email_missing_file lib net dialog to subject body st
    accounts settings pre path rest :
  config (self st) = Some accounts ->
  dict_get (selector_text (self st)) accounts = Some settings ->
  vault_fault (world st) = None ->
  disk_fault (world st) = None ->
  attachments (self st) = pre ++ path :: rest ->
  Forall (fun p => is_Some (files (world st) !! p)) pre ->
  files (world st) !! path = None ->
  send_email lib net dialog to subject body st
  = ({| self :=
          with_shown
            (shown (self st)
             ++ [Critical "Error"
                   ("Failed to send email: "
                    +:+ "[Errno 2] No such file or directory: "
                    +:+ Py.repr path)])
            (self st);
        world := world st |}, Ok tt).
Proof.
  intros Hc Hg Hv Hd Ha Hall Hf.
  unfold send_email, try_except.
  assert (send_try lib net dialog to subject body st
          = (st, Raise (mkExc FileNotFoundError
                          ("[Errno 2] No such file or directory: "
                           +:+ Py.repr path)))) as ->.
  { unfold send_try.
    erewrite bind_step by reflexivity.
    erewrite bind_step by (eapply config_account_eq; eassumption).
    erewrite bind_step by (apply keyring_get_password_eq; exact Hv).
    apply bind_raise. unfold build.
    erewrite bind_step by reflexivity.
    rewrite Ha. apply attach_files_missing; assumption. }
  reflexivity.
Qed.

Lemma send_email_missing_file_witness :
  send_email demo_lib demo_net 1 "bob@example.com" "Hi" "Hello"
    lost_file_state
  = ({| self :=
          with_shown
            (shown (self lost_file_state)
             ++ [Critical "Error"
                   ("Failed to send email: "
                    +:+ "[Errno 2] No such file or directory: "
                    +:+ Py.repr "/home/alice/gone.txt")])
            (self lost_file_state);
        world := world lost_file_state |}, Ok tt).
Proof.
  apply (send_email_missing_file demo_lib demo_net 1 "bob@example.com" "Hi"
           "Hello" lost_file_state [("alice@example.com", gmail)] gmail
           ["/home/alice/report.pdf"] "/home/alice/gone.txt" []).
  - reflexivity.
  - reflexivity.
  - reflexivity.
  - reflexivity.
  - reflexivity.
  - repeat constructor. vm_compute. eauto.
  - vm_compute. reflexivity.
Defined.

(** *** Adding accounts *)

Section Dicts.
Context {V : Type}.
Implicit Types (d : list (string * V)) (k : string) (v : V).

Lemma dict_get_set k v d : dict_get k (dict_set k v d) = Some v.
Proof.
  induction d as [|[k' v'] d IH]; cbn.
  - rewrite bool_decide_eq_true_2 by reflexivity. reflexivity.
  - destruct (decide (k' = k)) as [-> | Hne].
    + rewrite bool_decide_eq_true_2 by reflexivity. cbn.
      rewrite bool_decide_eq_true_2 by reflexivity. reflexivity.
    + rewrite bool_decide_eq_false_2 by exact Hne. cbn.
      rewrite bool_decide_eq_false_2 by exact Hne. exact IH.
Qed.

Lemma dict_get_set_ne k k' v d :
  k' <> k -> dict_get k' (dict_set k v d) = dict_get k' d.
Proof.
  intros Hne. induction d as [|[k0 v0] d IH]; cbn.
  - rewrite bool_decide_eq_false_2 by congruence. reflexivity.
  - destruct (decide (k0 = k)) as [-> | Hk].
    + rewrite bool_decide_eq_true_2 by reflexivity. cbn.
      rewrite !bool_decide_eq_false_2 by congruence. reflexivity.
    + rewrite bool_decide_eq_false_2 by exact Hk. cbn.
      destruct (bool_decide (k0 = k')); [reflexivity | exact IH].
Qed.

Lemma dict_keys_set k v d :
  dict_keys (dict_set k v d)
  = if decide (k ∈ dict_keys d) then dict_keys d else dict_keys d ++ [k].
Proof.
  unfold dict_keys. induction d as [|[k' v'] d IH]; cbn.
  - rewrite decide_False by apply not_elem_of_nil. reflexivity.
  - destruct (decide (k' = k)) as [-> | Hne].
    + rewrite bool_decide_eq_true_2 by reflexivity.
      rewrite decide_True by left. reflexivity.
    + rewrite bool_decide_eq_false_2 by exact Hne. cbn. rewrite IH.
      destruct (decide (k ∈ d.*1)) as [Hin | Hin].
      * rewrite decide_True by (right; exact Hin). reflexivity.
      * rewrite decide_False; [reflexivity |].
        intros [E | H]%elem_of_cons; [congruence | exact (Hin H)].
Qed.

Lemma dict_keys_set_NoDup k v d :
  NoDup (dict_keys d) -> NoDup (dict_keys (dict_set k v d)).
Proof.
  intros H. rewrite dict_keys_set.
  destruct (decide (k ∈ dict_keys d)) as [Hin | Hin]; [exact H |].
  apply NoDup_app. split; [exact H |]. split.
  - intros x Hx [->|[]%elem_of_nil]%elem_of_cons. exact (Hin Hx).
  - apply NoDup_singleton.
Qed.

Lemma first_key_set k v d :
  first_key (dict_set k v d) = match d with [] => k | _ => first_key d end.
Proof.
  destruct d as [|[k' v'] d]; [reflexivity |]. cbn.
  destruct (bool_decide (k' = k)) eqn:E; [| reflexivity].
  apply bool_decide_eq_true in E. cbn. congruence.
Qed.

Lemma dict_get_first d :
  d <> [] -> is_Some (dict_get (first_key d) d).
Proof.
  destruct d as [|[k v] d]; [congruence |]. intros _. cbn.
  rewrite bool_decide_eq_true_2 by reflexivity. eauto.
Qed.

Lemma dict_set_nonempty k v d : dict_set k v d <> [].
Proof.
  destruct d as [|[k' v'] d]; cbn; [discriminate |].
  destruct (bool_decide (k' = k)); discriminate.
Qed.

End Dicts.

(** [save_account] up to its last step, when the keyring and the disk
    work. *)
Lemma save_account_eq lib net dialog email password st setup accounts :
  current_setup (self st) = Some setup ->
  config (self st) = Some accounts ->
  vault_fault (world st) = None ->
  disk_fault (world st) = None ->
  save_account lib net dialog email password st
  = refresh_emails lib net (saved lib dialog email password setup accounts st).
Proof.
  intros Hs Hc Hv Hd.
  unfold save_account, config_accounts, keyring_set_password, save_config,
    path_write_text, update_account_list, show.
  unfold bind, get_self, get_world, on_self, on_world, ret. cbn.
  rewrite Hs, Hc. cbn. rewrite Hv. cbn. rewrite Hd. cbn.
  f_equal. unfold saved. cbv zeta.
  rewrite lookup_insert_eq. cbn. rewrite insert_insert_eq.
  destruct (dict_set email setup accounts) as [|[k v] d] eqn:E.
  { exfalso. exact (dict_set_nonempty _ _ _ E). }
  reflexivity.
Qed.

Lemma refresh_emails_shown lib net st :
  exists evs,
    shown (self (fst (refresh_emails lib net st))) = shown (self st) ++ evs.
Proof.
  unfold refresh_emails, bind, get_self.
  destruct (bool_decide _).
  { exists []. rewrite app_nil_r. reflexivity. }
  pose proof (keeps_refresh_try lib net screen
                ltac:(reflexivity) ltac:(reflexivity) ltac:(reflexivity)
                (selector_text (self st)) st) as K.
  unfold try_finally, try_except, show, on_self.
  destruct (refresh_try lib net _ st) as [s1 [[]|e]]; unfold screen in K;
    cbn in K |- *; rewrite K.
  - exists []. rewrite app_nil_r. reflexivity.
  - eexists. reflexivity.
Qed.

(** The state [save_account] ends in, when the keyring and the disk work:
    the refresh at its end changes none of this. *)
Lemma save_account_fields lib net dialog email password st setup accounts :
  current_setup (self st) = Some setup ->
  config (self st) = Some accounts ->
  vault_fault (world st) = None ->
  disk_fault (world st) = None ->
  let out := save_account lib net dialog email password st in
  let accounts' := dict_set email setup accounts in
  snd out = Ok tt
  /\ config (self (fst out)) = Some accounts'
  /\ current_setup (self (fst out)) = Some setup
  /\ selector_items (self (fst out)) = dict_keys accounts'
  /\ selector_text (self (fst out)) = first_key accounts'
  /\ attachments (self (fst out)) = attachments (self st)
  /\ files (world (fst out))
     = <[CONFIG_FILE := json_dumps lib (Some accounts')]> (files (world st))
  /\ disk_fault (world (fst out)) = None
  /\ vault (world (fst out))
     = <[("modern-mail", email) := password]> (vault (world st))
  /\ vault_fault (world (fst out)) = None.
Proof.
  intros Hs Hc Hv Hd. cbv zeta.
  rewrite (save_account_eq lib net dialog email password st setup accounts)
    by assumption.
  split; [apply refresh_emails_returns |].
  pose proof (keeps_refresh_emails lib net
                (fun st => (profile (self st), storage (world st)))
                ltac:(intros [s w] l; reflexivity)
                ltac:(intros [s w] l; reflexivity)
                ltac:(intros [s w] l; reflexivity)
                ltac:(intros [s w] l; reflexivity)
                (saved lib dialog email password setup accounts st)) as K.
  cbv beta in K. unfold profile, storage in K.
  injection K as K1 K2 K3 K4 K5 K6 K7 K8 K9.
  repeat split; (etransitivity; [eassumption |]); cbn;
    rewrite ?Hs, ?Hv, ?Hd; reflexivity.
Qed.

(** X9.  When a provider button was pressed and the keyring and the disk
    work, [save_account] returns normally, whatever the refresh at its end
    runs into.  Afterwards the account is in [config] with the pending
    settings, the other accounts are as they were, the keyring holds the
    password under the address and nothing else has changed in it, the
    settings file holds the new configuration, and the dialog was
    closed. *)
Theorem save_account_stores lib net dialog email password st setup
    accounts :
  current_setup (self st) = Some setup ->
  config (self st) = Some accounts ->
  vault_fault (world st) = None ->
  disk_fault (world st) = None ->
  let out := save_account lib net dialog email password st in
  let accounts' := dict_set email setup accounts in
  snd out = Ok tt
  /\ config (self (fst out)) = Some accounts'
  /\ dict_get email accounts' = Some setup
  /\ (forall other, other <> email ->
        dict_get other accounts' = dict_get other accounts)
  /\ vault (world (fst out)) !! ("modern-mail", email) = Some password
  /\ (forall key, key <> ("modern-mail", email) ->
        vault (world (fst out)) !! key = vault (world st) !! key)
  /\ files (world (fst out)) !! CONFIG_FILE
     = Some (json_dumps lib (Some accounts'))
  /\ Accepted dialog ∈ shown (self (fst out)).
Proof.
  intros Hs Hc Hv Hd. cbv zeta.
  destruct (save_account_fields lib net dialog email password st setup
              accounts Hs Hc Hv Hd)
    as (R & C & _ & _ & _ & _ & F & _ & K & _).
  split; [exact R |]. split; [exact C |].
  split; [apply dict_get_set |].
  split; [intros other Hne; apply dict_get_set_ne, Hne |].
  split; [rewrite K; apply lookup_insert_eq |].
  split; [intros key Hne; rewrite K; apply lookup_insert_ne; congruence |].
  split; [rewrite F; apply lookup_insert_eq |].
  rewrite (save_account_eq lib net dialog email password st setup accounts)
    by assumption.
  destruct (refresh_emails_shown lib net
              (saved lib dialog email password setup accounts st))
    as (evs & ->).
  cbn. rewrite !elem_of_app, list_elem_of_singleton. auto.
Qed.

Lemma save_account_stores_witness :
  let out :=
    save_account demo_lib demo_net 1 "bob@example.com" "secret"
      ready_state in
  let accounts' :=
    dict_set "bob@example.com" gmail [("alice@example.com", gmail)] in
  snd out = Ok tt
  /\ config (self (fst out)) = Some accounts'
  /\ dict_get "bob@example.com" accounts' = Some gmail
  /\ (forall other, other <> "bob@example.com" ->
        dict_get other accounts'
        = dict_get other [("alice@example.com", gmail)])
  /\ vault (world (fst out)) !! ("modern-mail", "bob@example.com")
     = Some "secret"
  /\ (forall key, key <> ("modern-mail", "bob@example.com") ->
        vault (world (fst out)) !! key = vault (world ready_state) !! key)
  /\ files (world (fst out)) !! CONFIG_FILE
     = Some (json_dumps demo_lib (Some accounts'))
  /\ Accepted 1 ∈ shown (self (fst out)).
Proof.
  apply (save_account_stores demo_lib demo_net 1 "bob@example.com" "secret"
           ready_state gmail [("alice@example.com", gmail)]);
    reflexivity.
Defined.

(** X10.  In the same case the account selector lists the addresses of
    [config] in their order: an address that was already there keeps its
    place and is not listed twice, a new address goes last; and the
    selector shows the first address of the list, which is the new one
    only when there was no account before. *)
Theorem save_account_lists lib net dialog email password st setup accounts :
  current_setup (self st) = Some setup ->
  config (self st) = Some accounts ->
  vault_fault (world st) = None ->
  disk_fault (world st) = None ->
  let st' := fst (save_account lib net dialog email password st) in
  selector_items (self st')
  = (if decide (email ∈ dict_keys accounts) then dict_keys accounts
     else dict_keys accounts ++ [email])
  /\ (NoDup (dict_keys accounts) -> NoDup (selector_items (self st')))
  /\ selector_text (self st')
     = match accounts with [] => email | _ => first_key accounts end.
Proof.
  intros Hs Hc Hv Hd. cbv zeta.
  destruct (save_account_fields lib net dialog email password st setup
              accounts Hs Hc Hv Hd)
    as (_ & _ & _ & I & T & _).
  rewrite I, T. split; [apply dict_keys_set |].
  split; [apply dict_keys_set_NoDup | apply first_key_set].
Qed.

Lemma save_account_lists_witness :
  let st' :=
    fst (save_account demo_lib demo_net 1 "bob@example.com" "secret"
           ready_state) in
  selector_items (self st')
  = (if decide ("bob@example.com" ∈ ["alice@example.com"])
     then ["alice@example.com"]
     else ["alice@example.com"] ++ ["bob@example.com"])
  /\ (NoDup ["alice@example.com"] -> NoDup (selector_items (self st')))
  /\ selector_text (self st') = "alice@example.com".
Proof.
  apply (save_account_lists demo_lib demo_net 1 "bob@example.com" "secret"
           ready_state gmail [("alice@example.com", gmail)]);
    reflexivity.
Defined.

(** X11.  The pending settings outlive the dialog: nothing removes
    [current_setup], so a second [save_account], with no provider button
    pressed in between, stores the second address with the settings of the
    first. *)
Theorem save_account_reuses_setup lib net dialog email password dialog'
    email' password' st setup accounts :
  current_setup (self st) = Some setup ->
  config (self st) = Some accounts ->
  vault_fault (world st) = None ->
  disk_fault (world st) = None ->
  let st1 := fst (save_account lib net dialog email password st) in
  let st2 := fst (save_account lib net dialog' email' password' st1) in
  let accounts2 := dict_set email' setup (dict_set email setup accounts) in
  current_setup (self st1) = Some setup
  /\ config (self st2) = Some accounts2
  /\ dict_get email' accounts2 = Some setup
  /\ dict_get email accounts2 = Some setup.
Proof.
  intros Hs Hc Hv Hd. cbv zeta.
  destruct (save_account_fields lib net dialog email password st setup
              accounts Hs Hc Hv Hd)
    as (_ & C1 & S1 & _ & _ & _ & _ & D1 & _ & V1).
  destruct (save_account_fields lib net dialog' email' password' _ setup
              _ S1 C1 V1 D1)
    as (_ & C2 & _).
  split; [exact S1 |]. split; [exact C2 |].
  split; [apply dict_get_set |].
  destruct (decide (email = email')) as [-> | Hne].
  - apply dict_get_set.
  - rewrite dict_get_set_ne by exact Hne. apply dict_get_set.
Qed.

Lemma save_account_reuses_setup_witness :
  let st1 :=
    fst (save_account demo_lib demo_net 1 "bob@example.com" "secret"
           ready_state) in
  let st2 :=
    fst (save_account demo_lib demo_net 2 "carol@example.org" "pass"
           st1) in
  let accounts2 :=
    dict_set "carol@example.org" gmail
      (dict_set "bob@example.com" gmail [("alice@example.com", gmail)]) in
  current_setup (self st1) = Some gmail
  /\ config (self st2) = Some accounts2
  /\ dict_get "carol@example.org" accounts2 = Some gmail
  /\ dict_get "bob@example.com" accounts2 = Some gmail.
Proof.
  apply (save_account_reuses_setup demo_lib demo_net 1 "bob@example.com"
           "secret" 2 "carol@example.org" "pass" ready_state gmail
           [("alice@example.com", gmail)]);
    reflexivity.
Defined.

(** X12.  When the keyring works and the disk does not, [save_account]
    raises the error of the disk after the entry was made in [config] and
    the password was stored: the keyring holds a password for an account
    that the settings file does not have, the selector is not filled
    again, the dialog stays open and no refresh is made.  The settings file
    is as it was when it could not be opened; when the write failed it has
    lost what it held and holds only what reached it of the new text,
    nothing at all in the extreme. *)
Theorem save_account_disk_failure lib net dialog email password st setup
    accounts f :
  current_setup (self st) = Some setup ->
  config (self st) = Some accounts ->
  vault_fault (world st) = None ->
  disk_fault (world st) = Some f ->
  let accounts' := dict_set email setup accounts in
  let stored :=
    with_vault (<[("modern-mail", email) := password]> (vault (world st)))
      (world st) in
  save_account lib net dialog email password st
  = ({| self := with_config (Some accounts') (self st);
        world :=
          match f with
          | OpenFails _ => stored
          | WriteFails written _ =>
              with_files
                (<[CONFIG_FILE :=
                     substring 0 written (json_dumps lib (Some accounts'))]>
                   (files (world st)))
                stored
          end |}, Raise (fault_exc f)).
Proof.
  intros Hs Hc Hv Hd. cbv zeta.
  assert (Happ : forall x, EmptyString +:+ x = x) by reflexivity.
  unfold save_account, config_accounts, keyring_set_password, save_config,
    path_write_text.
  unfold bind, get_self, get_world, on_self, on_world, ret, raise. cbn.
  rewrite Hs, Hc. cbn. rewrite Hv. cbn. rewrite Hd.
  destruct f as [e | written e]; cbn; [reflexivity |].
  rewrite lookup_insert_eq. cbn. rewrite Happ, insert_insert_eq.
  reflexivity.
Qed.

Lemma save_account_disk_failure_witness :
  save_account demo_lib demo_net 1 "bob@example.com" "secret"
    full_disk_state
  = ({| self := with_config
                  (Some (dict_set "bob@example.com" gmail
                           [("alice@example.com", gmail)]))
                  (self full_disk_state);
        world :=
          with_files
            (<[CONFIG_FILE := EmptyString]> (files (world full_disk_state)))
            (with_vault (<[("modern-mail", "bob@example.com") := "secret"]>
                           (vault (world full_disk_state)))
               (world full_disk_state)) |}, Raise disk_full).
Proof.
  apply (save_account_disk_failure demo_lib demo_net 1 "bob@example.com"
           "secret" full_disk_state gmail [("alice@example.com", gmail)]
           (WriteFails 0 disk_full));
    reflexivity.
Defined.

(** A refresh for an account that is configured, with a keyring that
    works, goes as far as the connection at least. *)
Lemma refresh_emails_session lib net st accounts settings :
  selector_text (self st) <> EmptyString ->
  config (self st) = Some accounts ->
  dict_get (selector_text (self st)) accounts = Some settings ->
  vault_fault (world st) = None ->
  exists cmds,
    imap_log (world (fst (refresh_emails lib net st)))
    = imap_log (world st) ++ cmds
    /\ one_session net (imap_log (world st)) 43 settings cmds.
Proof.
  intros Hsel Hc Hg Hv.
  assert (exists cmds,
            imap_log (world (fst (refresh_try lib net
                                    (selector_text (self st)) st)))
            = imap_log (world st) ++ cmds
            /\ one_session net (imap_log (world st)) 43 settings cmds)
    as (cmds & E & S).
  { unfold refresh_try.
    erewrite bind_step by (eapply config_account_eq; eassumption).
    erewrite bind_step by (apply keyring_get_password_eq; exact Hv).
    erewrite bind_step by reflexivity.
    match goal with
    | |- context [with_imap _ _ _ ?body ?s] =>
        apply (with_imap_session net 43 settings body s)
    end.
    apply within_refresh_session. }
  exists cmds. split; [| exact S].
  unfold refresh_emails, bind, get_self.
  rewrite bool_decide_eq_false_2 by exact Hsel.
  unfold try_finally, try_except, show, on_self.
  destruct (refresh_try lib net _ st) as [s1 [[]|e]]; exact E.
Qed.

(** X13.  The refresh at the end of [save_account] is made for the account
    the selector shows then, the first of the list: its server is the one
    connected to, in one session that is logged out of at its end.  The
    account just added is refreshed only when it is the first. *)
Theorem save_account_refreshes_first lib net dialog email password st
    setup accounts :
  current_setup (self st) = Some setup ->
  config (self st) = Some accounts ->
  vault_fault (world st) = None ->
  disk_fault (world st) = None ->
  let first := match accounts with [] => email | _ => first_key accounts end in
  first <> EmptyString ->
  let st' := fst (save_account lib net dialog email password st) in
  exists settings cmds,
    dict_get first (dict_set email setup accounts) = Some settings
    /\ selector_text (self st') = first
    /\ imap_log (world st') = imap_log (world st) ++ cmds
    /\ one_session net (imap_log (world st)) 43 settings cmds.
Proof.
  intros Hs Hc Hv Hd first Hne. cbv zeta.
  destruct (save_account_fields lib net dialog email password st setup
              accounts Hs Hc Hv Hd)
    as (_ & _ & _ & _ & T & _).
  rewrite T. clear T.
  rewrite (save_account_eq lib net dialog email password st setup accounts)
    by assumption.
  assert (first_key (dict_set email setup accounts) = first) as Hf
    by apply first_key_set.
  destruct (dict_get_first (dict_set email setup accounts)
              (dict_set_nonempty _ _ _)) as [settings Hg].
  rewrite Hf in Hg.
  destruct (refresh_emails_session lib net
              (saved lib dialog email password setup accounts st)
              (dict_set email setup accounts) settings)
    as (cmds & E & S).
  - cbn. rewrite Hf. exact Hne.
  - reflexivity.
  - cbn. rewrite Hf. exact Hg.
  - exact Hv.
  - exists settings, cmds. split; [exact Hg |]. split; [exact Hf |].
    split; [exact E | exact S].
Qed.

Lemma save_account_refreshes_first_witness :
  let st' :=
    fst (save_account demo_lib demo_net 1 "bob@example.com" "secret"
           ready_state) in
  exists settings cmds,
    dict_get "alice@example.com"
      (dict_set "bob@example.com" gmail [("alice@example.com", gmail)])
    = Some settings
    /\ selector_text (self st') = "alice@example.com"
    /\ imap_log (world st') = imap_log (world ready_state) ++ cmds
    /\ one_session demo_net (imap_log (world ready_state)) 43 settings cmds.
Proof.
  apply (save_account_refreshes_first demo_lib demo_net 1 "bob@example.com"
           "secret" ready_state gmail [("alice@example.com", gmail)]);
    first [reflexivity | discriminate].
Defined.

(** [quick_setup] makes the dict of accounts when there is none and keeps
    the settings it is given. *)
Lemma quick_setup_eq smtp_host smtp_no imap_host imap_no st :
  quick_setup smtp_host smtp_no imap_host imap_no st
  = ({| self :=
          with_current_setup
            (Some {| smtp_server := smtp_host; smtp_port := smtp_no;
                     imap_server := imap_host; imap_port := imap_no |})
            (with_config (Some (default [] (config (self st)))) (self st));
        world := world st |}, Ok tt).
Proof.
  unfold quick_setup, bind, get_self, on_self, ret.
  destruct st as [s w]. destruct s as [c cs si stx a t p sh].
  destruct c as [accounts|]; reflexivity.
Qed.

(** X14.  A provider button and then the save button, with a keyring and a
    disk that work, always add the account, also on a client that has no
    configuration yet: [quick_setup] makes the missing dict of accounts, so
    [save_account] finds it.  The settings stored are those of the button;
    when there was no account before, the new one is the only one listed
    and the one the selector shows. *)
Theorem quick_setup_then_save lib net smtp_host smtp_no imap_host imap_no
    dialog email password st :
  vault_fault (world st) = None ->
  disk_fault (world st) = None ->
  let setup := {| smtp_server := smtp_host; smtp_port := smtp_no;
                  imap_server := imap_host; imap_port := imap_no |} in
  let accounts := default [] (config (self st)) in
  let out := (quick_setup smtp_host smtp_no imap_host imap_no ;;
              save_account lib net dialog email password) st in
  snd out = Ok tt
  /\ config (self (fst out)) = Some (dict_set email setup accounts)
  /\ dict_get email (dict_set email setup accounts) = Some setup
  /\ vault (world (fst out)) !! ("modern-mail", email) = Some password
  /\ (accounts = [] ->
      selector_items (self (fst out)) = [email]
      /\ selector_text (self (fst out)) = email).
Proof.
  intros Hv Hd. cbv zeta.
  rewrite (bind_step _ _ _ _ _ (quick_setup_eq _ _ _ _ st)).
  match goal with
  | |- context [save_account _ _ _ _ _ ?s] => set (st1 := s)
  end.
  destruct (save_account_fields lib net dialog email password st1
              {| smtp_server := smtp_host; smtp_port := smtp_no;
                 imap_server := imap_host; imap_port := imap_no |}
              (default [] (config (self st)))
              eq_refl eq_refl Hv Hd)
    as (R & C & _ & I & T & _ & _ & _ & K & _).
  split; [exact R |]. split; [exact C |].
  split; [apply dict_get_set |].
  split; [rewrite K; apply lookup_insert_eq |].
  intros E. rewrite I, T, E. split; reflexivity.
Qed.

Lemma quick_setup_then_save_witness :
  let out := (quick_setup "smtp.gmail.com" 587 "imap.gmail.com" 993 ;;
              save_account demo_lib demo_net 1 "bob@example.com" "secret")
               fresh_state in
  snd out = Ok tt
  /\ config (self (fst out)) = Some (dict_set "bob@example.com" gmail [])
  /\ dict_get "bob@example.com" (dict_set "bob@example.com" gmail [])
     = Some gmail
  /\ vault (world (fst out)) !! ("modern-mail", "bob@example.com")
     = Some "secret"
  /\ (@nil (string * Settings) = [] ->
      selector_items (self (fst out)) = ["bob@example.com"]
      /\ selector_text (self (fst out)) = "bob@example.com").
Proof.
  apply (quick_setup_then_save demo_lib demo_net "smtp.gmail.com" 587
           "imap.gmail.com" 993 1 "bob@example.com" "secret" fresh_state);
    reflexivity.
Defined.

(** *** The settings file, written and read *)



(** *** An account that is not configured *)

Lemma config_account_missing st k :
  missing_key st = Some k ->
  config_account (selector_text (self st)) st
  = (st, Raise (mkExc KeyError (Py.repr k))).
Proof.
  unfold missing_key, config_account, config_accounts, key_error.
  unfold bind, get_self, raise, ret.
  destruct (config (self st)) as [accounts|].
  - destruct (dict_get _ accounts); [discriminate |].
    intros H. injection H as <-. reflexivity.
  - intros H. injection H as <-. reflexivity.
Qed.

(** X16.  When [config] has no ['accounts'], or no entry for the address
    the selector shows, each of [send_email], [refresh_emails] and
    [view_email] fails on that lookup, before the keyring, the disk or a
    server is used: all it does is show its box, whose text ends with the
    missing key between quotes, as [str] of a [KeyError] gives it. *)
Theorem unknown_account lib net g st k :
  missing_key st = Some k ->
  match g with
  | GSend _ _ _ _ => True
  | _ => selector_text (self st) <> EmptyString
  end ->
  guarded_method lib net g st
  = (after_failure g (mkExc KeyError (Py.repr k)) st, Ok tt).
Proof.
  intros Hk Hsel. apply config_account_missing in Hk.
  destruct g as [dialog to subject body | | row];
    unfold guarded_method, after_failure.
  - unfold send_email, try_except, send_try.
    erewrite bind_step by reflexivity.
    erewrite bind_raise by exact Hk. reflexivity.
  - unfold refresh_emails, bind, get_self.
    rewrite bool_decide_eq_false_2 by exact Hsel.
    unfold try_finally, try_except, refresh_try.
    erewrite bind_raise by exact Hk. reflexivity.
  - unfold view_email, bind, get_self.
    rewrite bool_decide_eq_false_2 by exact Hsel.
    unfold try_except, view_try.
    erewrite bind_raise by exact Hk. reflexivity.
Qed.

Lemma unknown_account_witness :
  guarded_method demo_lib demo_net GRefresh stray_state
  = (after_failure GRefresh (mkExc KeyError (Py.repr "carol@example.org"))
       stray_state, Ok tt).
Proof.
  apply (unknown_account demo_lib demo_net GRefresh stray_state
           "carol@example.org").
  - reflexivity.
  - discriminate.
Defined.

(** The box of the example: the address between single quotes. *)
Example unknown_account_box :
  shown (self (fst (refresh_emails demo_lib demo_net stray_state)))
  = [Warning "Error" "Failed to fetch emails: 'carol@example.org'"]
  /\ shown (self (fst (send_email demo_lib demo_net 1 "bob@example.com"
                         "Hi" "Hello" fresh_state)))
     = [Critical "Error" "Failed to send email: 'accounts'"].
Proof. split; vm_compute; reflexivity. Qed.

(** *** Which message is opened *)

Section Viewing.
Context (lib : Library) (net : Network).

Lemma with_imap_run {A} host port (body : M A) st s2 r d d' :
  imap net (imap_log (world st)) (ImapConnect host port) = Ok d ->
  body {| self := self st;
          world := with_imap_log
                     (imap_log (world st) ++ [ImapConnect host port])
                     (world st) |} = (s2, r) ->
  imap net (imap_log (world s2)) ImapLogout = Ok d' ->
  with_imap net host port body st
  = ({| self := self s2;
        world := with_imap_log (imap_log (world s2) ++ [ImapLogout])
                               (world s2) |}, r).
Proof.
  intros Hc Hb Hl. unfold with_imap.
  erewrite bind_step by (apply imap_call_eq; exact Hc).
  rewrite Hb. unfold imap_call. rewrite Hl. reflexivity.
Qed.

(** The session of [view_email] against a server that answers every call:
    the calls it makes, and how it ends when the row is out of range. *)
Lemma view_session_log line account password row st :
  answers lib net line ->
  let ids := Py.slice_from (-20) (Py.bytes_split line) in
  let out := view_session lib net account password row st in
  imap_log (world (fst out))
  = imap_log (world st)
    ++ [ImapLogin account password; ImapSelect "INBOX"; ImapSearch "ALL"]
    ++ match Py.index ids row with
       | Some email_id => [ImapFetch email_id "(RFC822)"]
       | None => []
       end
  /\ (Py.index ids row = None ->
      self (fst out) = self st
      /\ snd out = Raise (mkExc IndexError "list index out of range")).
Proof.
  intros Ha. cbv zeta. unfold view_session.
  destruct (answers_login _ _ _ Ha (imap_log (world st)) account password)
    as (d1 & R1).
  erewrite bind_step by (apply imap_call_eq; exact R1).
  match goal with |- context [bind _ _ ?s] => set (s1 := s) end.
  destruct (answers_select _ _ _ Ha (imap_log (world s1)) "INBOX")
    as (d2 & R2).
  erewrite bind_step by (apply imap_call_eq; exact R2).
  match goal with |- context [bind _ _ ?s] => set (s2 := s) end.
  destruct (answers_search _ _ _ Ha (imap_log (world s2))) as (rest & R3).
  erewrite bind_step by (apply imap_call_eq; exact R3).
  erewrite bind_step by reflexivity.
  erewrite bind_step by reflexivity.
  match goal with |- context [bind _ _ ?s] => set (s3 := s) end.
  assert (imap_log (world s3)
          = imap_log (world st)
            ++ [ImapLogin account password; ImapSelect "INBOX";
                ImapSearch "ALL"]) as L3.
  { cbn. rewrite <- !app_assoc. reflexivity. }
  destruct (Py.index _ row) as [email_id|].
  2:{ erewrite bind_raise by reflexivity. cbn [fst snd].
      rewrite L3. auto. }
  split; [| discriminate].
  erewrite bind_step by reflexivity.
  destruct (answers_rfc822 _ _ _ Ha (imap_log (world s3)) email_id)
    as (a & b & rest' & dt & R4 & _).
  erewrite bind_step by (apply imap_call_eq; exact R4).
  match goal with
  | |- imap_log (world (fst (?c ?s))) = _ =>
      assert (keeps (fun st => imap_log (world st)) c) as K;
      [| rewrite (K s)]
  end.
  { repeat first
      [ apply keeps_getitem0 | apply keeps_getitem1
      | apply keeps_parse_message | apply keeps_lift
      | apply keeps_show; reflexivity
      | apply keeps_bind; [| intros ?] ]. }
  cbn [world imap_log with_imap_log]. rewrite L3, <- app_assoc.
  reflexivity.
Qed.

End Viewing.

(** [view_email] against a server that answers every call: the calls it
    makes, and what it shows when the row is out of range. *)
Lemma view_email_log lib net line row st accounts settings :
  selector_text (self st) <> EmptyString ->
  config (self st) = Some accounts ->
  dict_get (selector_text (self st)) accounts = Some settings ->
  vault_fault (world st) = None ->
  answers lib net line ->
  let account := selector_text (self st) in
  let ids := Py.slice_from (-20) (Py.bytes_split line) in
  let st' := fst (view_email lib net row st) in
  imap_log (world st')
  = imap_log (world st)
    ++ [ImapConnect (imap_server settings) (imap_port settings);
        ImapLogin account (vault (world st) !! ("modern-mail", account));
        ImapSelect "INBOX"; ImapSearch "ALL"]
    ++ match Py.index ids row with
       | Some email_id => [ImapFetch email_id "(RFC822)"]
       | None => []
       end
    ++ [ImapLogout]
  /\ (Py.index ids row = None ->
      shown (self st')
      = shown (self st)
        ++ [Warning "Error" "Failed to open email: list index out of range"]).
Proof.
  intros Hsel Hc Hg Hv Ha. cbv zeta.
  unfold view_email, bind, get_self.
  rewrite bool_decide_eq_false_2 by exact Hsel.
  unfold try_except, view_try.
  erewrite bind_step by (eapply config_account_eq; eassumption).
  erewrite bind_step by (apply keyring_get_password_eq; exact Hv).
  destruct (answers_connect _ _ _ Ha (imap_log (world st))
              (imap_server settings) (imap_port settings)) as (d0 & R0).
  set (account := selector_text (self st)).
  set (password := vault (world st) !! ("modern-mail", account)).
  set (s1 := {| self := self st;
                world := with_imap_log
                           (imap_log (world st)
                            ++ [ImapConnect (imap_server settings)
                                  (imap_port settings)])
                           (world st) |}).
  destruct (view_session_log lib net line account password row s1 Ha)
    as (L & N).
  destruct (view_session lib net account password row s1) as [s2 r] eqn:Hb.
  cbn [fst snd] in L, N.
  destruct (answers_logout _ _ _ Ha (imap_log (world s2))) as (d3 & R3).
  rewrite (with_imap_run net _ _ _ st s2 r d0 d3 R0 Hb R3).
  split.
  - transitivity (imap_log (world s2) ++ [ImapLogout]).
    { destruct r as [[]|e]; reflexivity. }
    rewrite L. cbn [s1 world imap_log with_imap_log].
    rewrite <- !app_assoc. reflexivity.
  - intros Hi. destruct (N Hi) as (S & ->). cbn. rewrite S. reflexivity.
Qed.

(** X17.  A row that is not among the ids listed opens nothing: against a
    server that answers every call, [view_email] for a row beyond the last
    twenty ids of the SEARCH answer (any row, when the mailbox is empty)
    connects, logs in, selects, searches and logs out without fetching a
    message, and shows the warning of the [IndexError]. *)
Theorem view_row_out_of_range lib net line row st accounts settings :
  selector_text (self st) <> EmptyString ->
  config (self st) = Some accounts ->
  dict_get (selector_text (self st)) accounts = Some settings ->
  vault_fault (world st) = None ->
  answers lib net line ->
  Py.index (Py.slice_from (-20) (Py.bytes_split line)) row = None ->
  let account := selector_text (self st) in
  let st' := fst (view_email lib net row st) in
  imap_log (world st')
  = imap_log (world st)
    ++ [ImapConnect (imap_server settings) (imap_port settings);
        ImapLogin account (vault (world st) !! ("modern-mail", account));
        ImapSelect "INBOX"; ImapSearch "ALL"; ImapLogout]
  /\ shown (self st')
     = shown (self st)
       ++ [Warning "Error" "Failed to open email: list index out of range"].
Proof.
  intros Hsel Hc Hg Hv Ha Hi. cbv zeta.
  destruct (view_email_log lib net line row st accounts settings
              Hsel Hc Hg Hv Ha) as (L & N).
  rewrite Hi in L. split; [exact L | exact (N Hi)].
Qed.

Lemma view_row_out_of_range_witness :
  let st' := fst (view_email demo_lib demo_net 3 demo_state) in
  imap_log (world st')
  = imap_log (world demo_state)
    ++ [ImapConnect (imap_server gmail) (imap_port gmail);
        ImapLogin "alice@example.com"
          (vault (world demo_state)
           !! ("modern-mail", "alice@example.com"));
        ImapSelect "INBOX"; ImapSearch "ALL"; ImapLogout]
  /\ shown (self st')
     = shown (self demo_state)
       ++ [Warning "Error" "Failed to open email: list index out of range"].
Proof.
  apply (view_row_out_of_range demo_lib demo_net "1 2 3" 3 demo_state
           [("alice@example.com", gmail)] gmail).
  - discriminate.
  - reflexivity.
  - reflexivity.
  - reflexivity.
  - exact demo_answers.
  - reflexivity.
Defined.

Lemma index_nat {A} (l : list A) (i : nat) :
  (i < length l)%nat -> Py.index l (Z.of_nat i) = l !! i.
Proof.
  intros H. unfold Py.index.
  assert (((0 <=? Z.of_nat i) && (Z.of_nat i <? Z.of_nat (length l))) = true)
    as ->.
  { apply andb_true_iff. split; [apply Z.leb_le | apply Z.ltb_lt]; lia. }
  rewrite Nat2Z.id. reflexivity.
Qed.

(** X18.  The row opened is not the row shown.  Against a server that
    answers every call, [refresh_emails] makes row [i] of the table, of [n]
    rows, from what the server answered for the id at position [n - 1 - i]
    of those listed, the newest in the first row; [view_email] for row [i]
    of that table fetches the id at position [i], counted from the oldest.
    With ids that are all different, the message opened is the message of
    the row clicked only when that row is the middle one. *)
Theorem view_opens_other_row lib net line st accounts settings (row : nat) :
  selector_text (self st) <> EmptyString ->
  config (self st) = Some accounts ->
  dict_get (selector_text (self st)) accounts = Some settings ->
  vault_fault (world st) = None ->
  answers lib net line ->
  let ids := Py.slice_from (-20) (Py.bytes_split line) in
  (row < length ids)%nat ->
  let account := selector_text (self st) in
  let password := vault (world st) !! ("modern-mail", account) in
  let h0 :=
    imap_log (world st) ++ session_opening settings account password in
  let turn := before_turn h0 ids (length ids - 1 - row) in
  let st1 := fst (refresh_emails lib net st) in
  let st2 := fst (view_email lib net (Z.of_nat row) st1) in
  exists listed_there opened m flags cells,
    ids !! (length ids - 1 - row)%nat = Some listed_there
    /\ message_at lib net turn listed_there = Some m
    /\ flags_at lib net turn listed_there = Some flags
    /\ email_table (self st1) !! row = Some cells
    /\ row_for lib m flags cells
    /\ ids !! row = Some opened
    /\ imap_log (world st2)
       = imap_log (world st1)
         ++ [ImapConnect (imap_server settings) (imap_port settings);
             ImapLogin account password;
             ImapSelect "INBOX"; ImapSearch "ALL";
             ImapFetch opened "(RFC822)"; ImapLogout]
    /\ (NoDup ids -> (2 * row + 1)%nat <> length ids ->
        opened <> listed_there).
Proof.
  intros Hsel Hc Hg Hv Ha ids Hrow. cbv zeta.
  (* the state after the refresh *)
  pose proof (keeps_refresh_emails lib net
                (fun st => (profile (self st), storage (world st)))
                ltac:(intros [s w] l; reflexivity)
                ltac:(intros [s w] l; reflexivity)
                ltac:(intros [s w] l; reflexivity)
                ltac:(intros [s w] l; reflexivity) st) as K.
  cbv beta in K. unfold profile, storage in K.
  injection K as K1 _ _ K4 _ _ _ K8 K9.
  destruct (refresh_try_total lib net line _ _ _ st Hc Hg Hv Ha)
    as (s1 & Htry).
  pose proof (refresh_emails_Ok lib net st s1 Hsel Htry) as Hr.
  destruct (refresh_try_rows lib net _ _ _ st s1 Hc Hg Htry)
    as (all & Hl & _ & Hrows).
  unfold listed in Hl.
  match type of Hl with
  | context [imap net ?h _] =>
      destruct (answers_search _ _ _ Ha h) as (rest' & R')
  end.
  rewrite R' in Hl. injection Hl as <-. fold ids in Hrows.
  (* the id the row was made for, and the id the viewer fetches *)
  destruct (lookup_lt_is_Some_2 ids (length ids - 1 - row)) as [there Ht];
    [lia |].
  destruct (lookup_lt_is_Some_2 ids row Hrow) as [opened Ho].
  destruct (Hrows _ _ Ht) as (m & flags & cells & Hm & Hf & Hcells & Hw).
  replace (length ids - 1 - (length ids - 1 - row))%nat with row in Hcells
    by lia.
  exists there, opened, m, flags, cells.
  split; [exact Ht |]. split; [exact Hm |]. split; [exact Hf |].
  split; [rewrite Hr; exact Hcells |].
  split; [exact Hw |]. split; [exact Ho |]. split.
  - destruct (view_email_log lib net line (Z.of_nat row)
                (fst (refresh_emails lib net st)) accounts settings)
      as (L & _); try congruence.
    fold ids in L. rewrite index_nat, Ho in L by exact Hrow.
    rewrite L, K4, K8. reflexivity.
  - intros Hnd Hmid ->.
    pose proof (NoDup_lookup _ _ _ _ Hnd Ho Ht). lia.
Qed.

Lemma view_opens_other_row_witness :
  let st := demo_state in
  let ids := Py.slice_from (-20) (Py.bytes_split "1 2 3") in
  let account := selector_text (self st) in
  let password := vault (world st) !! ("modern-mail", account) in
  let h0 := imap_log (world st) ++ session_opening gmail account password in
  let turn := before_turn h0 ids (length ids - 1 - 0) in
  let st1 := fst (refresh_emails demo_lib demo_net st) in
  let st2 := fst (view_email demo_lib demo_net (Z.of_nat 0) st1) in
  exists listed_there opened m flags cells,
    ids !! (length ids - 1 - 0)%nat = Some listed_there
    /\ message_at demo_lib demo_net turn listed_there = Some m
    /\ flags_at demo_lib demo_net turn listed_there = Some flags
    /\ email_table (self st1) !! 0%nat = Some cells
    /\ row_for demo_lib m flags cells
    /\ ids !! 0%nat = Some opened
    /\ imap_log (world st2)
       = imap_log (world st1)
         ++ [ImapConnect (imap_server gmail) (imap_port gmail);
             ImapLogin account password;
             ImapSelect "INBOX"; ImapSearch "ALL";
             ImapFetch opened "(RFC822)"; ImapLogout]
    /\ (NoDup ids -> (2 * 0 + 1)%nat <> length ids ->
        opened <> listed_there).
Proof.
  apply (view_opens_other_row demo_lib demo_net "1 2 3" demo_state
           [("alice@example.com", gmail)] gmail 0).
  - discriminate.
  - reflexivity.
  - reflexivity.
  - reflexivity.
  - exact demo_answers.
  - vm_compute. lia.
Defined.

(** In the demo mailbox the first row shows message 3, and opening it
    fetches message 1. *)
Example view_first_row_of_demo :
  let st1 := fst (refresh_emails demo_lib demo_net demo_state) in
  (email_table (self st1) !! 0%nat ≫= last) = Some "message 3"
  /\ ImapFetch "1" "(RFC822)"
     ∈ imap_log (world (fst (view_email demo_lib demo_net 0 st1)))
  /\ ImapFetch "3" "(RFC822)"
     ∉ drop (length (imap_log (world st1)))
         (imap_log (world (fst (view_email demo_lib demo_net 0 st1)))).
Proof.
  cbv zeta. split; [vm_compute; reflexivity |]. split.
  - vm_compute. apply list_elem_of_In. cbn. tauto.
  - vm_compute. intros H. apply list_elem_of_In in H. cbn in H.
    intuition discriminate.
Qed.

(** *** The label of the attachments *)





(** The message of the example: its one part is collected without a name,
    and opening it ends in the warning instead of the viewer. *)
Example inline_part_cannot_be_opened :
  attachments_loop demo_lib (walk inline_message) [] = [None]
  /\ attach_label demo_lib inline_message = Raise (join_error 0)
  /\ shown (self (fst (view_email inline_lib demo_net 0 demo_state)))
     = [Warning "Error"
          ("Failed to open email: sequence item 0: "
           +:+ "expected str instance, NoneType found")].
Proof. repeat split; vm_compute; reflexivity. Qed.

(** *** A message that is sent *)

(** X20.  When the account is configured, the keyring and the disk work,
    every attached file is there and the server accepts every call,
    [send_email] makes exactly five SMTP calls: it connects to the SMTP
    server of the account, starts TLS, logs in with the password of the
    keyring, hands over one message and quits.  The message has the
    selected account as From, the recipient and the subject as given, the
    text as its first part and one part for each attached file, in the
    order of the attachments.  The success box is shown and the dialog
    closed; the list of attachments is kept. *)
Theorem send_email_sends lib net dialog to subject body st accounts
    settings :
  config (self st) = Some accounts ->
  dict_get (selector_text (self st)) accounts = Some settings ->
  vault_fault (world st) = None ->
  disk_fault (world st) = None ->
  Forall (fun p => is_Some (files (world st) !! p)) (attachments (self st)) ->
  (forall h c, smtp net h c = Ok tt) ->
  let account := selector_text (self st) in
  let msg := outgoing lib (files (world st)) account to subject body
               (attachments (self st)) in
  send_email lib net dialog to subject body st
  = ({| self :=
          with_shown
            (shown (self st)
             ++ [Information "Success" "Email sent successfully!";
                 Accepted dialog])
            (self st);
        world :=
          with_smtp_log
            (smtp_log (world st)
             ++ [SmtpConnect (smtp_server settings) (smtp_port settings);
                 SmtpStarttls;
                 SmtpLogin account
                   (vault (world st) !! ("modern-mail", account));
                 SmtpSendMessage msg; SmtpQuit])
            (world st) |}, Ok tt).
Proof.
  intros Hc Hg Hv Hd Hall Hnet. cbv zeta.
  unfold send_email, try_except, send_try.
  erewrite bind_step by reflexivity.
  erewrite bind_step by (eapply config_account_eq; eassumption).
  erewrite bind_step by (apply keyring_get_password_eq; exact Hv).
  erewrite bind_step by (apply build_eq; assumption).
  unfold with_smtp, smtp_call, bind, show, on_self. cbn.
  rewrite !Hnet. cbn. rewrite <- !app_assoc. reflexivity.
Qed.

Lemma send_email_sends_witness :
  let st := {| self := with_attachments ["/home/alice/report.pdf"] demo_self;
               world := world desk_state |} in
  let account := selector_text (self st) in
  let msg := outgoing demo_lib (files (world st)) account "bob@example.com"
               "Hi" "Hello" (attachments (self st)) in
  send_email demo_lib demo_net 1 "bob@example.com" "Hi" "Hello" st
  = ({| self :=
          with_shown
            (shown (self st)
             ++ [Information "Success" "Email sent successfully!";
                 Accepted 1])
            (self st);
        world :=
          with_smtp_log
            (smtp_log (world st)
             ++ [SmtpConnect (smtp_server gmail) (smtp_port gmail);
                 SmtpStarttls;
                 SmtpLogin account
                   (vault (world st) !! ("modern-mail", account));
                 SmtpSendMessage msg; SmtpQuit])
            (world st) |}, Ok tt).
Proof.
  apply (send_email_sends demo_lib demo_net 1 "bob@example.com" "Hi" "Hello"
           {| self := with_attachments ["/home/alice/report.pdf"] demo_self;
              world := world desk_state |}
           [("alice@example.com", gmail)] gmail).
  - reflexivity.
  - reflexivity.
  - reflexivity.
  - reflexivity.
  - repeat constructor. vm_compute. eauto.
  - reflexivity.
Defined.

(** *** Attaching files *)

Lemma add_attachment_eq files st :
  add_attachment files st
  = ({| self :=
          let s := with_attachments (attachments (self st) ++ files)
                     (self st) in
          match attachments (self st) ++ files with
          | [] => s
          | _ => with_shown (shown (self st) ++ [added_box files]) s
          end;
        world := world st |}, Ok tt).
Proof.
  unfold add_attachment, bind, on_self, get_self, show, on_self, ret. cbn.
  destruct (attachments (self st) ++ files); reflexivity.
Qed.

Lemma add_attachments_state picks st :
  let st' := fst (add_attachments picks st) in
  attachments (self st') = attachments (self st) ++ concat picks
  /\ shown (self st')
     = shown (self st)
       ++ (added_box <$> match attachments (self st) with
                         | [] => from_first_files picks
                         | _ => picks
                         end)
  /\ snd (add_attachments picks st) = Ok tt.
Proof.
  cbv zeta. revert st. induction picks as [|files picks IH]; intros st.
  - cbn. rewrite !app_nil_r.
    destruct (attachments (self st)); cbn; rewrite app_nil_r; auto.
  - cbn [add_attachments].
    rewrite (bind_step _ _ _ _ _ (add_attachment_eq files st)).
    destruct (IH {| self :=
                      let s := with_attachments
                                 (attachments (self st) ++ files) (self st) in
                      match attachments (self st) ++ files with
                      | [] => s
                      | _ => with_shown (shown (self st) ++ [added_box files])
                               s
                      end;
                    world := world st |}) as (A & B & C).
    rewrite A, B, C. clear A B C IH.
    destruct (attachments (self st)) as [|a l]; cbn.
    + destruct files as [|f files]; cbn.
      * auto.
      * rewrite <- app_assoc. auto.
    + rewrite <- !app_assoc. auto.
Qed.

(** X21.  The attachments of a message being composed: [compose_email]
    starts with none, and every use of the attachment button adds the files
    chosen after those already there, so the list is all the files chosen,
    in order, a file chosen twice being there twice.  A use that leaves the
    list empty shows nothing; every later use shows its box, also a
    cancelled one, whose box counts zero files. *)
Theorem compose_collects_attachments picks st :
  let st' := fst ((compose_email ;; add_attachments picks) st) in
  snd ((compose_email ;; add_attachments picks) st) = Ok tt
  /\ attachments (self st') = concat picks
  /\ shown (self st')
     = shown (self st) ++ (added_box <$> from_first_files picks).
Proof.
  cbv zeta. unfold compose_email.
  erewrite bind_step by reflexivity.
  match goal with
  | |- context [add_attachments picks ?s] =>
      destruct (add_attachments_state picks s) as (A & B & C)
  end.
  rewrite A, B, C. auto.
Qed.

(** One file, a cancelled dialog, and the same file again. *)
Example compose_three_picks :
  let st' :=
    fst ((compose_email ;;
          add_attachments [[]; ["a.txt"]; []; ["a.txt"; "b.txt"]])
           demo_state) in
  attachments (self st') = ["a.txt"; "a.txt"; "b.txt"]
  /\ shown (self st')
     = [Information "Attachments" "Added 1 attachment(s)";
        Information "Attachments" "Added 0 attachment(s)";
        Information "Attachments" "Added 2 attachment(s)"].
Proof. split; vm_compute; reflexivity. Qed.

(** *** The calls of a refresh that succeeds *)

Section Protocol.
Context (lib : Library) (net : Network) (line : string).
Hypothesis Ha : answers lib net line.

Lemma fetch_summary_log num st :
  imap_log (world (fst (fetch_summary lib net num st)))
  = imap_log (world st) ++ fetches num.
Proof.
  unfold fetch_summary.
  destruct (answers_rfc822 _ _ _ Ha (imap_log (world st)) num)
    as (a & b & rest & dt & R1 & Hdt).
  destruct (answers_flags _ _ _ Ha
              (imap_log (world st) ++ [ImapFetch num "(RFC822)"]) num)
    as (fl & rest' & text & R2 & Hfl).
  erewrite bind_step by (apply imap_call_eq; exact R1).
  erewrite bind_step by reflexivity.
  erewrite bind_step by reflexivity.
  erewrite bind_step by reflexivity.
  erewrite bind_step by (apply imap_call_eq; exact R2).
  erewrite bind_step by reflexivity.
  erewrite bind_step by (apply lift_eq; exact Hfl).
  erewrite bind_step by (apply lift_eq; exact Hdt).
  cbn. rewrite <- app_assoc. reflexivity.
Qed.

Lemma fetch_loop_log nums emails0 st :
  imap_log (world (fst (fetch_loop lib net nums emails0 st)))
  = imap_log (world st) ++ concat (fetches <$> nums).
Proof.
  revert emails0 st. induction nums as [|num nums IH]; intros emails0 st.
  - cbn. rewrite app_nil_r. reflexivity.
  - cbn [fetch_loop].
    destruct (fetch_summary_total lib net line num st Ha) as (s1 & data & H1).
    pose proof (fetch_summary_log num st) as L1. rewrite H1 in L1.
    cbn [fst] in L1. rewrite (bind_step _ _ _ _ _ H1), IH, L1.
    cbn [fmap list_fmap concat]. rewrite <- app_assoc. reflexivity.
Qed.

Lemma refresh_session_log account password st :
  imap_log (world (fst (refresh_session lib net account password st)))
  = imap_log (world st)
    ++ [ImapLogin account password; ImapSelect "INBOX"; ImapSearch "ALL"]
    ++ concat (fetches <$> Py.slice_from (-20) (Py.bytes_split line)).
Proof.
  unfold refresh_session.
  destruct (answers_login _ _ _ Ha (imap_log (world st)) account password)
    as (d1 & R1).
  erewrite bind_step by (apply imap_call_eq; exact R1).
  match goal with |- context [bind _ _ ?s] => set (s1 := s) end.
  destruct (answers_select _ _ _ Ha (imap_log (world s1)) "INBOX")
    as (d2 & R2).
  erewrite bind_step by (apply imap_call_eq; exact R2).
  match goal with |- context [bind _ _ ?s] => set (s2 := s) end.
  destruct (answers_search _ _ _ Ha (imap_log (world s2))) as (rest & R3).
  erewrite bind_step by (apply imap_call_eq; exact R3).
  erewrite bind_step by reflexivity.
  erewrite bind_step by reflexivity.
  match goal with |- context [bind _ _ ?s] => set (s3 := s) end.
  destruct (fetch_loop_total lib net line
              (Py.slice_from (-20) (Py.bytes_split line)) [] s3 Ha)
    as (s4 & emails & H4).
  pose proof (fetch_loop_log (Py.slice_from (-20) (Py.bytes_split line))
                [] s3) as L4.
  rewrite H4 in L4. rewrite (bind_step _ _ _ _ _ H4).
  unfold on_self. cbn [fst world] in L4 |- *. rewrite L4.
  cbn. rewrite <- !app_assoc. reflexivity.
Qed.

End Protocol.

(** The calls of the [try] block of a refresh that succeeds. *)
Lemma refresh_try_log lib net line st accounts settings :
  config (self st) = Some accounts ->
  dict_get (selector_text (self st)) accounts = Some settings ->
  vault_fault (world st) = None ->
  answers lib net line ->
  let account := selector_text (self st) in
  imap_log (world (fst (refresh_try lib net account st)))
  = imap_log (world st)
    ++ [ImapConnect (imap_server settings) (imap_port settings);
        ImapLogin account (vault (world st) !! ("modern-mail", account));
        ImapSelect "INBOX"; ImapSearch "ALL"]
    ++ concat (fetches <$> Py.slice_from (-20) (Py.bytes_split line))
    ++ [ImapLogout].
Proof.
  intros Hc Hg Hv Ha. cbv zeta. unfold refresh_try.
  erewrite bind_step by (eapply config_account_eq; eassumption).
  erewrite bind_step by (apply keyring_get_password_eq; exact Hv).
  erewrite bind_step by reflexivity.
  set (account := selector_text (self st)).
  set (password := vault (world st) !! ("modern-mail", account)).
  match goal with
  | |- context [with_imap _ _ _ _ ?s] => set (s0 := s)
  end.
  destruct (answers_connect _ _ _ Ha (imap_log (world s0))
              (imap_server settings) (imap_port settings)) as (d0 & R0).
  set (s1 := {| self := self s0;
                world := with_imap_log
                           (imap_log (world s0)
                            ++ [ImapConnect (imap_server settings)
                                  (imap_port settings)])
                           (world s0) |}).
  pose proof (refresh_session_log lib net line Ha account password s1) as L.
  destruct (refresh_session lib net account password s1) as [s2 r] eqn:Hb.
  cbn [fst] in L.
  destruct (answers_logout _ _ _ Ha (imap_log (world s2))) as (d3 & R3).
  rewrite (with_imap_run net _ _ _ s0 s2 r d0 d3 R0 Hb R3).
  cbn [fst world imap_log with_imap_log].
  rewrite L. cbn [s1 s0 world imap_log with_imap_log].
  rewrite <- !app_assoc. reflexivity.
Qed.

(** X22.  The calls of a refresh that succeeds.  When the selected account
    is configured, the keyring works and the server answers every call,
    [refresh_emails] connects to the IMAP server of the account, logs in
    with the password of the keyring, selects INBOX, searches ALL, fetches
    for each of the last twenty ids of the answer, in the order of the
    answer, first the message (RFC822) and then its flags, and logs out:
    four calls, two for each id, and one. *)
Theorem refresh_protocol lib net line st accounts settings :
  selector_text (self st) <> EmptyString ->
  config (self st) = Some accounts ->
  dict_get (selector_text (self st)) accounts = Some settings ->
  vault_fault (world st) = None ->
  answers lib net line ->
  let account := selector_text (self st) in
  let ids := Py.slice_from (-20) (Py.bytes_split line) in
  imap_log (world (fst (refresh_emails lib net st)))
  = imap_log (world st)
    ++ [ImapConnect (imap_server settings) (imap_port settings);
        ImapLogin account (vault (world st) !! ("modern-mail", account));
        ImapSelect "INBOX"; ImapSearch "ALL"]
    ++ concat (fetches <$> ids)
    ++ [ImapLogout].
Proof.
  intros Hsel Hc Hg Hv Ha. cbv zeta.
  pose proof (refresh_try_log lib net line st accounts settings Hc Hg Hv Ha)
    as L.
  cbv zeta in L. rewrite <- L.
  unfold refresh_emails, bind, get_self.
  rewrite bool_decide_eq_false_2 by exact Hsel.
  unfold try_finally, try_except, show, on_self.
  destruct (refresh_try lib net _ st) as [s1 [[]|e]]; reflexivity.
Qed.

Lemma refresh_protocol_witness :
  let account := selector_text (self demo_state) in
  let ids := Py.slice_from (-20) (Py.bytes_split "1 2 3") in
  imap_log (world (fst (refresh_emails demo_lib demo_net demo_state)))
  = imap_log (world demo_state)
    ++ [ImapConnect (imap_server gmail) (imap_port gmail);
        ImapLogin account
          (vault (world demo_state) !! ("modern-mail", account));
        ImapSelect "INBOX"; ImapSearch "ALL"]
    ++ concat (fetches <$> ids)
    ++ [ImapLogout].
Proof.
  apply (refresh_protocol demo_lib demo_net "1 2 3" demo_state
           [("alice@example.com", gmail)] gmail).
  - discriminate.
  - reflexivity.
  - reflexivity.
  - reflexivity.
  - exact demo_answers.
Defined.

(** *** Reading marks *)

Lemma marking_net_marks : marks_seen demo_lib marking_net.
Proof.
  intros h num fl rest text Hin Heq Hdec. cbn in Heq.
  rewrite bool_decide_eq_true_2 in Heq by exact Hin.
  injection Heq as <- _. cbn in Hdec. injection Hdec as <-.
  apply contains_occurs. reflexivity.
Qed.

(** X23.  [refresh_emails] asks for the text of a message before it asks
    for its flags.  On a server that marks a message as seen when its text
    is fetched, the flags it then reads always have [\Seen]: every row of
    a table filled by a refresh that succeeds shows the icon of a read
    message, whatever the flags were before. *)
Theorem every_row_read lib net st st1 :
  selector_text (self st) <> EmptyString ->
  refresh_try lib net (selector_text (self st)) st = (st1, Ok tt) ->
  marks_seen lib net ->
  Forall (fun row => head row = Some icon_read)
         (email_table (self (fst (refresh_emails lib net st)))).
Proof.
  intros Hsel Htry Hm.
  rewrite (refresh_emails_Ok lib net st st1 Hsel Htry). cbn [fst self].
  apply refresh_try_Ok in Htry
    as (h & line & rest & emails & _ & -> & _ & Hall).
  cbn. apply Forall_fmap, Forall_reverse.
  eapply Forall_impl; [exact Hall |].
  intros data (h' & email_msg & flags & Hf & Hst & _). cbn.
  destruct Hf as (a & b & rest1 & fl & rest2 & _ & _ & R2 & Hdec).
  assert (Py.contains "\Seen" flags = true) as Hc.
  { apply contains_occurs.
    apply (Hm (h' ++ [ImapFetch (id data) "(RFC822)"]) (id data) fl rest2);
      [| exact R2 | exact Hdec].
    apply elem_of_app. right. left. }
  rewrite Hst, Hc. reflexivity.
Qed.

Lemma every_row_read_witness :
  Forall (fun row => head row = Some icon_read)
         (email_table
            (self (fst (refresh_emails demo_lib marking_net demo_state)))).
Proof.
  apply (every_row_read demo_lib marking_net demo_state
           (fst (refresh_try demo_lib marking_net "alice@example.com"
                   demo_state))).
  - discriminate.
  - vm_compute. reflexivity.
  - exact marking_net_marks.
Defined.

(** *** The password *)

(** X24.  The password given to [save_account] goes to the keyring and
    nowhere else: with another password the settings file, [config] and the
    account selector end up the same, and so does every entry of the
    keyring but the one of the address. *)
Theorem password_only_in_keyring lib net dialog email password password' st
    setup accounts :
  current_setup (self st) = Some setup ->
  config (self st) = Some accounts ->
  vault_fault (world st) = None ->
  disk_fault (world st) = None ->
  let st1 := fst (save_account lib net dialog email password st) in
  let st2 := fst (save_account lib net dialog email password' st) in
  files (world st1) = files (world st2)
  /\ config (self st1) = config (self st2)
  /\ selector_items (self st1) = selector_items (self st2)
  /\ (forall key, key <> ("modern-mail", email) ->
        vault (world st1) !! key = vault (world st2) !! key).
Proof.
  intros Hs Hc Hv Hd. cbv zeta.
  destruct (save_account_fields lib net dialog email password st setup
              accounts Hs Hc Hv Hd)
    as (_ & C1 & _ & I1 & _ & _ & F1 & _ & K1 & _).
  destruct (save_account_fields lib net dialog email password' st setup
              accounts Hs Hc Hv Hd)
    as (_ & C2 & _ & I2 & _ & _ & F2 & _ & K2 & _).
  rewrite F1, F2, C1, C2, I1, I2, K1, K2.
  repeat split; try reflexivity.
  intros key Hne. rewrite !lookup_insert_ne by congruence. reflexivity.
Qed.

Lemma password_only_in_keyring_witness :
  let st1 :=
    fst (save_account demo_lib demo_net 1 "bob@example.com" "secret"
           ready_state) in
  let st2 :=
    fst (save_account demo_lib demo_net 1 "bob@example.com" "hunter2"
           ready_state) in
  files (world st1) = files (world st2)
  /\ config (self st1) = config (self st2)
  /\ selector_items (self st1) = selector_items (self st2)
  /\ (forall key, key <> ("modern-mail", "bob@example.com") ->
        vault (world st1) !! key = vault (world st2) !! key).
Proof.
  apply (password_only_in_keyring demo_lib demo_net 1 "bob@example.com"
           "secret" "hunter2" ready_state gmail
           [("alice@example.com", gmail)]);
    reflexivity.
Defined.

(** *** Building the window *)

Lemma getattr_found inherited name st :
  bool_decide (name ∈ class_names) || inherited name = true ->
  getattr inherited name st = (st, Ok tt).
Proof. unfold getattr. intros ->. reflexivity. Qed.

Lemma bind_assoc {A B C} (c : M A) (k1 : A -> M B) (k2 : B -> M C) st :
  bind (bind c k1) k2 st = bind c (fun a => bind (k1 a) k2) st.
Proof. unfold bind. destruct (c st) as [s1 [a|e]]; reflexivity. Qed.

Lemma getattr_bind_Ok inherited name (k : unit -> M unit) st :
  snd (bind (getattr inherited name) k st) = Ok tt ->
  bool_decide (name ∈ class_names) || inherited name = true
  /\ snd (k tt st) = Ok tt.
Proof.
  unfold bind, getattr. destruct (_ || _); [auto | discriminate].
Qed.

(** X25.  The window cannot be built from the class alone.  [setup_ui],
    which [__init__] calls, names as callbacks five methods that the class
    does not define: it returns only when [QMainWindow] has every one of
    them, and when [QMainWindow] has its own methods and not
    [show_settings], the second action of the first menu raises the
    [AttributeError] of that name, before any widget of the window
    exists. *)
Theorem setup_ui_needs_callbacks inherited st :
  (snd (setup_ui inherited st) = Ok tt ->
   Forall (fun name => inherited name = true) undefined_callbacks)
  /\ (inherited "setCentralWidget" = true ->
      inherited "menuBar" = true ->
      inherited "show_settings" = false ->
      setup_ui inherited st
      = (st, Raise (mkExc AttributeError
                      ("'ModernEmailClient' object has no attribute "
                       +:+ "'show_settings'")))).
Proof.
  split.
  - unfold setup_ui, setup_menu. intros H.
    repeat first
      [ rewrite bind_assoc in H
      | apply getattr_bind_Ok in H as [? H] ].
    unfold undefined_callbacks. repeat constructor; assumption.
  - intros Hc Hm Hs. unfold setup_ui, setup_menu.
    erewrite bind_step by (apply getattr_found; rewrite Hc;
                           apply orb_true_r).
    erewrite bind_step by (apply getattr_found; reflexivity).
    apply bind_raise.
    erewrite bind_step by (apply getattr_found; rewrite Hm;
                           apply orb_true_r).
    erewrite bind_step by (apply getattr_found; reflexivity).
    apply bind_raise. unfold getattr. rewrite Hs. reflexivity.
Qed.

Lemma setup_ui_needs_callbacks_witness :
  setup_ui qt_names demo_state
  = (demo_state,
     Raise (mkExc AttributeError
              ("'ModernEmailClient' object has no attribute "
               +:+ "'show_settings'"))).
Proof.
  apply (proj2 (setup_ui_needs_callbacks qt_names demo_state)); reflexivity.
Defined.

(** *** A message that is opened *)



(** *** All of the table or none of it *)



(** *** The password, stored and used *)

(** X28.  The password [save_account] stores is the one the client logs in
    with.  When the account added is the first of the list (the only case
    in which the refresh at the end of [save_account] is for it) and the
    server answers every call, that refresh connects to the IMAP server
    of the settings just stored and logs in with the address and the
    password just given, read back from the keyring. *)
Theorem stored_password_is_used lib net line dialog email password st setup
    accounts :
  current_setup (self st) = Some setup ->
  config (self st) = Some accounts ->
  vault_fault (world st) = None ->
  disk_fault (world st) = None ->
  email <> EmptyString ->
  first_key (dict_set email setup accounts) = email ->
  answers lib net line ->
  imap_log (world (fst (save_account lib net dialog email password st)))
  = imap_log (world st)
    ++ [ImapConnect (imap_server setup) (imap_port setup);
        ImapLogin email (Some password);
        ImapSelect "INBOX"; ImapSearch "ALL"]
    ++ concat (fetches <$> Py.slice_from (-20) (Py.bytes_split line))
    ++ [ImapLogout].
Proof.
  intros Hs Hc Hv Hd Hne Hf Ha.
  rewrite (save_account_eq lib net dialog email password st setup accounts)
    by assumption.
  set (st1 := saved lib dialog email password setup accounts st).
  assert (selector_text (self st1) = email) as Hsel by exact Hf.
  pose proof (refresh_try_log lib net line st1
                (dict_set email setup accounts) setup) as L.
  cbv zeta in L. rewrite Hsel in L.
  specialize (L eq_refl (dict_get_set _ _ _) Hv Ha).
  replace (vault (world st1) !! ("modern-mail", email)) with (Some password)
    in L by (symmetry; apply lookup_insert_eq).
  change (imap_log (world st1)) with (imap_log (world st)) in L.
  rewrite <- L.
  unfold refresh_emails, bind, get_self.
  rewrite Hsel, bool_decide_eq_false_2 by exact Hne.
  unfold try_finally, try_except, show, on_self.
  destruct (refresh_try lib net email st1) as [s1 [[]|e]]; reflexivity.
Qed.

Lemma stored_password_is_used_witness :
  imap_log (world (fst (save_account demo_lib demo_net 1 "bob@example.com"
                          "secret" (fst (quick_setup "smtp.gmail.com" 587
                                           "imap.gmail.com" 993
                                           fresh_state)))))
  = imap_log (world fresh_state)
    ++ [ImapConnect (imap_server gmail) (imap_port gmail);
        ImapLogin "bob@example.com" (Some "secret");
        ImapSelect "INBOX"; ImapSearch "ALL"]
    ++ concat (fetches <$> Py.slice_from (-20) (Py.bytes_split "1 2 3"))
    ++ [ImapLogout].
Proof.
  apply (stored_password_is_used demo_lib demo_net "1 2 3" 1
           "bob@example.com" "secret"
           (fst (quick_setup "smtp.gmail.com" 587 "imap.gmail.com" 993
                   fresh_state))
           gmail []).
  - reflexivity.
  - reflexivity.
  - reflexivity.
  - reflexivity.
  - discriminate.
  - reflexivity.
  - exact demo_answers.
Defined.

(** *** What is attached is what is sent *)

Lemma add_attachments_keeps picks :
  keeps (fun st => (config (self st), selector_text (self st), world st))
        (add_attachments picks).
Proof.
  induction picks as [|files picks IH]; cbn [add_attachments].
  - apply keeps_ret.
  - apply keeps_bind; [| intros _; exact IH].
    intros st. rewrite add_attachment_eq. cbn.
    destruct (attachments (self st) ++ files); reflexivity.
Qed.

(** X29.  What is attached is what is sent.  A message composed with the
    attachment button used any number of times and then sent, with the
    account configured, the keyring and the disk working, every file chosen
    on the disk and a server that accepts every call, is handed to the
    server with one part for each file chosen, in the order in which they
    were chosen, after the text. *)
Theorem attached_files_are_sent lib net picks dialog to subject body st
    accounts settings :
  config (self st) = Some accounts ->
  dict_get (selector_text (self st)) accounts = Some settings ->
  vault_fault (world st) = None ->
  disk_fault (world st) = None ->
  Forall (fun p => is_Some (files (world st) !! p)) (concat picks) ->
  (forall h c, smtp net h c = Ok tt) ->
  let account := selector_text (self st) in
  let st' :=
    fst ((compose_email ;; add_attachments picks ;;
          send_email lib net dialog to subject body) st) in
  smtp_log (world st')
  = smtp_log (world st)
    ++ [SmtpConnect (smtp_server settings) (smtp_port settings);
        SmtpStarttls;
        SmtpLogin account (vault (world st) !! ("modern-mail", account));
        SmtpSendMessage
          (outgoing lib (files (world st)) account to subject body
             (concat picks));
        SmtpQuit].
Proof.
  intros Hc Hg Hv Hd Hall Hnet. cbv zeta. unfold compose_email.
  erewrite bind_step by reflexivity.
  match goal with
  | |- context [bind (add_attachments picks) _ ?s] => set (s1 := s)
  end.
  destruct (add_attachments_state picks s1) as (A & _ & R).
  pose proof (add_attachments_keeps picks s1) as K.
  destruct (add_attachments picks s1) as [s2 r] eqn:E.
  cbn [fst snd] in A, R, K. subst r. injection K as Kc Ks Kw.
  rewrite (bind_step _ _ _ _ _ E).
  change (attachments (self s1)) with (@nil string) in A.
  cbn [app] in A. cbn [s1 self world config selector_text with_attachments]
    in Kc, Ks, Kw.
  unfold send_email, try_except, send_try.
  erewrite bind_step by reflexivity.
  erewrite bind_step
    by (eapply config_account_eq; [rewrite Kc; exact Hc | rewrite Ks; exact Hg]).
  erewrite bind_step
    by (apply keyring_get_password_eq; rewrite Kw; exact Hv).
  erewrite bind_step
    by (apply build_eq; rewrite Kw; [exact Hd | rewrite A; exact Hall]).
  unfold with_smtp, smtp_call, bind, show, on_self. cbn.
  rewrite !Hnet. cbn. rewrite Kw, Ks, A, <- !app_assoc. reflexivity.
Qed.

Lemma attached_files_are_sent_witness :
  let account := selector_text (self desk_state) in
  let st' :=
    fst ((compose_email ;;
          add_attachments [["/home/alice/report.pdf"]; [];
                           ["/home/alice/ notes.txt"]] ;;
          send_email demo_lib demo_net 1 "bob@example.com" "Hi" "Hello")
           desk_state) in
  smtp_log (world st')
  = smtp_log (world desk_state)
    ++ [SmtpConnect (smtp_server gmail) (smtp_port gmail);
        SmtpStarttls;
        SmtpLogin account
          (vault (world desk_state) !! ("modern-mail", account));
        SmtpSendMessage
          (outgoing demo_lib (files (world desk_state)) account
             "bob@example.com" "Hi" "Hello"
             (concat [["/home/alice/report.pdf"]; [];
                      ["/home/alice/ notes.txt"]]));
        SmtpQuit].
Proof.
  apply (attached_files_are_sent demo_lib demo_net
           [["/home/alice/report.pdf"]; []; ["/home/alice/ notes.txt"]]
           1 "bob@example.com" "Hi" "Hello" desk_state
           [("alice@example.com", gmail)] gmail).
  - reflexivity.
  - reflexivity.
  - reflexivity.
  - reflexivity.
  - repeat constructor; vm_compute; eauto.
  - reflexivity.
Defined.

(** *** Sent, and reported as not sent *)

(** X30.  A message can be sent and reported as not sent.  When the server
    accepts the connection, STARTTLS, LOGIN and the message, and QUIT then
    fails, [send_email] has handed the message over.  A connection found
    closed at QUIT is passed over: the success box is shown and the dialog
    closed.  After any other failure of QUIT the error box is shown with
    the text of that failure, not the success box.  The attachments stay
    either way. *)
Theorem send_email_reports_late_failure lib net dialog to subject body st
    accounts settings e :
  config (self st) = Some accounts ->
  dict_get (selector_text (self st)) accounts = Some settings ->
  vault_fault (world st) = None ->
  disk_fault (world st) = None ->
  Forall (fun p => is_Some (files (world st) !! p)) (attachments (self st)) ->
  (forall h c, c <> SmtpQuit -> smtp net h c = Ok tt) ->
  (forall h, smtp net h SmtpQuit = Raise e) ->
  let account := selector_text (self st) in
  let msg := outgoing lib (files (world st)) account to subject body
               (attachments (self st)) in
  let st' := fst (send_email lib net dialog to subject body st) in
  smtp_log (world st')
  = smtp_log (world st)
    ++ [SmtpConnect (smtp_server settings) (smtp_port settings);
        SmtpStarttls;
        SmtpLogin account (vault (world st) !! ("modern-mail", account));
        SmtpSendMessage msg; SmtpQuit]
  /\ shown (self st')
     = shown (self st)
       ++ (if is_SMTPServerDisconnected e
           then [Information "Success" "Email sent successfully!";
                 Accepted dialog]
           else [Critical "Error" ("Failed to send email: " +:+ exc_str e)])
  /\ attachments (self st') = attachments (self st).
Proof.
  intros Hc Hg Hv Hd Hall Hok Hquit. cbv zeta.
  unfold send_email, try_except, send_try.
  erewrite bind_step by reflexivity.
  erewrite bind_step by (eapply config_account_eq; eassumption).
  erewrite bind_step by (apply keyring_get_password_eq; exact Hv).
  erewrite bind_step by (apply build_eq; assumption).
  unfold with_smtp, smtp_call, bind, show, on_self. cbn.
  rewrite !Hok by discriminate. cbn. rewrite Hquit.
  destruct (is_SMTPServerDisconnected e); cbn;
    rewrite ?Hok by discriminate; cbn; rewrite <- !app_assoc; auto.
Qed.

Lemma send_email_reports_late_failure_witness :
  let st := {| self := with_attachments ["/home/alice/report.pdf"] demo_self;
               world := world desk_state |} in
  let account := selector_text (self st) in
  let msg := outgoing demo_lib (files (world st)) account "bob@example.com"
               "Hi" "Hello" (attachments (self st)) in
  let st' :=
    fst (send_email demo_lib hasty_net 1 "bob@example.com" "Hi" "Hello"
           st) in
  smtp_log (world st')
  = smtp_log (world st)
    ++ [SmtpConnect (smtp_server gmail) (smtp_port gmail);
        SmtpStarttls;
        SmtpLogin account (vault (world st) !! ("modern-mail", account));
        SmtpSendMessage msg; SmtpQuit]
  /\ shown (self st')
     = shown (self st)
       ++ [Critical "Error"
             ("Failed to send email: " +:+ exc_str no_goodbye)]
  /\ attachments (self st') = attachments (self st).
Proof.
  apply (send_email_reports_late_failure demo_lib hasty_net 1
           "bob@example.com" "Hi" "Hello"
           {| self := with_attachments ["/home/alice/report.pdf"] demo_self;
              world := world desk_state |}
           [("alice@example.com", gmail)] gmail no_goodbye).
  - reflexivity.
  - reflexivity.
  - reflexivity.
  - reflexivity.
  - repeat constructor. vm_compute. eauto.
  - intros h [] H; first [reflexivity | congruence].
  - reflexivity.
Defined.

(** The other case: the connection is gone when QUIT is sent, and the
    message is reported as sent. *)
Example send_email_passes_over_lost_line :
  let st := {| self := with_attachments ["/home/alice/report.pdf"] demo_self;
               world := world desk_state |} in
  let st' :=
    fst (send_email demo_lib vanishing_net 1 "bob@example.com" "Hi" "Hello"
           st) in
  smtp vanishing_net (smtp_log (world st)) SmtpQuit = Raise line_dropped
  /\ last (smtp_log (world st')) = Some SmtpQuit
  /\ shown (self st')
     = shown (self st)
       ++ [Information "Success" "Email sent successfully!"; Accepted 1].
Proof. vm_compute. auto. Qed.
